(** * Facial-animation retargeting: curve evaluator, corrective mapping
      engine, playback scheduler, channel smoother and jaw resolver.

    Shallow embedding of
      - src/constants/mappings/metahuman/metahumanToCC5.js
          (evaluateCurve, METAHUMAN_TO_CC5_MAPPING, convertMetaHumanToCC5)
      - the useMetahumanLipsync hook (the useFrame tick,
          applyMetaHumanToCC5, applyMorphValueSmooth, jawValueToRotation,
          applyJawBoneSmooth) and the useArkitLipsync copy of
          jawValueToRotation with its jaw curve
      - src/constants/convaiConfig.js (ANIMATION_CONFIG, JAW_CONFIG)

    Modelling conventions.
      - JavaScript numbers are exact rationals [Q]: no rounding, no NaN, no
        infinities.  Results that follow the code's own expression tree
        are stated with Leibniz equality, arithmetic facts with [==].
      - Plain objects and [Map]s keyed by channel name are
        [gmap string _]; [obj[k] || 0] is [default 0 (obj !! k)].
        Property names inherited from Object.prototype are not channel
        names and are outside the model.
      - A morph-target slot [{influences, index}] is a pair (mesh, index)
        into one store of all influences arrays, so that several channel
        names writing the same array are seen to alias.
      - Mutation is explicit state passing: each function returns the
        stores it updates. *)

From Stdlib Require Import QArith Qround Qminmax Qabs Lqa Lia ZArith Ascii String List Bool.
From stdpp Require Import gmap strings list fin_maps sorting.
Import ListNotations.

Local Open Scope Q_scope.
Local Open Scope string_scope.

(* ------------------------------------------------------------------ *)
(** ** Curve evaluator (metahumanToCC5.js, evaluateCurve)              *)
(* ------------------------------------------------------------------ *)

(** A curve keyframe [{time, value}]. *)
Record Key : Type := mkKey { time : Q; value : Q }.

(** [Math.max(0, Math.min(1, x))]. *)
Definition clamp01 (x : Q) : Q := Qmax 0 (Qmin 1 x).

(** The [for] loop of evaluateCurve: the first adjacent pair
    [keys[i], keys[i+1]] with [keys[i].time <= x <= keys[i+1].time];
    [None] when the loop finishes without a [break]. *)
Fixpoint findBracket (x : Q) (keys : list Key) : option (Key * Key) :=
  match keys with
  | k0 :: ((k1 :: _) as rest) =>
      if Qle_bool (time k0) x && Qle_bool x (time k1)
      then Some (k0, k1)
      else findBracket x rest
  | _ => None
  end.

(** Linear interpolation between the two chosen keys. *)
Definition interpolate (startKey endKey : Key) (x : Q) : Q :=
  let timeDelta := time endKey - time startKey in
  if Qeq_bool timeDelta 0 then value startKey
  else
    let t := (x - time startKey) / timeDelta in
    value startKey + (value endKey - value startKey) * t.

(** [evaluateCurve(keys, inputValue)]; [None] is an undefined [keys]. *)
Definition evaluateCurve (keys : option (list Key)) (inputValue : Q) : Q :=
  match keys with
  | None | Some [] => inputValue
  | Some ((first :: _) as ks) =>
      let x := clamp01 inputValue in
      let startKey := first in
      let endKey := List.last ks first in
      if Qle_bool x (time startKey) then value startKey
      else if Qle_bool (time endKey) x then value endKey
      else
        let '(s, e) := default (startKey, endKey) (findBracket x ks) in
        interpolate s e x
  end.

(** Ascending by time, as the rule tables promise for their curves. *)
Fixpoint sortedByTime (keys : list Key) : bool :=
  match keys with
  | k0 :: ((k1 :: _) as rest) => Qle_bool (time k0) (time k1) && sortedByTime rest
  | _ => true
  end.

(** A pair of adjacent keys that brackets [x]. *)
Definition brackets (x : Q) (a b : Key) : Prop := time a <= x /\ x <= time b.

(** [i] is the first index whose adjacent pair [a, b] brackets [x]. *)
Definition firstBracketAt (keys : list Key) (x : Q) (i : nat) (a b : Key) : Prop :=
  keys !! i = Some a /\ keys !! S i = Some b /\ brackets x a b /\
  (forall (j : nat) (c d : Key),
      (j < i)%nat -> keys !! j = Some c -> keys !! S j = Some d -> ~ brackets x c d).

Definition identityCurve : list Key := [mkKey 0 0; mkKey 1 1].
Definition blinkCurve : list Key := [mkKey 0 0; mkKey 0.5 1; mkKey 1 0].

(* ------------------------------------------------------------------ *)
(** ** Mapping engine (metahumanToCC5.js)                              *)
(* ------------------------------------------------------------------ *)

(** A corrective-combination rule
    [{name, source, target, mode, curve}]; [curve] is optional. *)
Record MappingRule : Type := mkRule {
  name : string;
  source : list string;
  target : string;
  mode : string;
  curve : option (list Key)
}.

Definition METAHUMAN_TO_CC5_MAPPING : list MappingRule := [
  {| name := "NoseWrinkleL_BrowDownL";
     source := ["CTRL_expressions_noseWrinkleL"; "CTRL_expressions_browDownL"];
     target := "C_NoseWrinkleL_BrowDownL";
     mode := "Add";
     curve := Some [mkKey 0 0; mkKey 1 1] |};
  {| name := "NoseWrinkleR_BrowDownR";
     source := ["CTRL_expressions_noseWrinkleR"; "CTRL_expressions_browDownR"];
     target := "C_NoseWrinkleR_BrowDownR";
     mode := "Add";
     curve := Some [mkKey 0 0; mkKey 1 1] |};
  {| name := "BlinkL";
     source := ["CTRL_expressions_eyeBlinkL"];
     target := "C_BlinkL";
     mode := "Add";
     curve := Some [mkKey 0 0; mkKey 0.5 1; mkKey 1 0] |};
  {| name := "BlinkR";
     source := ["CTRL_expressions_eyeBlinkR"];
     target := "C_BlinkR";
     mode := "Add";
     curve := Some [mkKey 0 0; mkKey 0.5 1; mkKey 1 0] |};
  {| name := "BlinkL_LookDownL";
     source := ["CTRL_expressions_eyeBlinkL"; "CTRL_expressions_eyeLookDownL"];
     target := "C_BlinkL_LookDownL";
     mode := "Add";
     curve := Some [mkKey 0 0; mkKey 1 1] |};
  {| name := "BlinkR_LookDownR";
     source := ["CTRL_expressions_eyeBlinkR"; "CTRL_expressions_eyeLookDownR"];
     target := "C_BlinkR_LookDownR";
     mode := "Add";
     curve := Some [mkKey 0 0; mkKey 1 1] |};
  {| name := "BlinkL_LookUpL";
     source := ["CTRL_expressions_eyeBlinkL"; "CTRL_expressions_eyeLookUpL"];
     target := "C_BlinkL_LookUpL";
     mode := "Add";
     curve := Some [mkKey 0 0; mkKey 1 1] |};
  {| name := "BlinkR_LookUpR";
     source := ["CTRL_expressions_eyeBlinkR"; "CTRL_expressions_eyeLookUpR"];
     target := "C_BlinkR_LookUpR";
     mode := "Add";
     curve := Some [mkKey 0 0; mkKey 1 1] |};
  {| name := "BlinkL_SquintInnerL";
     source := ["CTRL_expressions_eyeBlinkL"; "CTRL_expressions_eyeSquintInnerL"];
     target := "C_BlinkL_SquintInnerL";
     mode := "Add";
     curve := Some [mkKey 0 0; mkKey 1 1] |};
  {| name := "BlinkR_SquintInnerR";
     source := ["CTRL_expressions_eyeBlinkR"; "CTRL_expressions_eyeSquintInnerR"];
     target := "C_BlinkR_SquintInnerR";
     mode := "Add";
     curve := Some [mkKey 0 0; mkKey 1 1] |};
  {| name := "BlinkL_CheekRaiseL";
     source := ["CTRL_expressions_eyeBlinkL"; "CTRL_expressions_eyeCheekRaiseL"];
     target := "C_BlinkL_CheekRaiseL";
     mode := "Add";
     curve := Some [mkKey 0 0; mkKey 1 1] |};
  {| name := "BlinkL_CheekRaiseR";
     source := ["CTRL_expressions_eyeBlinkR"; "CTRL_expressions_eyeCheekRaiseR"];
     target := "C_BlinkR_CheekRaiseR";
     mode := "Add";
     curve := Some [mkKey 0 0; mkKey 1 1] |};
  {| name := "BlinkL_LookLeftL";
     source := ["CTRL_expressions_eyeBlinkL"; "CTRL_expressions_eyeLookLeftL"];
     target := "C_BlinkL_LookLeftL";
     mode := "Add";
     curve := Some [mkKey 0 0; mkKey 1 1] |};
  {| name := "BlinkR_LookLeftR";
     source := ["CTRL_expressions_eyeBlinkR"; "CTRL_expressions_eyeLookLeftR"];
     target := "C_BlinkR_LookLeftR";
     mode := "Add";
     curve := Some [mkKey 0 0; mkKey 1 1] |};
  {| name := "BlinkL_LookRightL";
     source := ["CTRL_expressions_eyeBlinkL"; "CTRL_expressions_eyeLookRightL"];
     target := "C_BlinkL_LookRightL";
     mode := "Add";
     curve := Some [mkKey 0 0; mkKey 1 1] |};
  {| name := "BlinkR_LookRightR";
     source := ["CTRL_expressions_eyeBlinkR"; "CTRL_expressions_eyeLookRightR"];
     target := "C_BlinkR_LookRightR";
     mode := "Add";
     curve := Some [mkKey 0 0; mkKey 1 1] |};
  {| name := "BlinkL_SquintInnerL_CheekRaiseL";
     source := ["CTRL_expressions_eyeCheekRaiseL"; "CTRL_expressions_eyeSquintInnerL"; "CTRL_expressions_eyeBlinkL"];
     target := "C_BlinkL_SquintInnerL_CheekRaiseL";
     mode := "Add";
     curve := Some [mkKey 0 0; mkKey 1 1] |};
  {| name := "BlinkR_SquintInnerR_CheekRaiseR";
     source := ["CTRL_expressions_eyeCheekRaiseR"; "CTRL_expressions_eyeSquintInnerR"; "CTRL_expressions_eyeBlinkR"];
     target := "C_BlinkR_SquintInnerR_CheekRaiseR";
     mode := "Add";
     curve := Some [mkKey 0 0; mkKey 1 1] |};
  {| name := "WidenL_LookDownL";
     source := ["CTRL_expressions_eyeLookDownL"; "CTRL_expressions_eyeWidenL"];
     target := "C_WidenL_LookDownL";
     mode := "Add";
     curve := Some [mkKey 0 0; mkKey 1 1] |};
  {| name := "WidenR_LookDownR";
     source := ["CTRL_expressions_eyeLookDownR"; "CTRL_expressions_eyeWidenR"];
     target := "C_WidenR_LookDownR";
     mode := "Add";
     curve := Some [mkKey 0 0; mkKey 1 1] |};
  {| name := "CheekRaiseL_SquintInnerL";
     source := ["CTRL_expressions_eyeCheekRaiseL"; "CTRL_expressions_eyeSquintInnerL"];
     target := "C_CheekRaiseL_SquintInnerL";
     mode := "Add";
     curve := Some [mkKey 0 0; mkKey 1 1] |};
  {| name := "CheekRaiseR_SquintInnerR";
     source := ["CTRL_expressions_eyeCheekRaiseR"; "CTRL_expressions_eyeSquintInnerR"];
     target := "C_CheekRaiseR_SquintInnerR";
     mode := "Add";
     curve := Some [mkKey 0 0; mkKey 1 1] |};
  {| name := "CheekBlowL_CheekBlowR";
     source := ["CTRL_expressions_mouthCheekBlowL"; "CTRL_expressions_mouthCheekBlowR"];
     target := "C_CheekBlowL_CheekBlowR";
     mode := "Add";
     curve := Some [mkKey 0 0; mkKey 1 1] |};
  {| name := "CheekRaiseL_MouthCornerPullL";
     source := ["CTRL_expressions_eyeCheekRaiseL"; "CTRL_expressions_mouthCornerPullL"];
     target := "C_CheekRaiseL_CornerPullL";
     mode := "Add";
     curve := Some [mkKey 0 0; mkKey 1 1] |};
  {| name := "CheekRaiseR_MouthCornerPullR";
     source := ["CTRL_expressions_eyeCheekRaiseR"; "CTRL_expressions_mouthCornerPullR"];
     target := "C_CheekRaiseR_CornerPullR";
     mode := "Add";
     curve := Some [mkKey 0 0; mkKey 1 1] |};
  {| name := "WrinkleL_UpperLipRaiseL";
     source := ["CTRL_expressions_noseWrinkleL"; "CTRL_expressions_mouthUpperLipRaiseL"];
     target := "C_WrinkleL_UpperLipRaiseL";
     mode := "Add";
     curve := Some [mkKey 0 0; mkKey 1 1] |};
  {| name := "WrinkleR_UpperLipRaiseR";
     source := ["CTRL_expressions_noseWrinkleR"; "CTRL_expressions_mouthUpperLipRaiseR"];
     target := "C_WrinkleR_UpperLipRaiseR";
     mode := "Add";
     curve := Some [mkKey 0 0; mkKey 1 1] |};
  {| name := "WrinkleL_MouthCornerPullL";
     source := ["CTRL_expressions_noseWrinkleL"; "CTRL_expressions_mouthCornerPullL"];
     target := "C_WrinkleL_MouthCornerPullL";
     mode := "Add";
     curve := Some [mkKey 0 0; mkKey 1 1] |};
  {| name := "WrinkleR_MouthCornerPullR";
     source := ["CTRL_expressions_noseWrinkleR"; "CTRL_expressions_mouthCornerPullR"];
     target := "C_WrinkleR_MouthCornerPullR";
     mode := "Add";
     curve := Some [mkKey 0 0; mkKey 1 1] |};
  {| name := "CornerPullL_CornerPullR";
     source := ["CTRL_expressions_mouthCornerPullL"; "CTRL_expressions_mouthCornerPullR"];
     target := "C_CornerPullL_CornerPullR";
     mode := "Add";
     curve := Some [mkKey 0 0; mkKey 1 1] |};
  {| name := "CornerPullL_LowerLipDepressL";
     source := ["CTRL_expressions_mouthCornerPullL"; "CTRL_expressions_mouthLowerLipDepressL"];
     target := "C_CornerPullL_LowerLipDepressL";
     mode := "Add";
     curve := Some [mkKey 0 0; mkKey 1 1] |};
  {| name := "CornerPullR_LowerLipDepressR";
     source := ["CTRL_expressions_mouthCornerPullR"; "CTRL_expressions_mouthLowerLipDepressR"];
     target := "C_CornerPullR_LowerLipDepressR";
     mode := "Add";
     curve := Some [mkKey 0 0.009009; mkKey 1 1] |};
  {| name := "CornerPullL_UpperLipRaiseL";
     source := ["CTRL_expressions_mouthCornerPullL"; "CTRL_expressions_mouthUpperLipRaiseL"];
     target := "C_CornerPullL_UpperLipRaiseL";
     mode := "Add";
     curve := Some [mkKey 0 (-0.003497); mkKey 1 1] |};
  {| name := "CornerPullR_UpperLipRaiseR";
     source := ["CTRL_expressions_mouthCornerPullR"; "CTRL_expressions_mouthUpperLipRaiseR"];
     target := "C_CornerPullR_UpperLipRaiseR";
     mode := "Add";
     curve := Some [mkKey 0 (-0.003497); mkKey 1 1] |};
  {| name := "CornerPullL_StretchL";
     source := ["CTRL_expressions_mouthCornerPullL"; "CTRL_expressions_mouthStretchL"];
     target := "C_CornerPullL_StretchL";
     mode := "Add";
     curve := Some [mkKey 0 0; mkKey 1 1] |};
  {| name := "CornerPullR_StretchR";
     source := ["CTRL_expressions_mouthCornerPullR"; "CTRL_expressions_mouthStretchR"];
     target := "C_CornerPullR_StretchR";
     mode := "Add";
     curve := Some [mkKey 0 0; mkKey 1 1] |};
  {| name := "StretchL_CornerPullL_LowerLipDepressL";
     source := ["CTRL_expressions_mouthStretchL"; "CTRL_expressions_mouthCornerPullL"; "CTRL_expressions_mouthLowerLipDepressL"];
     target := "C_StretchL_CornerPullL_LowerLipDepressL";
     mode := "Add";
     curve := Some [mkKey 0 0; mkKey 1 1] |};
  {| name := "StretchR_CornerPullR_LowerLipDepressR";
     source := ["CTRL_expressions_mouthStretchR"; "CTRL_expressions_mouthCornerPullR"; "CTRL_expressions_mouthLowerLipDepressR"];
     target := "C_StretchR_CornerPullR_LowerLipDepressR";
     mode := "Add";
     curve := Some [mkKey 0 0; mkKey 1 1] |};
  {| name := "CornerPullL_DimpleL";
     source := ["CTRL_expressions_mouthCornerPullL"; "CTRL_expressions_mouthDimpleL"];
     target := "C_CornerPullL_DimpleL";
     mode := "Add";
     curve := Some [mkKey 0 0; mkKey 1 1] |};
  {| name := "CornerPullR_DimpleR";
     source := ["CTRL_expressions_mouthCornerPullR"; "CTRL_expressions_mouthDimpleR"];
     target := "C_CornerPullR_DimpleR";
     mode := "Add";
     curve := Some [mkKey 0 0; mkKey 1 1] |};
  {| name := "CornerPullL_SharpCornerPullL";
     source := ["CTRL_expressions_mouthCornerPullL"; "CTRL_expressions_mouthSharpCornerPullL"];
     target := "C_CornerPullL_SharpCornerPullL";
     mode := "Add";
     curve := Some [mkKey 0 0; mkKey 1 0.5] |};
  {| name := "CornerPullR_SharpCornerPullR";
     source := ["CTRL_expressions_mouthCornerPullR"; "CTRL_expressions_mouthSharpCornerPullR"];
     target := "C_CornerPullR_SharpCornerPullR";
     mode := "Add";
     curve := Some [mkKey 0 0; mkKey 1 0.5] |};
  {| name := "FunnelUL_CornerPullL";
     source := ["CTRL_expressions_mouthCornerPullL"; "CTRL_expressions_mouthFunnelUL"];
     target := "C_FunnelUL_CornerPullL";
     mode := "Add";
     curve := Some [mkKey 0 0; mkKey 1 1] |};
  {| name := "FunnelUR_CornerPullR";
     source := ["CTRL_expressions_mouthCornerPullR"; "CTRL_expressions_mouthFunnelUR"];
     target := "C_FunnelUR_CornerPullR";
     mode := "Add";
     curve := Some [mkKey 0 0; mkKey 1 1] |};
  {| name := "FunnelDL_CornerPullL";
     source := ["CTRL_expressions_mouthCornerPullL"; "CTRL_expressions_mouthFunnelDL"];
     target := "C_FunnelDL_CornerPullL";
     mode := "Add";
     curve := Some [mkKey 0 0; mkKey 1 1] |};
  {| name := "FunnelDR_CornerPullR";
     source := ["CTRL_expressions_mouthCornerPullR"; "CTRL_expressions_mouthFunnelDR"];
     target := "C_FunnelDR_CornerPullR";
     mode := "Add";
     curve := Some [mkKey 0 0; mkKey 1 1] |};
  {| name := "LipsPurseUL_CornerPullL";
     source := ["CTRL_expressions_mouthCornerPullL"; "CTRL_expressions_mouthLipsPurseUL"];
     target := "C_LipsPurseUL_CornerPullL";
     mode := "Add";
     curve := Some [mkKey 0 0; mkKey 1 1] |};
  {| name := "LipsPurseUR_CornerPullR";
     source := ["CTRL_expressions_mouthCornerPullR"; "CTRL_expressions_mouthLipsPurseUR"];
     target := "C_LipsPurseUR_CornerPullR";
     mode := "Add";
     curve := Some [mkKey 0 0; mkKey 1 1] |};
  {| name := "LipsPurseDL_CornerPullL";
     source := ["CTRL_expressions_mouthCornerPullL"; "CTRL_expressions_mouthLipsPurseDL"];
     target := "C_LipsPurseDL_CornerPullL";
     mode := "Add";
     curve := Some [mkKey 0 0; mkKey 1 1] |};
  {| name := "LipsPurseDR_CornerPullR";
     source := ["CTRL_expressions_mouthCornerPullR"; "CTRL_expressions_mouthLipsPurseDR"];
     target := "C_LipsPurseDR_CornerPullR";
     mode := "Add";
     curve := Some [mkKey 0 0; mkKey 1 1] |};
  {| name := "FunnelUL_LipsPurseUL_CornerPullL";
     source := ["CTRL_expressions_mouthCornerPullL"; "CTRL_expressions_mouthLipsPurseUL"; "CTRL_expressions_mouthFunnelUL"];
     target := "C_FunnelUL_LipsPurseUL_CornerPullL";
     mode := "Add";
     curve := Some [mkKey 0 0; mkKey 1 1] |};
  {| name := "FunnelUR_LipsPurseUR_CornerPullR";
     source := ["CTRL_expressions_mouthCornerPullR"; "CTRL_expressions_mouthLipsPurseUR"; "CTRL_expressions_mouthFunnelUR"];
     target := "C_FunnelUR_LipsPurseUR_CornerPullR";
     mode := "Add";
     curve := Some [mkKey 0 0; mkKey 1 1] |};
  {| name := "FunnelDL_LipsPurseDL_CornerPullL";
     source := ["CTRL_expressions_mouthCornerPullL"; "CTRL_expressions_mouthLipsPurseDL"; "CTRL_expressions_mouthFunnelDL"];
     target := "C_FunnelDL_LipsPurseDL_CornerPullL";
     mode := "Add";
     curve := Some [mkKey 0 0; mkKey 1 1] |};
  {| name := "FunnelDR_LipsPurseDR_CornerPullR";
     source := ["CTRL_expressions_mouthCornerPullR"; "CTRL_expressions_mouthLipsPurseDR"; "CTRL_expressions_mouthFunnelDR"];
     target := "C_FunnelDR_LipsPurseDR_CornerPullR";
     mode := "Add";
     curve := Some [mkKey 0 0; mkKey 1 1] |};
  {| name := "LipsPurseUL_FunnelUL";
     source := ["CTRL_expressions_mouthLipsPurseUL"; "CTRL_expressions_mouthFunnelUL"];
     target := "C_LipsPurseUL_FunnelUL";
     mode := "Add";
     curve := Some [mkKey 0 0; mkKey 1 1] |};
  {| name := "LipsPurseUR_FunnelUR";
     source := ["CTRL_expressions_mouthLipsPurseUR"; "CTRL_expressions_mouthFunnelUR"];
     target := "C_LipsPurseUR_FunnelUR";
     mode := "Add";
     curve := Some [mkKey 0 0; mkKey 1 1] |};
  {| name := "LipsPurseDL_FunnelDL";
     source := ["CTRL_expressions_mouthLipsPurseDL"; "CTRL_expressions_mouthFunnelDL"];
     target := "C_LipsPurseDL_FunnelDL";
     mode := "Add";
     curve := Some [mkKey 0 0; mkKey 1 1] |};
  {| name := "LipsPurseDR_FunnelDR";
     source := ["CTRL_expressions_mouthLipsPurseDR"; "CTRL_expressions_mouthFunnelDR"];
     target := "C_LipsPurseDR_FunnelDR";
     mode := "Add";
     curve := Some [mkKey 0 0; mkKey 1 1] |};
  {| name := "FunnelUL_ChinRaiseUL";
     source := ["CTRL_expressions_mouthFunnelUL"; "CTRL_expressions_jawChinRaiseUL"];
     target := "C_FunnelUL_ChinRaiseUL";
     mode := "Add";
     curve := Some [mkKey 0 0; mkKey 1 1] |};
  {| name := "FunnelUR_ChinRaiseUR";
     source := ["CTRL_expressions_mouthFunnelUR"; "CTRL_expressions_jawChinRaiseUR"];
     target := "C_FunnelUR_ChinRaiseUR";
     mode := "Add";
     curve := Some [mkKey 0 0; mkKey 1 1] |};
  {| name := "LipsPurseUL_LipsTowardsUL";
     source := ["CTRL_expressions_mouthLipsPurseUL"; "CTRL_expressions_mouthLipsTowardsUL"];
     target := "C_LipsPurseUL_LipsTowardsUL";
     mode := "Add";
     curve := Some [mkKey 0 0; mkKey 1 1] |};
  {| name := "LipsPurseUR_LipsTowardsUR";
     source := ["CTRL_expressions_mouthLipsPurseUR"; "CTRL_expressions_mouthLipsTowardsUR"];
     target := "C_LipsPurseUR_LipsTowardsUR";
     mode := "Add";
     curve := Some [mkKey 0 0; mkKey 1 1] |};
  {| name := "LipsPurseDL_LipsTowardsDL";
     source := ["CTRL_expressions_mouthLipsPurseDL"; "CTRL_expressions_mouthLipsTowardsDL"];
     target := "C_LipsPurseDL_LipsTowardsDL";
     mode := "Add";
     curve := Some [mkKey 0 0; mkKey 1 1] |};
  {| name := "LipsPurseDR_LipsTowardsDR";
     source := ["CTRL_expressions_mouthLipsPurseDR"; "CTRL_expressions_mouthLipsTowardsDR"];
     target := "C_LipsPurseDR_LipsTowardsDR";
     mode := "Add";
     curve := Some [mkKey 0 0; mkKey 1 1] |};
  {| name := "LipsPurseUL_LipsTowardsUL_FunnelUL";
     source := ["CTRL_expressions_mouthLipsPurseUL"; "CTRL_expressions_mouthLipsTowardsUL"; "CTRL_expressions_mouthFunnelUL"];
     target := "C_LipsPurseUL_LipsTowardsUL_FunnelUL";
     mode := "Add";
     curve := Some [mkKey 0 0; mkKey 1 1] |};
  {| name := "LipsPurseUR_LipsTowardsUR_FunnelUR";
     source := ["CTRL_expressions_mouthLipsPurseUR"; "CTRL_expressions_mouthLipsTowardsUR"; "CTRL_expressions_mouthFunnelUR"];
     target := "C_LipsPurseUR_LipsTowardsUR_FunnelUR";
     mode := "Add";
     curve := Some [mkKey 0 0; mkKey 1 1] |};
  {| name := "LipsPurseDL_LipsTowardsDL_FunnelDL";
     source := ["CTRL_expressions_mouthLipsPurseDL"; "CTRL_expressions_mouthLipsTowardsDL"; "CTRL_expressions_mouthFunnelDL"];
     target := "C_LipsPurseDL_LipsTowardsDL_FunnelDL";
     mode := "Add";
     curve := Some [mkKey 0 0; mkKey 1 1] |};
  {| name := "LipsPurseDR_LipsTowardsDR_FunnelDR";
     source := ["CTRL_expressions_mouthLipsPurseDR"; "CTRL_expressions_mouthLipsTowardsDR"; "CTRL_expressions_mouthFunnelDR"];
     target := "C_LipsPurseDR_LipsTowardsDR_FunnelDR";
     mode := "Add";
     curve := Some [mkKey 0 0; mkKey 1 1] |};
  {| name := "LipsPurseUL_LipsTogetherUL";
     source := ["CTRL_expressions_mouthLipsPurseUL"; "CTRL_expressions_mouthLipsTogetherUL"];
     target := "C_LipsPurseUL_LipsTogetherUL";
     mode := "Add";
     curve := Some [mkKey 0 0; mkKey 1 0.5] |};
  {| name := "LipsPurseUR_LipsTogetherUR";
     source := ["CTRL_expressions_mouthLipsPurseUR"; "CTRL_expressions_mouthLipsTogetherUR"];
     target := "C_LipsPurseUR_LipsTogetherUR";
     mode := "Add";
     curve := Some [mkKey 0 0; mkKey 1 0.5] |};
  {| name := "LipsPurseDL_LipsTogetherDL";
     source := ["CTRL_expressions_mouthLipsPurseDL"; "CTRL_expressions_mouthLipsTogetherDL"];
     target := "C_LipsPurseDL_LipsTogetherDL";
     mode := "Add";
     curve := Some [mkKey 0 0; mkKey 1 0.5] |};
  {| name := "LipsPurseDR_LipsTogetherDR";
     source := ["CTRL_expressions_mouthLipsPurseDR"; "CTRL_expressions_mouthLipsTogetherDR"];
     target := "C_LipsPurseDR_LipsTogetherDR";
     mode := "Add";
     curve := Some [mkKey 0 0; mkKey 1 0.5] |};
  {| name := "FunnelUL_UpperLipRaiseL";
     source := ["CTRL_expressions_mouthFunnelUL"; "CTRL_expressions_mouthUpperLipRaiseL"];
     target := "C_FunnelUL_UpperLipRaiseL";
     mode := "Add";
     curve := Some [mkKey 0 0; mkKey 1 0.5] |};
  {| name := "FunnelUR_UpperLipRaiseR";
     source := ["CTRL_expressions_mouthFunnelUR"; "CTRL_expressions_mouthUpperLipRaiseR"];
     target := "C_FunnelUR_UpperLipRaiseR";
     mode := "Add";
     curve := Some [mkKey 0 0; mkKey 1 0.5] |};
  {| name := "FunnelDL_LowerLipDepressL";
     source := ["CTRL_expressions_mouthFunnelDL"; "CTRL_expressions_mouthLowerLipDepressL"];
     target := "C_FunnelDL_LowerLipDepressL";
     mode := "Add";
     curve := Some [mkKey 0 0; mkKey 1 0.5] |};
  {| name := "FunnelDR_LowerLipDepressR";
     source := ["CTRL_expressions_mouthFunnelDR"; "CTRL_expressions_mouthLowerLipDepressR"];
     target := "C_FunnelDR_LowerLipDepressR";
     mode := "Add";
     curve := Some [mkKey 0 0; mkKey 1 0.5] |};
  {| name := "FunnelUL_LipsTowardsUL";
     source := ["CTRL_expressions_mouthFunnelUL"; "CTRL_expressions_mouthLipsTowardsUL"];
     target := "C_FunnelUL_LipsTowardsUL";
     mode := "Add";
     curve := Some [mkKey 0 0; mkKey 1 1] |};
  {| name := "FunnelUR_LipsTowardsUR";
     source := ["CTRL_expressions_mouthFunnelUR"; "CTRL_expressions_mouthLipsTowardsUR"];
     target := "C_FunnelUR_LipsTowardsUR";
     mode := "Add";
     curve := Some [mkKey 0 0; mkKey 1 1] |};
  {| name := "FunnelDL_LipsTowardsDL";
     source := ["CTRL_expressions_mouthFunnelDL"; "CTRL_expressions_mouthLipsTowardsDL"];
     target := "C_FunnelDL_LipsTowardsDL";
     mode := "Add";
     curve := Some [mkKey 0 0; mkKey 1 1] |};
  {| name := "FunnelDR_LipsTowardsDR";
     source := ["CTRL_expressions_mouthFunnelDR"; "CTRL_expressions_mouthLipsTowardsDR"];
     target := "C_FunnelDR_LipsTowardsDR";
     mode := "Add";
     curve := Some [mkKey 0 0; mkKey 1 1] |};
  {| name := "StretchL_LowerLipDepressL";
     source := ["CTRL_expressions_mouthStretchL"; "CTRL_expressions_mouthLowerLipDepressL"];
     target := "C_StretchL_LowerLipDepressL";
     mode := "Add";
     curve := Some [mkKey 0 0; mkKey 1 1] |};
  {| name := "StretchR_LowerLipDepressR";
     source := ["CTRL_expressions_mouthStretchR"; "CTRL_expressions_mouthLowerLipDepressR"];
     target := "C_StretchR_LowerLipDepressR";
     mode := "Add";
     curve := Some [mkKey 0 0; mkKey 1 1] |};
  {| name := "StretchL_StretchR";
     source := ["CTRL_expressions_mouthStretchL"; "CTRL_expressions_mouthStretchR"];
     target := "C_StretchL_StretchR";
     mode := "Add";
     curve := Some [mkKey 0 0; mkKey 1 1] |};
  {| name := "StretchL_LowerLipBite_L";
     source := ["CTRL_expressions_mouthStretchL"; "CTRL_expressions_mouthLowerLipBiteL"];
     target := "C_StretchL_LowerLipBite_L";
     mode := "Add";
     curve := Some [mkKey 0 (-0.003497); mkKey 1 1] |};
  {| name := "StretchR_LowerLipBite_R";
     source := ["CTRL_expressions_mouthStretchR"; "CTRL_expressions_mouthLowerLipBiteR"];
     target := "C_StretchR_LowerLipBite_R";
     mode := "Add";
     curve := Some [mkKey 0 (-0.003497); mkKey 1 1] |};
  {| name := "CornerPullL_JawOpen";
     source := ["CTRL_expressions_jawOpen"; "CTRL_expressions_mouthCornerPullL"];
     target := "C_CornerPullL_JawOpen";
     mode := "Add";
     curve := Some [mkKey 0 0; mkKey 1 1] |};
  {| name := "CornerPullR_JawOpen";
     source := ["CTRL_expressions_jawOpen"; "CTRL_expressions_mouthCornerPullR"];
     target := "C_CornerPullR_JawOpen";
     mode := "Add";
     curve := Some [mkKey 0 0; mkKey 1 1] |};
  {| name := "CornerPullL_JawOpen_LowerLipDepressL";
     source := ["CTRL_expressions_mouthCornerPullL"; "CTRL_expressions_jawOpen"; "CTRL_expressions_mouthLowerLipDepressL"];
     target := "C_CornerPullL_JawOpen_LowerLipDepressL";
     mode := "Add";
     curve := Some [mkKey 0 0; mkKey 1 1] |};
  {| name := "CornerPullR_JawOpen_LowerLipDepressR";
     source := ["CTRL_expressions_mouthCornerPullR"; "CTRL_expressions_jawOpen"; "CTRL_expressions_mouthLowerLipDepressR"];
     target := "C_CornerPullR_JawOpen_LowerLipDepressR";
     mode := "Add";
     curve := Some [mkKey 0 0; mkKey 1 1] |};
  {| name := "LipsPurseDL_JawOpen";
     source := ["CTRL_expressions_mouthLipsPurseDL"; "CTRL_expressions_jawOpen"];
     target := "C_LipsPurseDL_JawOpen";
     mode := "Add";
     curve := Some [mkKey 0 0; mkKey 1 0.5] |};
  {| name := "LipsPurseDR_JawOpen";
     source := ["CTRL_expressions_mouthLipsPurseDR"; "CTRL_expressions_jawOpen"];
     target := "C_LipsPurseDR_JawOpen";
     mode := "Add";
     curve := Some [mkKey 0 0; mkKey 1 0.5] |};
  {| name := "LipsPurseUL_JawOpen";
     source := ["CTRL_expressions_mouthLipsPurseUL"; "CTRL_expressions_jawOpen"];
     target := "C_LipsPurseUL_JawOpen";
     mode := "Add";
     curve := Some [mkKey 0 0; mkKey 1 0.5] |};
  {| name := "LipsPurseUR_JawOpen";
     source := ["CTRL_expressions_mouthLipsPurseUR"; "CTRL_expressions_jawOpen"];
     target := "C_LipsPurseUR_JawOpen";
     mode := "Add";
     curve := Some [mkKey 0 0; mkKey 1 0.5] |};
  {| name := "StretchL_LowerLipDepressL_JawOpen";
     source := ["CTRL_expressions_mouthStretchL"; "CTRL_expressions_mouthLowerLipDepressL"; "CTRL_expressions_jawOpen"];
     target := "C_StretchL_LowerLipDepressL_JawOpen";
     mode := "Add";
     curve := Some [mkKey 0 0; mkKey 1 1] |};
  {| name := "StretchR_LowerLipDepressR_JawOpen";
     source := ["CTRL_expressions_mouthStretchR"; "CTRL_expressions_mouthLowerLipDepressR"; "CTRL_expressions_jawOpen"];
     target := "C_StretchR_LowerLipDepressR_JawOpen";
     mode := "Add";
     curve := Some [mkKey 0 0; mkKey 1 1] |};
  {| name := "StretchL_JawOpen";
     source := ["CTRL_expressions_mouthStretchL"; "CTRL_expressions_jawOpen"];
     target := "C_StretchL_JawOpen";
     mode := "Add";
     curve := Some [mkKey 0 0; mkKey 1 1] |};
  {| name := "StretchR_JawOpen";
     source := ["CTRL_expressions_mouthStretchR"; "CTRL_expressions_jawOpen"];
     target := "C_StretchR_JawOpen";
     mode := "Add";
     curve := Some [mkKey 0 0; mkKey 1 1] |};
  {| name := "LowerLipDepressL_LowerLipDepressR";
     source := ["CTRL_expressions_mouthLowerLipDepressL"; "CTRL_expressions_mouthLowerLipDepressR"];
     target := "C_LowerLipDepressL_LowerLipDepressR";
     mode := "Add";
     curve := Some [mkKey 0 0; mkKey 1 1] |};
  {| name := "UpperLipRaiseL_UpperLipRaiseR";
     source := ["CTRL_expressions_mouthUpperLipRaiseL"; "CTRL_expressions_mouthUpperLipRaiseR"];
     target := "C_UpperLipRaiseL_UpperLipRaiseR";
     mode := "Add";
     curve := Some [mkKey 0 0; mkKey 1 1] |};
  {| name := "CornerPullL_StretchL_JawOpen";
     source := ["CTRL_expressions_mouthCornerPullL"; "CTRL_expressions_mouthStretchL"; "CTRL_expressions_jawOpen"];
     target := "C_CornerPullL_StretchL_JawOpen";
     mode := "Add";
     curve := Some [mkKey 0 0; mkKey 1 1] |};
  {| name := "CornerPullR_StretchR_JawOpen";
     source := ["CTRL_expressions_mouthCornerPullR"; "CTRL_expressions_mouthStretchR"; "CTRL_expressions_jawOpen"];
     target := "C_CornerPullR_StretchR_JawOpen";
     mode := "Add";
     curve := Some [mkKey 0 0; mkKey 1 1] |};
  {| name := "CornerPullRL_StretchRL_JawOpen";
     source := ["CTRL_expressions_mouthCornerPullR"; "CTRL_expressions_mouthStretchR"; "CTRL_expressions_jawOpen"; "CTRL_expressions_mouthStretchL"; "CTRL_expressions_mouthCornerPullL"];
     target := "C_CornerPullRL_StretchRL_JawOpen";
     mode := "Add";
     curve := Some [mkKey 0 0; mkKey 1 1] |};
  {| name := "CornerPullRL_StretchRL_JawOpen_LowerLipDepressRL";
     source := ["CTRL_expressions_mouthCornerPullR"; "CTRL_expressions_mouthStretchR"; "CTRL_expressions_jawOpen"; "CTRL_expressions_mouthStretchL"; "CTRL_expressions_mouthCornerPullL"; "CTRL_expressions_mouthLowerLipDepressL"; "CTRL_expressions_mouthLowerLipDepressR"];
     target := "C_CornerPullRL_StretchRL_JawOpen_LowerLipDepressRL";
     mode := "Add";
     curve := Some [mkKey 0 0; mkKey 1 1] |};
  {| name := "UpperLipBiteL_JawOpen";
     source := ["CTRL_expressions_mouthUpperLipBiteL"; "CTRL_expressions_jawOpen"];
     target := "C_UpperLipBiteL_JawOpen";
     mode := "Add";
     curve := Some [mkKey 0 0; mkKey 1 1] |};
  {| name := "UpperLipBiteR_JawOpen";
     source := ["CTRL_expressions_mouthUpperLipBiteR"; "CTRL_expressions_jawOpen"];
     target := "C_UpperLipBiteR_JawOpen";
     mode := "Add";
     curve := Some [mkKey 0 0; mkKey 1 1] |};
  {| name := "LowerLipBiteL_JawOpen";
     source := ["CTRL_expressions_mouthLowerLipBiteL"; "CTRL_expressions_jawOpen"];
     target := "C_LowerLipBiteL_JawOpen";
     mode := "Add";
     curve := Some [mkKey 0 0; mkKey 1 1] |};
  {| name := "LowerLipBiteR_JawOpen";
     source := ["CTRL_expressions_mouthLowerLipBiteR"; "CTRL_expressions_jawOpen"];
     target := "C_LowerLipBiteR_JawOpen";
     mode := "Add";
     curve := Some [mkKey 0 0; mkKey 1 1] |};
  {| name := "PressUL_JawOpen";
     source := ["CTRL_expressions_mouthPressUL"; "CTRL_expressions_jawOpen"];
     target := "C_PressUL_JawOpen";
     mode := "Add";
     curve := Some [mkKey 0 0; mkKey 1 0.5] |};
  {| name := "PressUR_JawOpen";
     source := ["CTRL_expressions_mouthPressUR"; "CTRL_expressions_jawOpen"];
     target := "C_PressUR_JawOpen";
     mode := "Add";
     curve := Some [mkKey 0 0; mkKey 1 0.5] |};
  {| name := "PressDL_JawOpen";
     source := ["CTRL_expressions_mouthPressDL"; "CTRL_expressions_jawOpen"];
     target := "C_PressDL_JawOpen";
     mode := "Add";
     curve := Some [mkKey 0 0; mkKey 1 0.5] |};
  {| name := "PressDR_JawOpen";
     source := ["CTRL_expressions_mouthPressDR"; "CTRL_expressions_jawOpen"];
     target := "C_PressDR_JawOpen";
     mode := "Add";
     curve := Some [mkKey 0 0; mkKey 1 0.5] |};
  {| name := "DimpleL_UpperLipRaiseL";
     source := ["CTRL_expressions_mouthDimpleL"; "CTRL_expressions_mouthUpperLipRaiseL"];
     target := "C_DimpleL_UpperLipRaiseL";
     mode := "Add";
     curve := Some [mkKey 0 (-0.003497); mkKey 1 1] |};
  {| name := "DimpleR_UpperLipRaiseR";
     source := ["CTRL_expressions_mouthDimpleR"; "CTRL_expressions_mouthUpperLipRaiseR"];
     target := "C_DimpleR_UpperLipRaiseR";
     mode := "Add";
     curve := Some [mkKey 0 (-0.003497); mkKey 1 1] |};
  {| name := "DimpleL_LowerLipDepressL";
     source := ["CTRL_expressions_mouthDimpleL"; "CTRL_expressions_mouthLowerLipDepressL"];
     target := "C_DimpleL_LowerLipDepressL";
     mode := "Add";
     curve := Some [mkKey 0 0; mkKey 1 1] |};
  {| name := "DimpleR_LowerLipDepressR";
     source := ["CTRL_expressions_mouthDimpleR"; "CTRL_expressions_mouthLowerLipDepressR"];
     target := "C_DimpleR_LowerLipDepressR";
     mode := "Add";
     curve := Some [mkKey 0 0; mkKey 1 1] |};
  {| name := "DimpleL_JawOpen";
     source := ["CTRL_expressions_jawOpen"; "CTRL_expressions_mouthDimpleL"];
     target := "C_DimpleL_JawOpen";
     mode := "Add";
     curve := Some [mkKey 0 0; mkKey 1 1] |};
  {| name := "DimpleR_JawOpen";
     source := ["CTRL_expressions_jawOpen"; "CTRL_expressions_mouthDimpleR"];
     target := "C_DimpleR_JawOpen";
     mode := "Add";
     curve := Some [mkKey 0 0; mkKey 1 1] |};
  {| name := "EyeLidPress_Blink_L";
     source := ["CTRL_expressions_eyeBlinkL"];
     target := "CTRL_expressions_eyeLidPressL";
     mode := "Limit";
     curve := Some [mkKey 0 0; mkKey 1 1] |};
  {| name := "EyeLidPress_Blink_R";
     source := ["CTRL_expressions_eyeBlinkR"];
     target := "CTRL_expressions_eyeLidPressR";
     mode := "Limit";
     curve := Some [mkKey 0 0; mkKey 1 1] |};
  {| name := "NoseWinkleUpper_L";
     source := ["CTRL_expressions_noseWrinkleL"];
     target := "CTRL_expressions_noseWrinkleUpperL";
     mode := "Limit";
     curve := Some [mkKey 0 0; mkKey 1 1] |};
  {| name := "NoseWinkleUpper_R";
     source := ["CTRL_expressions_noseWrinkleR"];
     target := "CTRL_expressions_noseWrinkleUpperR";
     mode := "Limit";
     curve := Some [mkKey 0 0; mkKey 1 1] |};
  {| name := "MouthStretchLipClose_Stretch_L";
     source := ["CTRL_expressions_mouthStretchL"];
     target := "CTRL_expressions_mouthStretchLipsCloseL";
     mode := "Limit";
     curve := Some [mkKey 0 0; mkKey 1 1] |};
  {| name := "MouthStretchLipClose_Stretch_R";
     source := ["CTRL_expressions_mouthStretchR"];
     target := "CTRL_expressions_mouthStretchLipsCloseR";
     mode := "Limit";
     curve := Some [mkKey 0 0; mkKey 1 1] |};
  {| name := "JawOpenExtreme_JawOpen";
     source := ["CTRL_expressions_jawOpen"];
     target := "CTRL_expressions_jawOpenExtreme";
     mode := "Limit";
     curve := Some [mkKey 0 0; mkKey 1 1] |};
  {| name := "MouthLipsTogetherUL_JawOpen";
     source := ["CTRL_expressions_jawOpen"];
     target := "CTRL_expressions_mouthLipsTogetherUL";
     mode := "Limit";
     curve := Some [mkKey 0 0; mkKey 1 1] |};
  {| name := "MouthLipsTogetherUR_JawOpen";
     source := ["CTRL_expressions_jawOpen"];
     target := "CTRL_expressions_mouthLipsTogetherUR";
     mode := "Limit";
     curve := Some [mkKey 0 0; mkKey 1 1] |};
  {| name := "MouthLipsTogetherDL_JawOpen";
     source := ["CTRL_expressions_jawOpen"];
     target := "CTRL_expressions_mouthLipsTogetherDL";
     mode := "Limit";
     curve := Some [mkKey 0 0; mkKey 1 1] |};
  {| name := "MouthLipsTogetherDR_JawOpen";
     source := ["CTRL_expressions_jawOpen"];
     target := "CTRL_expressions_mouthLipsTogetherDR";
     mode := "Limit";
     curve := Some [mkKey 0 0; mkKey 1 1] |}
].

(** [metahumanBlendshapes[sourceKey] || 0]. *)
Definition sourceValue (metahumanBlendshapes : gmap string Q) (sourceKey : string) : Q :=
  default 0 (metahumanBlendshapes !! sourceKey).

(** Add mode: [source.reduce((product, k) => product * (bs[k] || 0), 1)]. *)
Definition addValue (bs : gmap string Q) (src : list string) : Q :=
  fold_left (fun product sourceKey => product * sourceValue bs sourceKey) src 1.

(** Limit mode.  [source[0]] of an empty list is [undefined], and
    [bs[undefined]] reads the property named "undefined". *)
Definition limitValue (bs : gmap string Q) (src : list string) : Q :=
  let limit := sourceValue bs (List.hd "undefined" src) in
  if (List.length src =? 1)%nat then limit
  else
    fold_left
      (fun product sourceKey => product * Qmin limit (sourceValue bs sourceKey))
      (List.tl src) 1.

(** The combined value of one rule before curve evaluation. *)
Definition combinedValue (bs : gmap string Q) (m : MappingRule) : Q :=
  if String.eqb (mode m) "Add" then addValue bs (source m)
  else if String.eqb (mode m) "Limit" then limitValue bs (source m)
  else 0.

(** [if (curve && curve.length > 0) value = evaluateCurve(curve, value)]. *)
Definition hasCurve (c : option (list Key)) : bool :=
  match c with
  | Some (_ :: _) => true
  | _ => false
  end.

(** The value one rule contributes to its target. *)
Definition ruleValue (bs : gmap string Q) (m : MappingRule) : Q :=
  let v := combinedValue bs m in
  if hasCurve (curve m) then evaluateCurve (curve m) v else v.

(** Body of [METAHUMAN_TO_CC5_MAPPING.forEach]: set, or multiply into,
    the target. *)
Definition applyRule (bs : gmap string Q) (cc5 : gmap string Q) (m : MappingRule)
  : gmap string Q :=
  let v := ruleValue bs m in
  match cc5 !! target m with
  | Some old => <[target m := old * v]> cc5
  | None => <[target m := v]> cc5
  end.

(** The mapping pass over a rule table, starting from the empty object. *)
Definition mappingPass (rules : list MappingRule) (bs : gmap string Q) : gmap string Q :=
  fold_left (applyRule bs) rules ∅.

Definition teethCorrectives : list string :=
  ["C_FunnelDL_LowerLipDepressL"; "C_FunnelDR_LowerLipDepressR"].

(** Body of [teethCorrectives.forEach]. *)
Definition applyTeethOffset (teethDownOffset : Q) (cc5 : gmap string Q) (t : string)
  : gmap string Q :=
  match cc5 !! t with
  | Some v => <[t := Qmin 1 (v + teethDownOffset)]> cc5
  | None => <[t := teethDownOffset]> cc5
  end.

(** The [options] argument; a missing [teethDownOffset] is [None]. *)
Record Options : Type := mkOptions { optTeethDownOffset : option Q }.

Definition noOptions : Options := mkOptions None.

(** [const { teethDownOffset = 0 } = options]. *)
Definition teethDownOffsetOf (options : Options) : Q :=
  default 0 (optTeethDownOffset options).

(** convertMetaHumanToCC5 over an arbitrary rule table. *)
Definition convertWith (rules : list MappingRule) (bs : gmap string Q) (options : Options)
  : gmap string Q :=
  fold_left (applyTeethOffset (teethDownOffsetOf options)) teethCorrectives
            (mappingPass rules bs).

(** [convertMetaHumanToCC5(metahumanBlendshapes, options = {})]. *)
Definition convertMetaHumanToCC5 (bs : gmap string Q) (options : Options) : gmap string Q :=
  convertWith METAHUMAN_TO_CC5_MAPPING bs options.

(** The per-rule results written to one target, in table order. *)
Definition contributions (rules : list MappingRule) (bs : gmap string Q) (t : string)
  : list Q :=
  List.map (ruleValue bs) (List.filter (fun m => String.eqb (target m) t) rules).

(** First writer sets the value, later writers multiply in. *)
Definition productOf (results : list Q) : option Q :=
  match results with
  | [] => None
  | first :: rest => Some (fold_left Qmult rest first)
  end.

(** The six targets whose curve starts below zero. *)
Definition offsetCurveTargets : list string :=
  ["C_CornerPullL_UpperLipRaiseL"; "C_CornerPullR_UpperLipRaiseR";
   "C_StretchL_LowerLipBite_L"; "C_StretchR_LowerLipBite_R";
   "C_DimpleL_UpperLipRaiseL"; "C_DimpleR_UpperLipRaiseR"].

(** All key values of a rule's curve lie in [[lo, hi]]. *)
Definition curveWithin (lo hi : Q) (m : MappingRule) : bool :=
  match curve m with
  | Some ((_ :: _) as keys) =>
      forallb (fun k => Qle_bool lo (value k) && Qle_bool (value k) hi) keys
  | _ => false
  end.

(* ------------------------------------------------------------------ *)
(** ** Configuration constants (convaiConfig.js, lipsync hook)         *)
(* ------------------------------------------------------------------ *)

Definition TARGET_FPS : Q := 60.
Definition FRAME_OFFSET : Q := 15.

(** ANIMATION_CONFIG *)
Definition LIPSYNC_LERP_SPEED : Q := 0.8.
Definition JAW_LERP_SPEED : Q := 0.8.
Definition FADE_OUT_LERP_SPEED : Q := 0.2.
Definition LIPSYNC_FADE_IN_DURATION : Q := 0.3.

(** JAW_CONFIG *)
Definition CLOSED_ROTATION_DEG : Q := 90.0.
Definition MAX_OPEN_ROTATION_DEG : Q := 115.0.
Definition CLOSED_ROTATION : Q := 1.5708.
Definition MAX_OPEN_ROTATION : Q := 2.0071.
Definition ROTATION_RANGE : Q := 0.4363.

(* ------------------------------------------------------------------ *)
(** ** Channel smoother (applyMorphValueSmooth)                        *)
(* ------------------------------------------------------------------ *)

(** A morph-target slot [{influences, index}]: the influences array of a
    mesh (identified by a number) and an index into it. *)
Definition Slot : Type := (nat * nat)%type.

(** The mutable stores the smoother works on: [smoothedValues]
    (a [Map] name -> last emitted value) and the influences arrays of all
    meshes, addressed by slot. *)
Record MorphState : Type := mkMorphState {
  smoothedValues : gmap string Q;
  influences : gmap Slot Q
}.

(** [for (i...) targets[i].influences[targets[i].index] = newValue]. *)
Definition writeSlots (newValue : Q) (targets : list Slot) (infl : gmap Slot Q)
  : gmap Slot Q :=
  fold_left (fun acc t => <[t := newValue]> acc) targets infl.

(** [applyMorphValueSmooth(morphCache, smoothedValues, name, targetValue,
    lerpSpeed)]. *)
Definition applyMorphValueSmooth (morphCache : gmap string (list Slot))
    (st : MorphState) (nm : string) (targetValue lerpSpeed : Q) : MorphState :=
  match morphCache !! nm with
  | None => st
  | Some targets =>
      let currentValue := default 0 (smoothedValues st !! nm) in
      let newValue := currentValue + (targetValue - currentValue) * lerpSpeed in
      {| smoothedValues := <[nm := newValue]> (smoothedValues st);
         influences := writeSlots newValue targets (influences st) |}
  end.

(** The smoother called [n] times with the same arguments. *)
Fixpoint smoothRepeat (morphCache : gmap string (list Slot)) (st : MorphState)
    (nm : string) (targetValue lerpSpeed : Q) (n : nat) : MorphState :=
  match n with
  | O => st
  | S k =>
      applyMorphValueSmooth morphCache
        (smoothRepeat morphCache st nm targetValue lerpSpeed k)
        nm targetValue lerpSpeed
  end.

(** The value the smoother holds for a channel: [smoothedValues.get(name) || 0]. *)
Definition smoothedOf (st : MorphState) (nm : string) : Q :=
  default 0 (smoothedValues st !! nm).

(* ------------------------------------------------------------------ *)
(** ** Jaw resolver (jawValueToRotation, applyJawBoneSmooth)           *)
(* ------------------------------------------------------------------ *)

(** jawValueToRotation of the useMetahumanLipsync hook. *)
Definition jawValueToRotation (jawBaseRotationZ : option Q) (jawValue : Q) : Q :=
  let clampedValue := clamp01 jawValue in
  CLOSED_ROTATION + clampedValue * ROTATION_RANGE.

(** JAW_OPEN_CURVE and jawValueToRotation of the useArkitLipsync hook;
    its evaluateJawCurve is a verbatim copy of evaluateCurve. *)
Definition JAW_OPEN_CURVE : list Key := [mkKey 0 0; mkKey 1 1].

Definition evaluateJawCurve (keys : option (list Key)) (inputValue : Q) : Q :=
  evaluateCurve keys inputValue.

Definition jawValueToRotationEased (jawBaseRotationZ : option Q) (jawValue : Q) : Q :=
  let clampedValue := clamp01 jawValue in
  let easedValue := evaluateJawCurve (Some JAW_OPEN_CURVE) clampedValue in
  CLOSED_ROTATION + easedValue * ROTATION_RANGE.

(** The jaw bone and the rotation remembered for it:
    [jawBone.rotation.z] and [currentRotationRef.current]. *)
Record JawState : Type := mkJawState {
  jawRotationZ : Q;
  currentRotationRef : option Q
}.

(** [applyJawBoneSmooth] on a present jaw bone. *)
Definition applyJawBoneSmooth (jaw : JawState) (jawBaseRotationZ : option Q)
    (jawValue lerpSpeed : Q) : JawState :=
  let targetRotation := jawValueToRotation jawBaseRotationZ jawValue in
  let currentRotation := default (jawRotationZ jaw) (currentRotationRef jaw) in
  let newRotation := currentRotation + (targetRotation - currentRotation) * lerpSpeed in
  {| jawRotationZ := newRotation; currentRotationRef := Some newRotation |}.

(* ------------------------------------------------------------------ *)
(** ** MetaHuman-to-CC5 playback path (applyMetaHumanToCC5)            *)
(* ------------------------------------------------------------------ *)

(** [haystack.includes(needle)]. *)
Fixpoint includes (needle haystack : string) : bool :=
  if String.prefix needle haystack then true
  else
    match haystack with
    | EmptyString => false
    | String _ rest => includes needle rest
    end.

(** [x < y] on numbers. *)
Definition Qltb (x y : Q) : bool :=
  match (x ?= y)%Q with
  | Lt => true
  | _ => false
  end.

(** The control names dropped while the array frame is turned into a named
    object: blinks (automatic blinking) and eye looks (pupil tracking). *)
Definition isEyeControl (ctrlName : string) : bool :=
  existsb (String.eqb ctrlName)
    ["CTRL_expressions_eyeBlinkL"; "CTRL_expressions_eyeBlinkR";
     "CTRL_expressions_eyeLookDownL"; "CTRL_expressions_eyeLookDownR";
     "CTRL_expressions_eyeLookLeftL"; "CTRL_expressions_eyeLookLeftR";
     "CTRL_expressions_eyeLookRightL"; "CTRL_expressions_eyeLookRightR";
     "CTRL_expressions_eyeLookUpL"; "CTRL_expressions_eyeLookUpR"].

(** [METAHUMAN_ORDER_251.forEach((ctrlName, index) => ...)].  The order
    table comes from the SDK and is a parameter here. *)
Fixpoint buildBlendshapes (order : list string) (index : nat)
    (currentFrame : list Q) (fadeInWeight : Q) (bs : gmap string Q)
  : gmap string Q :=
  match order with
  | [] => bs
  | ctrlName :: rest =>
      let bs' :=
        match nth_error currentFrame index with
        | None => bs
        | Some v =>
            if Qeq_bool v 0 then bs
            else if isEyeControl ctrlName then bs
            else <[ctrlName := v * fadeInWeight]> bs
        end in
      buildBlendshapes rest (S index) currentFrame fadeInWeight bs'
  end.

(** The filter on converted channel names. *)
Definition isJawMorph (morphName : string) : bool :=
  includes "JawOpen" morphName || includes "Jaw_Open" morphName.

(** A slot that only jaw-named channels own in the morph cache. *)
Definition jawOnlySlot (morphCache : gmap string (list Slot)) (slot : Slot) : Prop :=
  forall (nm : string) (targets : list Slot),
    morphCache !! nm = Some targets -> slot ∈ targets -> isJawMorph nm = true.

(** Body of [for (const [morphName, value] of Object.entries(cc5Values))]. *)
Definition applyEntry (morphCache : gmap string (list Slot)) (lipsyncLerpSpeed : Q)
    (st : MorphState) (entry : string * Q) : MorphState :=
  let '(morphName, v) := entry in
  if isJawMorph morphName then st
  else
    let hasExistingValue := bool_decide (is_Some (smoothedValues st !! morphName)) in
    if Qltb v 0.001 && negb hasExistingValue then st
    else applyMorphValueSmooth morphCache st morphName v lipsyncLerpSpeed.

(** The same loop body without the jaw filter. *)
Definition applyEntryUnfiltered (morphCache : gmap string (list Slot))
    (lipsyncLerpSpeed : Q) (st : MorphState) (entry : string * Q) : MorphState :=
  let '(morphName, v) := entry in
  let hasExistingValue := bool_decide (is_Some (smoothedValues st !! morphName)) in
  if Qltb v 0.001 && negb hasExistingValue then st
  else applyMorphValueSmooth morphCache st morphName v lipsyncLerpSpeed.

(** The morph loop over the entries of the converted object. *)
Definition applyEntries (morphCache : gmap string (list Slot)) (lipsyncLerpSpeed : Q)
    (entries : list (string * Q)) (st : MorphState) : MorphState :=
  fold_left (applyEntry morphCache lipsyncLerpSpeed) entries st.

(** The jaw value fed to the bone: clamp to 0.7, subtract 0.1 from 0.3 on. *)
Definition metahumanJawValue (bs : gmap string Q) : Q :=
  let rawJawValue := Qmin (sourceValue bs "CTRL_expressions_jawOpen") 0.7 in
  if Qltb rawJawValue 0.3 then rawJawValue else rawJawValue - 0.1.

(** [applyMetaHumanToCC5]; [jawBone] is [None] when the rig has no jaw
    bone.  [Object.entries] is the map's list of entries. *)
Definition applyMetaHumanToCC5 (order : list string)
    (morphCache : gmap string (list Slot)) (st : MorphState)
    (currentFrame : list Q) (fadeInWeight : Q)
    (jawBone : option JawState) (jawBaseRotationZ : option Q)
    (lipsyncLerpSpeed jawLerpSpeed : Q) : MorphState * option JawState :=
  let metahumanBlendshapes := buildBlendshapes order 0 currentFrame fadeInWeight ∅ in
  let cc5Values := convertMetaHumanToCC5 metahumanBlendshapes noOptions in
  let st' := applyEntries morphCache lipsyncLerpSpeed (map_to_list cc5Values) st in
  let jawValue := metahumanJawValue metahumanBlendshapes in
  (st',
   option_map (fun jaw => applyJawBoneSmooth jaw jawBaseRotationZ jawValue jawLerpSpeed)
              jawBone).

(* ------------------------------------------------------------------ *)
(** ** Playback scheduler (useFrame callback of useMetahumanLipsync)   *)
(* ------------------------------------------------------------------ *)

Record PlaybackState : Type := mkPlayback {
  isPlaying : bool;
  startTime : Q;
  currentFrameIndex : Z;
  isDraining : bool;
  fadeInWeight : Q
}.

(** An animation frame as the queue may hold it: an array, a named
    object, or something that is neither (null, undefined, a primitive). *)
Inductive Frame : Type :=
| FrameArray (values : list Q)
| FrameObject (fields : gmap string Q)
| FrameOther.

(** [currentFrame && ((Array.isArray(f) && f.length > 0) ||
     (typeof f === "object" && Object.keys(f).length > 0))]. *)
Definition isValidFrame (f : Frame) : bool :=
  match f with
  | FrameArray values => (0 <? List.length values)%nat
  | FrameObject fields => (0 <? size fields)%nat
  | FrameOther => false
  end.

(** What one tick does besides updating the playback state. *)
Inductive TickAction : Type :=
| NoQueue                      (* queue missing: return *)
| FadeToNeutral                (* not playing: resetToNeutral at fade-out speed *)
| WaitForFrames                (* no frames, not draining: return *)
| StopOnEmptyQueue             (* no frames, draining: reset queue, resetToNeutral *)
| StopAtLastFrame              (* last frame reached while draining: reset queue *)
| SkipOutOfRange               (* index outside the buffer: return *)
| SkipInvalidFrame (frameIndex : Z)          (* console.warn, return *)
| ApplyFrame (frameIndex : Z) (currentFrame : Frame) (weight : Q).

(** The elapsed-time arithmetic of the tick. *)
Definition elapsedTimeSec (currentTime start : Q) : Q :=
  (currentTime - start) / 1000.

Definition targetFrameIndex (currentTime start : Q) : Z :=
  Qfloor (elapsedTimeSec currentTime start * TARGET_FPS + FRAME_OFFSET).

(** [Math.min(targetFrameIndex, frames.length - 1)]. *)
Definition frameIndexAt (currentTime start : Q) (framesLength : nat) : Z :=
  Z.min (targetFrameIndex currentTime start) (Z.of_nat framesLength - 1).

Definition stopPlayback (state : PlaybackState) : PlaybackState :=
  {| isPlaying := false;
     startTime := startTime state;
     currentFrameIndex := 0;
     isDraining := false;
     fadeInWeight := fadeInWeight state |}.

Definition setFadeInWeight (state : PlaybackState) (w : Q) : PlaybackState :=
  {| isPlaying := isPlaying state;
     startTime := startTime state;
     currentFrameIndex := currentFrameIndex state;
     isDraining := isDraining state;
     fadeInWeight := w |}.

Definition setCurrentFrameIndex (state : PlaybackState) (i : Z) : PlaybackState :=
  {| isPlaying := isPlaying state;
     startTime := startTime state;
     currentFrameIndex := i;
     isDraining := isDraining state;
     fadeInWeight := fadeInWeight state |}.

(** One render tick.  [queue] is [convaiClient?.blendshapeQueue] as its
    list of frames; the result is the new playback state, the queue after
    the tick ([queue.reset()] empties it) and the action taken.  The
    autonomous blinking that every tick performs first does not touch the
    playback state and is left out. *)
Definition tick (currentTime : Q) (queue : option (list Frame)) (state : PlaybackState)
  : PlaybackState * option (list Frame) * TickAction :=
  match queue with
  | None => (state, queue, NoQueue)
  | Some frames =>
      if negb (isPlaying state) then (state, queue, FadeToNeutral)
      else if (List.length frames =? 0)%nat then
        if isDraining state
        then (stopPlayback state, Some [], StopOnEmptyQueue)
        else (state, queue, WaitForFrames)
      else
        let elapsedSec := elapsedTimeSec currentTime (startTime state) in
        let state1 :=
          setFadeInWeight state (Qmin 1 (elapsedSec / LIPSYNC_FADE_IN_DURATION)) in
        let frameIndex := frameIndexAt currentTime (startTime state) (List.length frames) in
        if (Z.of_nat (List.length frames) - 1 <=? frameIndex)%Z && isDraining state1
        then (stopPlayback state1, Some [], StopAtLastFrame)
        else if (frameIndex <? 0)%Z || (Z.of_nat (List.length frames) <=? frameIndex)%Z
        then (state1, queue, SkipOutOfRange)
        else
          match nth_error frames (Z.to_nat frameIndex) with
          | Some currentFrame =>
              if isValidFrame currentFrame
              then (setCurrentFrameIndex state1 frameIndex, queue,
                    ApplyFrame frameIndex currentFrame (fadeInWeight state1))
              else (state1, queue, SkipInvalidFrame frameIndex)
          | None => (state1, queue, SkipInvalidFrame frameIndex)
          end
  end.

(* ------------------------------------------------------------------ *)
(** ** Event handlers of the lipsync hook                              *)
(* ------------------------------------------------------------------ *)

(** The assignments both start handlers make. *)
Definition beginPlayback (worldClockTime : Q) : PlaybackState :=
  {| isPlaying := true;
     startTime := worldClockTime;
     currentFrameIndex := 0;
     isDraining := false;
     fadeInWeight := 0 |}.

(** [handleBlendshapesAdded]; [conversationActive] is
    [queue?.isConversationActive()], [None] for a missing queue. *)
Definition handleBlendshapesAdded (conversationActive : option bool)
    (worldClockTime : Q) (state : PlaybackState) : PlaybackState :=
  if default false conversationActive && negb (isPlaying state)
  then beginPlayback worldClockTime
  else state.

(** The effect that runs when [convaiClient.state.isSpeaking] changes. *)
Definition onSpeakingChanged (isSpeaking : bool) (worldClockTime : Q)
    (state : PlaybackState) : PlaybackState :=
  if isSpeaking && negb (isPlaying state)
  then beginPlayback worldClockTime
  else state.

(** [handleStatsReceived]: [state.isDraining = true]. *)
Definition handleStatsReceived (state : PlaybackState) : PlaybackState :=
  {| isPlaying := isPlaying state;
     startTime := startTime state;
     currentFrameIndex := currentFrameIndex state;
     isDraining := true;
     fadeInWeight := fadeInWeight state |}.

(** A run of ticks without start events in between; each tick comes with
    its clock time and with what the queue holds at that moment. *)
Fixpoint runTicks (inputs : list (Q * option (list Frame))) (state : PlaybackState)
  : PlaybackState * list TickAction :=
  match inputs with
  | [] => (state, [])
  | (now, queue) :: rest =>
      let '(state1, _, action) := tick now queue state in
      let '(state2, actions) := runTicks rest state1 in
      (state2, action :: actions)
  end.

(** The ticks that stop playback. *)
Definition isStopAction (action : TickAction) : bool :=
  match action with
  | StopOnEmptyQueue | StopAtLastFrame => true
  | _ => false
  end.

(** An action of a tick that did nothing to playback. *)
Definition isIdleAction (action : TickAction) : Prop :=
  action = FadeToNeutral \/ action = NoQueue.

(* ------------------------------------------------------------------ *)
(** ** Introspection helpers of metahumanToCC5.js                      *)
(* ------------------------------------------------------------------ *)

(** The order of [Array.prototype.sort()] without a comparator, on
    channel names (ASCII): code-unit-wise lexicographic order.  The sorted
    result does not depend on the sorting algorithm. *)
Definition stringLe (s1 s2 : string) : Prop := String.leb s1 s2 = true.

#[global] Instance stringLe_dec (s1 s2 : string) : Decision (stringLe s1 s2).
Proof. unfold stringLe. apply _. Defined.

Definition sortStrings (names : list string) : list string :=
  merge_sort stringLe names.

(** [channels.add(channel)] on a [Set], kept in insertion order. *)
Definition setAdd (channels : list string) (channel : string) : list string :=
  if existsb (String.eqb channel) channels then channels
  else (channels ++ [channel])%list.

(** getMetaHumanChannelNames over a rule table. *)
Definition metaHumanChannelNamesOf (rules : list MappingRule) : list string :=
  let channels :=
    fold_left (fun channels m => fold_left setAdd (source m) channels) rules [] in
  sortStrings channels.

(** getCC5ChannelNames over a rule table. *)
Definition cc5ChannelNamesOf (rules : list MappingRule) : list string :=
  sortStrings (List.map target rules).

Definition getMetaHumanChannelNames : list string :=
  metaHumanChannelNamesOf METAHUMAN_TO_CC5_MAPPING.

Definition getCC5ChannelNames : list string :=
  cc5ChannelNamesOf METAHUMAN_TO_CC5_MAPPING.

Record MappingStats : Type := mkStats {
  statsTotal : nat;
  statsAdd : nat;
  statsLimit : nat;
  statsSourceChannels : nat;
  statsTargetChannels : nat
}.

(** getMappingStats over a rule table. *)
Definition mappingStatsOf (rules : list MappingRule) : MappingStats :=
  let addCount :=
    List.length (List.filter (fun m => String.eqb (mode m) "Add") rules) in
  let limitCount :=
    List.length (List.filter (fun m => String.eqb (mode m) "Limit") rules) in
  {| statsTotal := List.length rules;
     statsAdd := addCount;
     statsLimit := limitCount;
     statsSourceChannels := List.length (metaHumanChannelNamesOf rules);
     statsTargetChannels := List.length (cc5ChannelNamesOf rules) |}.

Definition getMappingStats : MappingStats :=
  mappingStatsOf METAHUMAN_TO_CC5_MAPPING.

(* ------------------------------------------------------------------ *)
(** ** Blinking, tongue and neutral reset (lipsync hook helpers)       *)
(* ------------------------------------------------------------------ *)

(** BLINK_MORPHS (blendshapeMappings.js). *)
Definition BLINK_MORPH_LEFT : string := "Eye_Blink_L".
Definition BLINK_MORPH_RIGHT : string := "Eye_Blink_R".

(** ANIMATION_CONFIG blink timing, in milliseconds. *)
Definition BLINK_MIN_INTERVAL : Q := 1000.
Definition BLINK_MAX_INTERVAL : Q := 5000.
Definition BLINK_DURATION : Q := 200.

(** TONGUE_CONFIG *)
Definition TONGUE_ROTATION_MULTIPLIER : Q := 0.5.
Definition TONGUE_ROTATION_BASE : Q := 0.3.
Definition TONGUE_EXTENSION_MULTIPLIER : Q := 0.02.
Definition TONGUE_ACTIVE_THRESHOLD : Q := 0.1.

(** [applyMorphValue]: write a value to every slot of a channel, without
    smoothing. *)
Definition applyMorphValue (morphCache : gmap string (list Slot))
    (infl : gmap Slot Q) (nm : string) (v : Q) : gmap Slot Q :=
  match morphCache !! nm with
  | None => infl
  | Some targets => writeSlots v targets infl
  end.

(** [blinkRef.current]: [{isBlinking, value, nextBlinkTime}]. *)
Record BlinkState : Type := mkBlink {
  blinkIsBlinking : bool;
  blinkValue : Q;
  nextBlinkTime : Q
}.

(** [applyBlinking].  [randInt] stands for the integer that
    [THREE.MathUtils.randInt(BLINK_MIN_INTERVAL, BLINK_MAX_INTERVAL)]
    returns when the tick draws it. *)
Definition applyBlinking (morphCache : gmap string (list Slot))
    (blinkState : BlinkState) (infl : gmap Slot Q)
    (currentTime delta randInt : Q) : BlinkState * gmap Slot Q :=
  let started :=
    if Qle_bool (nextBlinkTime blinkState) currentTime
       && negb (blinkIsBlinking blinkState)
    then mkBlink true (blinkValue blinkState) (currentTime + BLINK_DURATION)
    else blinkState in
  let ended :=
    if blinkIsBlinking started && Qle_bool (nextBlinkTime started) currentTime
    then mkBlink false (blinkValue started) (currentTime + randInt)
    else started in
  let blinkTarget : Q := if blinkIsBlinking ended then 1 else 0 in
  let newValue :=
    blinkValue ended + (blinkTarget - blinkValue ended) * Qmin 1 (delta * 15) in
  (mkBlink (blinkIsBlinking ended) newValue (nextBlinkTime ended),
   applyMorphValue morphCache
     (applyMorphValue morphCache infl BLINK_MORPH_LEFT newValue)
     BLINK_MORPH_RIGHT newValue).

(** The two tongue bones as far as the hook writes them:
    [tongue01.rotation.z] and [tongue02.position.x]; [None] for a bone the
    rig does not have. *)
Record TongueBones : Type := mkTongue {
  tongue01RotationZ : option Q;
  tongue02PositionX : option Q
}.

(** [applyTongueBone(tongue01, tongue02, defaultPos, tongueValue)]. *)
Definition applyTongueBone (tongue : TongueBones) (defaultPosX tongueValue : Q)
  : TongueBones :=
  if Qltb TONGUE_ACTIVE_THRESHOLD tongueValue then
    {| tongue01RotationZ :=
         option_map (fun _ => TONGUE_ROTATION_BASE
                              + tongueValue * TONGUE_ROTATION_MULTIPLIER)
                    (tongue01RotationZ tongue);
       tongue02PositionX :=
         option_map (fun _ => defaultPosX + tongueValue * TONGUE_EXTENSION_MULTIPLIER)
                    (tongue02PositionX tongue) |}
  else
    {| tongue01RotationZ := option_map (fun _ => 0) (tongue01RotationZ tongue);
       tongue02PositionX := option_map (fun _ => defaultPosX) (tongue02PositionX tongue) |}.

(** Body of [morphCache.forEach] in resetToNeutral. *)
Definition resetMorph (morphCache : gmap string (list Slot)) (lipsyncLerpSpeed : Q)
    (st : MorphState) (entry : string * list Slot) : MorphState :=
  let morphName := fst entry in
  if String.eqb morphName BLINK_MORPH_LEFT || String.eqb morphName BLINK_MORPH_RIGHT
  then st
  else applyMorphValueSmooth morphCache st morphName 0 lipsyncLerpSpeed.

(** [resetToNeutral]; [morphCache.forEach] visits the entries of the
    cache. *)
Definition resetToNeutral (morphCache : gmap string (list Slot)) (st : MorphState)
    (jawBone : option JawState) (jawBaseRotationZ : option Q)
    (tongue : TongueBones) (tongueDefaultPosX : Q)
    (lipsyncLerpSpeed jawLerpSpeed : Q) : MorphState * option JawState * TongueBones :=
  (fold_left (resetMorph morphCache lipsyncLerpSpeed) (map_to_list morphCache) st,
   option_map (fun jaw => applyJawBoneSmooth jaw jawBaseRotationZ 0 jawLerpSpeed) jawBone,
   {| tongue01RotationZ := option_map (fun _ => 0) (tongue01RotationZ tongue);
      tongue02PositionX := option_map (fun _ => tongueDefaultPosX)
                                      (tongue02PositionX tongue) |}).

(** The morph part of [n] successive resets. *)
Fixpoint resetRepeat (morphCache : gmap string (list Slot)) (st : MorphState)
    (lipsyncLerpSpeed : Q) (n : nat) : MorphState :=
  match n with
  | O => st
  | S k =>
      fold_left (resetMorph morphCache lipsyncLerpSpeed) (map_to_list morphCache)
                (resetRepeat morphCache st lipsyncLerpSpeed k)
  end.

(* ------------------------------------------------------------------ *)
(** ** The smoother of the useArkitLipsync hook                        *)
(* ------------------------------------------------------------------ *)

(** The target the smoother moves toward: the lipsync value, or its blend
    with the animation's value read back from the first slot. *)
Definition blendedTargetOf (st : MorphState) (targets : list Slot)
    (targetValue animationBlendWeight : Q) : Q :=
  if Qltb animationBlendWeight 0.01 then targetValue
  else
    let animationValue :=
      match targets with
      | t0 :: _ => default 0 (influences st !! t0)
      | [] => 0
      end in
    animationValue * animationBlendWeight + targetValue * (1 - animationBlendWeight).

(** [applyMorphValueSmooth(..., animationBlendWeight = 0)] of
    useArkitLipsync; [None] is an omitted last argument. *)
Definition applyMorphValueSmoothBlend (morphCache : gmap string (list Slot))
    (st : MorphState) (nm : string) (targetValue lerpSpeed : Q)
    (animationBlendWeight : option Q) : MorphState :=
  match morphCache !! nm with
  | None => st
  | Some targets =>
      let blendedTarget :=
        blendedTargetOf st targets targetValue (default 0 animationBlendWeight) in
      let currentValue := default 0 (smoothedValues st !! nm) in
      let newValue := currentValue + (blendedTarget - currentValue) * lerpSpeed in
      {| smoothedValues := <[nm := newValue]> (smoothedValues st);
         influences := writeSlots newValue targets (influences st) |}
  end.

(** The two channels resetToNeutral leaves to the blink system. *)
Definition isBlinkMorph (nm : string) : bool :=
  String.eqb nm BLINK_MORPH_LEFT || String.eqb nm BLINK_MORPH_RIGHT.

(* ------------------------------------------------------------------ *)
(** ** ARKit playback path (applyArkitMapping of useMetahumanLipsync)  *)
(* ------------------------------------------------------------------ *)

(** ARKIT_BLENDSHAPES (convaiConfig.js), imported as ARKIT_ORDER_61. *)
Definition ARKIT_BLENDSHAPES : list string :=
  [ "eyeBlinkLeft"; "eyeLookDownLeft"; "eyeLookInLeft"; "eyeLookOutLeft";
    "eyeLookUpLeft"; "eyeSquintLeft"; "eyeWideLeft"; "eyeBlinkRight";
    "eyeLookDownRight"; "eyeLookInRight"; "eyeLookOutRight"; "eyeLookUpRight";
    "eyeSquintRight"; "eyeWideRight"; "jawForward"; "jawRight"; "jawLeft";
    "jawOpen"; "mouthClose"; "mouthFunnel"; "mouthPucker"; "mouthRight";
    "mouthLeft"; "mouthSmileLeft"; "mouthSmileRight"; "mouthFrownLeft";
    "mouthFrownRight"; "mouthDimpleLeft"; "mouthDimpleRight";
    "mouthStretchLeft"; "mouthStretchRight"; "mouthRollLower";
    "mouthRollUpper"; "mouthShrugLower"; "mouthShrugUpper"; "mouthPressLeft";
    "mouthPressRight"; "mouthLowerDownLeft"; "mouthLowerDownRight";
    "mouthUpperUpLeft"; "mouthUpperUpRight"; "browDownLeft"; "browDownRight";
    "browInnerUp"; "browOuterUpLeft"; "browOuterUpRight"; "cheekPuff";
    "cheekSquintLeft"; "cheekSquintRight"; "noseSneerLeft"; "noseSneerRight";
    "tongueOut" ].

Definition ARKIT_ORDER_61 : list string := ARKIT_BLENDSHAPES.
Definition JAW_OPEN_INDEX_61 : nat := 17.
Definition JAW_OPEN_INDEX_52 : nat := 24.
Definition TONGUE_OUT_INDEX : nat := 51.

(** A value of an ARKit mapping object: a morph name, an array of morph
    names, or null.  A key the object does not have is [None] at lookup. *)
Inductive MorphMapping : Type :=
| MapString (morphName : string)
| MapArray (morphNames : list string)
| MapNull.

(** JS truthiness of [mapping[key]]: undefined, null and the empty string
    are falsy, every array is truthy. *)
Definition truthy (v : option MorphMapping) : bool :=
  match v with
  | Some (MapString EmptyString) => false
  | Some (MapString _) => true
  | Some (MapArray _) => true
  | Some MapNull => false
  | None => false
  end.

(** The channels the loop of applyArkitMapping skips by name. *)
Definition isControlledSeparately (arkitName : string) : bool :=
  String.eqb arkitName "jawOpen"
  || String.eqb arkitName "mouthClose"
  || String.eqb arkitName "tongueOut"
  || String.eqb arkitName "eyeBlinkLeft"
  || String.eqb arkitName "eyeBlinkRight"
  || String.eqb arkitName "eyeLookDownLeft"
  || String.eqb arkitName "eyeLookInLeft"
  || String.eqb arkitName "eyeLookOutLeft"
  || String.eqb arkitName "eyeLookUpLeft"
  || String.eqb arkitName "eyeLookDownRight"
  || String.eqb arkitName "eyeLookInRight"
  || String.eqb arkitName "eyeLookOutRight"
  || String.eqb arkitName "eyeLookUpRight".

(** [s.toLowerCase()] on ASCII letters. *)
Definition lowerAscii (c : ascii) : ascii :=
  let n := nat_of_ascii c in
  if ((65 <=? n) && (n <=? 90))%nat then ascii_of_nat (n + 32) else c.

Fixpoint toLowerCase (s : string) : string :=
  match s with
  | EmptyString => EmptyString
  | String c rest => String (lowerAscii c) (toLowerCase rest)
  end.

(** One iteration [i] of the blendshape loop of applyArkitMapping. *)
Definition arkitStep (morphCache : gmap string (list Slot))
    (mapping : gmap string MorphMapping) (currentFrame : list Q)
    (fadeInWeight lipsyncLerpSpeed : Q) (st : MorphState) (i : nat) : MorphState :=
  let arkitName := nth i ARKIT_ORDER_61 EmptyString in
  if isControlledSeparately arkitName then st
  else
    let value := nth i currentFrame 0 in
    let morphMapping :=
      if truthy (mapping !! arkitName)
      then default MapNull (mapping !! arkitName)
      else MapString arkitName in
    match morphMapping with
    | MapNull => st
    | MapArray morphNames =>
        let value := if includes "brow" (toLowerCase arkitName)
                     then value * 0.6 else value in
        let value := value * fadeInWeight in
        fold_left
          (fun acc morphName =>
             applyMorphValueSmooth morphCache acc morphName value lipsyncLerpSpeed)
          morphNames st
    | MapString morphName =>
        let value := if includes "brow" (toLowerCase arkitName)
                     then value * 0.6 else value in
        let value := value * fadeInWeight in
        applyMorphValueSmooth morphCache st morphName value lipsyncLerpSpeed
    end.

(** [applyArkitMapping] on an array frame.  [jawBone] is [None] when the
    rig has no jaw bone; a tongue bone the rig lacks is [None] in
    [tongue].  A truthy [mapping["tongueOut"]] that is an array is handed
    to applyMorphValueSmooth as the name, and the morph cache, keyed by
    strings, holds nothing under it. *)
Definition applyArkitMapping (morphCache : gmap string (list Slot))
    (st : MorphState) (mapping : gmap string MorphMapping)
    (currentFrame : list Q) (fadeInWeight : Q)
    (jawBone : option JawState) (jawBaseRotationZ : option Q)
    (tongue : TongueBones) (tongueDefaultPosX : Q)
    (lipsyncLerpSpeed jawLerpSpeed : Q)
  : MorphState * option JawState * TongueBones :=
  let is61Format := (60 <=? List.length currentFrame)%nat in
  let jawIndex := if is61Format then JAW_OPEN_INDEX_61 else JAW_OPEN_INDEX_52 in
  let maxIndex := Nat.min 52 (List.length currentFrame) in
  let st1 :=
    fold_left (arkitStep morphCache mapping currentFrame fadeInWeight lipsyncLerpSpeed)
              (seq 0 maxIndex) st in
  let jawValue := nth jawIndex currentFrame 0 * fadeInWeight in
  let jaw1 :=
    option_map (fun jaw => applyJawBoneSmooth jaw jawBaseRotationZ jawValue jawLerpSpeed)
               jawBone in
  let tongueValue := nth TONGUE_OUT_INDEX currentFrame 0 * fadeInWeight in
  if truthy (mapping !! "tongueOut") then
    match mapping !! "tongueOut" with
    | Some (MapString tongueMorphName) =>
        (applyMorphValueSmooth morphCache st1 tongueMorphName tongueValue
           lipsyncLerpSpeed, jaw1, tongue)
    | _ => (st1, jaw1, tongue)
    end
  else (st1, jaw1, applyTongueBone tongue tongueDefaultPosX tongueValue).

(* ================================================================== *)
(** * Properties                                                       *)
(* ================================================================== *)

Section CurveFacts.

(** Case analysis on the two comparisons inside [clamp01 x]. *)
Ltac clamp_cases x :=
  unfold clamp01;
  destruct (Q.max_spec 0 (Qmin 1 x)) as [[? Hmax] | [? Hmax]];
  destruct (Q.min_spec 1 x) as [[? Hmin] | [? Hmin]];
  rewrite Hmax; try rewrite Hmin.

Lemma clamp01_range (x : Q) : 0 <= clamp01 x /\ clamp01 x <= 1.
Proof. clamp_cases x; split; lra. Qed.

Lemma clamp01_id (x : Q) : 0 <= x -> x <= 1 -> clamp01 x == x.
Proof. intros H0 H1. clamp_cases x; lra. Qed.

Lemma clamp01_below (x : Q) : x <= 0 -> clamp01 x == 0.
Proof. intros H0. clamp_cases x; lra. Qed.

Lemma clamp01_above (x : Q) : 1 <= x -> clamp01 x == 1.
Proof. intros H0. clamp_cases x; lra. Qed.

Lemma Qle_bool_false (x y : Q) : Qle_bool x y = false <-> y < x.
Proof.
  split; intros H.
  - apply Qnot_le_lt. intros Hle. apply Qle_bool_iff in Hle. congruence.
  - destruct (Qle_bool x y) eqn:E; [| reflexivity].
    apply Qle_bool_iff in E. lra.
Qed.

Lemma brackets_test (x : Q) (a b : Key) :
  Qle_bool (time a) x && Qle_bool x (time b) = true <-> brackets x a b.
Proof.
  unfold brackets. rewrite andb_true_iff, !Qle_bool_iff. tauto.
Qed.

(** What the loop returns is the first bracketing adjacent pair. *)
Lemma findBracket_Some (x : Q) (keys : list Key) (a b : Key) :
  findBracket x keys = Some (a, b) ->
  exists i : nat, firstBracketAt keys x i a b.
Proof.
  induction keys as [| k0 rest IH]; [discriminate |].
  destruct rest as [| k1 rest']; [discriminate |].
  cbn [findBracket].
  destruct (Qle_bool (time k0) x && Qle_bool x (time k1)) eqn:E.
  - intros [= <- <-]. exists 0%nat. unfold firstBracketAt. repeat split; try reflexivity.
    + apply brackets_test in E. apply E.
    + apply brackets_test in E. apply E.
    + intros j c d Hj. lia.
  - intros H. destruct (IH H) as (i & Ha & Hb & Hab & Hfirst).
    exists (S i). unfold firstBracketAt. repeat split; try assumption; try apply Hab.
    intros j c d Hj Hc Hd. destruct j as [| j].
    + cbn in Hc, Hd. injection Hc as <-. injection Hd as <-.
      intros Hbr. apply brackets_test in Hbr. congruence.
    + apply (Hfirst j c d); [lia | exact Hc | exact Hd].
Qed.

Lemma last_cons_default (k : Key) (l : list Key) (d1 d2 : Key) :
  List.last (k :: l) d1 = List.last (k :: l) d2.
Proof.
  revert k. induction l as [| y l IHl]; intros k.
  - reflexivity.
  - change (List.last (y :: l) d1 = List.last (y :: l) d2). apply IHl.
Qed.

(** The loop finds a pair whenever [x] lies strictly after the first key
    and not after the last one. *)
Lemma findBracket_exists (x : Q) (first : Key) (rest : list Key) :
  time first < x -> x <= time (List.last (first :: rest) first) ->
  exists a b, findBracket x (first :: rest) = Some (a, b).
Proof.
  revert first. induction rest as [| k1 rest' IH]; intros first Hlo Hhi.
  - cbn in Hhi. lra.
  - cbn [findBracket].
    destruct (Qle_bool (time first) x && Qle_bool x (time k1)) eqn:E.
    + eauto.
    + apply andb_false_iff in E. destruct E as [E | E].
      * apply Qle_bool_false in E. lra.
      * apply Qle_bool_false in E.
        apply (IH k1); [exact E |].
        change (List.last (first :: k1 :: rest') first)
          with (List.last (k1 :: rest') first) in Hhi.
        rewrite (last_cons_default k1 rest' k1 first). exact Hhi.
Qed.

Lemma interpolate_proper (s e : Key) (x y : Q) :
  x == y -> interpolate s e x == interpolate s e y.
Proof.
  intros Hxy. unfold interpolate.
  destruct (Qeq_bool (time e - time s) 0); [reflexivity |].
  rewrite Hxy. reflexivity.
Qed.

(** The interpolation formula written out. *)
Lemma interpolate_spec (s e : Key) (x : Q) :
  (time e == time s -> interpolate s e x = value s) /\
  (~ time e == time s ->
   interpolate s e x =
     value s + (value e - value s) * ((x - time s) / (time e - time s))).
Proof.
  unfold interpolate. split; intros H.
  - assert (E : Qeq_bool (time e - time s) 0 = true)
      by (apply Qeq_bool_iff; lra).
    rewrite E. reflexivity.
  - destruct (Qeq_bool (time e - time s) 0) eqn:E; [| reflexivity].
    apply Qeq_bool_iff in E. exfalso. apply H. lra.
Qed.

End CurveFacts.

Section CurveBoundary.

Lemma firstBracketAt_proper (keys : list Key) (x y : Q) (i : nat) (a b : Key) :
  x == y -> firstBracketAt keys x i a b -> firstBracketAt keys y i a b.
Proof.
  intros Hxy (Ha & Hb & [H1 H2] & Hfirst).
  unfold firstBracketAt, brackets. repeat split; try assumption.
  - rewrite <- Hxy. exact H1.
  - rewrite <- Hxy. exact H2.
  - intros j c d Hj Hc Hd [H3 H4]. apply (Hfirst j c d Hj Hc Hd).
    split; rewrite Hxy; assumption.
Qed.

(** The three outcomes of evaluateCurve in terms of the clamped input. *)
Lemma evaluateCurve_cases (first : Key) (rest : list Key) (x : Q) :
  let keys := first :: rest in
  let lastKey := List.last keys first in
  let x' := clamp01 x in
  (x' <= time first -> evaluateCurve (Some keys) x = value first) /\
  (time first < x' -> time lastKey <= x' ->
   evaluateCurve (Some keys) x = value lastKey) /\
  (time first < x' -> x' < time lastKey ->
   exists (i : nat) (a b : Key),
     firstBracketAt keys x' i a b /\
     evaluateCurve (Some keys) x = interpolate a b x').
Proof.
  intros keys lastKey x'. subst keys lastKey x'.
  unfold evaluateCurve. cbv beta iota zeta.
  repeat split.
  - intros H. apply Qle_bool_iff in H. rewrite H. reflexivity.
  - intros H1 H2. apply Qle_bool_false in H1. apply Qle_bool_iff in H2.
    rewrite H1, H2. reflexivity.
  - intros H1 H2.
    destruct (findBracket_exists (clamp01 x) first rest H1) as (a & b & Hab);
      [lra |].
    destruct (findBracket_Some _ _ _ _ Hab) as (i & Hi).
    exists i, a, b. split; [exact Hi |].
    apply Qle_bool_false in H1. apply Qle_bool_false in H2.
    rewrite H1, H2, Hab. reflexivity.
Qed.

End CurveBoundary.

Section CurveClaims.

Lemma clamp01_le (x t : Q) : 0 <= t -> x <= t -> clamp01 x <= t.
Proof.
  intros Ht Hx. destruct (Qlt_le_dec x 0) as [Hneg | Hpos].
  - rewrite (clamp01_below x); lra.
  - destruct (Qlt_le_dec 1 x) as [Hbig | Hsmall].
    + rewrite (clamp01_above x); lra.
    + rewrite (clamp01_id x); lra.
Qed.

Lemma clamp01_ge (x t : Q) : t <= 1 -> t <= x -> t <= clamp01 x.
Proof.
  intros Ht Hx. destruct (Qlt_le_dec x 0) as [Hneg | Hpos].
  - rewrite (clamp01_below x); lra.
  - destruct (Qlt_le_dec 1 x) as [Hbig | Hsmall].
    + rewrite (clamp01_above x); lra.
    + rewrite (clamp01_id x); lra.
Qed.

(** C2 (amended).  evaluateCurve clamps its input to [0,1], not to the
    key range.  For a non-empty key list and every [x], with [x'] the
    input clamped to [0,1]: the result is [keys[0].value] when
    [x' <= keys[0].time]; otherwise [keys[last].value] when
    [x' >= keys[last].time]; otherwise the interpolation at [x'] between
    the first adjacent pair that brackets [x'].  Hence, when the key
    times lie in [0,1], the result is [keys[0].value] for
    [x <= keys[0].time], [keys[last].value] for [x >= keys[last].time]
    provided [keys[0].time < keys[last].time], and for [x] strictly in
    between it is [v_i + (v_{i+1} - v_i) * (x - t_i) / (t_{i+1} - t_i)]
    on the first bracketing pair ([v_i] on a degenerate segment).  With
    empty or undefined keys the input is returned unchanged.  Sortedness
    of the keys is not needed for any of this. *)
Theorem evaluateCurve_clamps_to_unit_interval
    (first : Key) (rest : list Key) (x : Q) :
  let keys := first :: rest in
  let lastKey := List.last keys first in
  (clamp01 x <= time first -> evaluateCurve (Some keys) x = value first) /\
  (time first < clamp01 x -> time lastKey <= clamp01 x ->
   evaluateCurve (Some keys) x = value lastKey) /\
  (time first < clamp01 x -> clamp01 x < time lastKey ->
   exists (i : nat) (a b : Key),
     firstBracketAt keys (clamp01 x) i a b /\
     evaluateCurve (Some keys) x = interpolate a b (clamp01 x)) /\
  (0 <= time first -> x <= time first ->
   evaluateCurve (Some keys) x = value first) /\
  (time lastKey <= 1 -> time first < time lastKey -> time lastKey <= x ->
   evaluateCurve (Some keys) x = value lastKey) /\
  (0 <= time first -> time lastKey <= 1 ->
   time first < x -> x < time lastKey ->
   exists (i : nat) (a b : Key),
     firstBracketAt keys x i a b /\
     (time b == time a -> evaluateCurve (Some keys) x == value a) /\
     (~ time b == time a ->
      evaluateCurve (Some keys) x ==
        value a + (value b - value a) * ((x - time a) / (time b - time a)))) /\
  evaluateCurve None x = x /\
  evaluateCurve (Some []) x = x.
Proof.
  intros keys lastKey.
  destruct (evaluateCurve_cases first rest x) as (Hlow & Hhigh & Hmid).
  fold keys in Hlow, Hhigh, Hmid. fold lastKey in Hhigh, Hmid.
  split; [exact Hlow |]. split; [exact Hhigh |]. split; [exact Hmid |].
  split; [| split; [| split; [| split; reflexivity]]].
  - intros H0 Hx. apply Hlow. apply clamp01_le; assumption.
  - intros H1 Hlt Hx. apply Hhigh.
    + apply Qlt_le_trans with (time lastKey); [exact Hlt |].
      apply clamp01_ge; assumption.
    + apply clamp01_ge; assumption.
  - intros H0 H1 Hlo Hhi.
    assert (Hid : clamp01 x == x) by (apply clamp01_id; lra).
    destruct Hmid as (i & a & b & Hfb & Heq).
    { rewrite Hid. exact Hlo. }
    { rewrite Hid. exact Hhi. }
    exists i, a, b. split; [apply (firstBracketAt_proper _ _ _ _ _ _ Hid Hfb) |].
    rewrite Heq.
    destruct (interpolate_spec a b (clamp01 x)) as [Hdeg Hlin].
    split; intros Ht.
    + rewrite (Hdeg Ht). reflexivity.
    + rewrite (Hlin Ht), Hid. reflexivity.
Qed.

(** The blink curve at its ends and at a quarter, through the theorem. *)
Lemma evaluateCurve_clamps_to_unit_interval_witness :
  evaluateCurve (Some blinkCurve) 0 = 0 /\
  evaluateCurve (Some blinkCurve) 1 = 0 /\
  evaluateCurve (Some blinkCurve) 0.25 == 0.5.
Proof.
  split; [| split].
  - apply (evaluateCurve_clamps_to_unit_interval (mkKey 0 0) [mkKey 0.5 1; mkKey 1 0] 0);
      cbn; lra.
  - apply (evaluateCurve_clamps_to_unit_interval (mkKey 0 0) [mkKey 0.5 1; mkKey 1 0] 1);
      cbn; lra.
  - vm_compute. reflexivity.
Defined.

(** C2 (as stated) fails when a key time lies outside [0,1]: the keys
    [(-1, 5), (1, 7)] are sorted and [x = -1] is at the first key's time,
    yet the result is 6 (the interpolation at the clamped input 0), not
    the first key's value 5. *)
Lemma evaluateCurve_key_range_counterexample :
  let keys := [mkKey (-1) 5; mkKey 1 7] in
  sortedByTime keys = true /\
  -1 <= time (mkKey (-1) 5) /\
  evaluateCurve (Some keys) (-1) == 6 /\
  ~ evaluateCurve (Some keys) (-1) == value (mkKey (-1) 5).
Proof.
  cbv zeta. split; [reflexivity |]. split; [cbn; lra |].
  split; [vm_compute; reflexivity |].
  intros H. vm_compute in H. discriminate H.
Qed.

End CurveClaims.

Section MappingFacts.

Variable bs : gmap string Q.

Lemma applyRule_lookup_same (cc5 : gmap string Q) (m : MappingRule) :
  applyRule bs cc5 m !! target m =
    Some (match cc5 !! target m with
          | Some old => old * ruleValue bs m
          | None => ruleValue bs m
          end).
Proof.
  unfold applyRule. destruct (cc5 !! target m) as [old |];
    apply lookup_insert_eq.
Qed.

Lemma applyRule_lookup_other (cc5 : gmap string Q) (m : MappingRule) (t : string) :
  target m <> t -> applyRule bs cc5 m !! t = cc5 !! t.
Proof.
  intros Hne. unfold applyRule. destruct (cc5 !! target m) as [old |];
    apply lookup_insert_ne; exact Hne.
Qed.

(** Folding the rules over any accumulator: an existing value is
    multiplied by every result for the target, in order. *)
Lemma fold_applyRule_lookup (rules : list MappingRule) (cc5 : gmap string Q)
    (t : string) :
  fold_left (applyRule bs) rules cc5 !! t =
    match cc5 !! t with
    | Some old => Some (fold_left Qmult (contributions rules bs t) old)
    | None => productOf (contributions rules bs t)
    end.
Proof.
  revert cc5. induction rules as [| m rules IH]; intros cc5.
  - cbn. destruct (cc5 !! t); reflexivity.
  - cbn [fold_left]. rewrite IH. unfold contributions. cbn [List.filter].
    destruct (String.eqb (target m) t) eqn:E.
    + apply String.eqb_eq in E. subst t.
      rewrite applyRule_lookup_same. cbn [List.map productOf fold_left].
      destruct (cc5 !! target m); reflexivity.
    + apply String.eqb_neq in E.
      rewrite (applyRule_lookup_other cc5 m t E). reflexivity.
Qed.

(** After the mapping pass a target holds the product of the results of
    all the rules that write it; a target no rule writes is absent. *)
Lemma mappingPass_lookup (rules : list MappingRule) (t : string) :
  mappingPass rules bs !! t = productOf (contributions rules bs t).
Proof.
  unfold mappingPass. rewrite fold_applyRule_lookup.
  rewrite lookup_empty. reflexivity.
Qed.

Lemma filter_target_unique (rules : list MappingRule) (m : MappingRule) :
  List.NoDup (List.map target rules) -> List.In m rules ->
  List.filter (fun r => String.eqb (target r) (target m)) rules = [m].
Proof.
  induction rules as [| r rules IH]; intros Hnd Hin; [destruct Hin |].
  cbn [List.map] in Hnd. apply List.NoDup_cons_iff in Hnd as [Hnotin Hnd].
  cbn [List.filter]. destruct Hin as [<- | Hin].
  - rewrite String.eqb_refl. f_equal.
    clear IH Hnd. induction rules as [| r' rules IH']; [reflexivity |].
    cbn [List.filter]. destruct (String.eqb (target r') (target r)) eqn:E.
    + exfalso. apply Hnotin. apply String.eqb_eq in E. left. exact E.
    + apply IH'. intros H. apply Hnotin. right. exact H.
  - destruct (String.eqb (target r) (target m)) eqn:E.
    + exfalso. apply Hnotin. apply String.eqb_eq in E. rewrite E.
      apply List.in_map. exact Hin.
    + apply IH; assumption.
Qed.

(** With pairwise distinct targets every target holds exactly the result
    of its own rule. *)
Lemma mappingPass_unique_target (rules : list MappingRule) (m : MappingRule) :
  List.NoDup (List.map target rules) -> List.In m rules ->
  mappingPass rules bs !! target m = Some (ruleValue bs m).
Proof.
  intros Hnd Hin. rewrite mappingPass_lookup. unfold contributions.
  rewrite (filter_target_unique rules m Hnd Hin). reflexivity.
Qed.

Lemma mappingPass_lookup_inv (rules : list MappingRule) (t : string) (v : Q) :
  List.NoDup (List.map target rules) ->
  mappingPass rules bs !! t = Some v ->
  exists m, List.In m rules /\ target m = t /\ v = ruleValue bs m.
Proof.
  intros Hnd Hv. rewrite mappingPass_lookup in Hv. unfold contributions in Hv.
  destruct (List.filter (fun m => String.eqb (target m) t) rules) as [| m l] eqn:E;
    [discriminate |].
  assert (Hin : List.In m (List.filter (fun m => String.eqb (target m) t) rules))
    by (rewrite E; left; reflexivity).
  apply List.filter_In in Hin as [Hin Ht]. apply String.eqb_eq in Ht.
  exists m. split; [exact Hin |]. split; [exact Ht |].
  subst t. rewrite (filter_target_unique rules m Hnd Hin) in E.
  injection E as <-. cbn in Hv. congruence.
Qed.

End MappingFacts.

Lemma table_targets_distinct : List.NoDup (List.map target METAHUMAN_TO_CC5_MAPPING).
Proof.
  apply NoDup_ListNoDup. apply (bool_decide_unpack _). vm_compute. reflexivity.
Qed.

Lemma table_rules_have_curves :
  forall m, List.In m METAHUMAN_TO_CC5_MAPPING -> hasCurve (curve m) = true.
Proof.
  apply List.forallb_forall. vm_compute. reflexivity.
Qed.

Lemma evaluateCurve_identity (x : Q) :
  evaluateCurve (Some identityCurve) x == clamp01 x.
Proof.
  pose proof (clamp01_range x) as [Hlo Hhi].
  destruct (evaluateCurve_cases (mkKey 0 0) [mkKey 1 1] x) as (Hlow & Hhigh & Hmid).
  cbn [List.last time value] in Hlow, Hhigh, Hmid. unfold identityCurve.
  destruct (Qlt_le_dec 0 (clamp01 x)) as [Hpos | Hzero].
  - destruct (Qlt_le_dec (clamp01 x) 1) as [Hlt | Hone].
    + destruct (Hmid Hpos Hlt) as (i & a & b & (Ha & Hb & _ & _) & Heq).
      destruct i as [| i]; [| destruct i; discriminate Hb].
      cbn in Ha, Hb. injection Ha as <-. injection Hb as <-.
      rewrite Heq. unfold interpolate. cbn [time value].
      change (Qeq_bool (1 - 0) 0) with false. cbv iota. field.
    + rewrite (Hhigh Hpos Hone). lra.
  - rewrite (Hlow Hzero). lra.
Qed.

Lemma mappingPass_snoc (bs : gmap string Q) (rules : list MappingRule) (m : MappingRule) :
  mappingPass (rules ++ [m]) bs !! target m =
    Some (match mappingPass rules bs !! target m with
          | Some old => old * ruleValue bs m
          | None => ruleValue bs m
          end).
Proof.
  unfold mappingPass. rewrite fold_left_app. cbn [fold_left].
  apply applyRule_lookup_same.
Qed.

Lemma existsb_eqb_In (t : string) (l : list string) :
  existsb (String.eqb t) l = true <-> List.In t l.
Proof.
  rewrite List.existsb_exists. split.
  - intros (x & Hx & E). apply String.eqb_eq in E. subst x. exact Hx.
  - intros H. exists t. split; [exact H | apply String.eqb_refl].
Qed.

Lemma applyTeethOffset_same (o : Q) (cc5 : gmap string Q) (t : string) :
  applyTeethOffset o cc5 t !! t =
    Some (match cc5 !! t with
          | Some v => Qmin 1 (v + o)
          | None => o
          end).
Proof.
  unfold applyTeethOffset. destruct (cc5 !! t); apply lookup_insert_eq.
Qed.

Lemma applyTeethOffset_other (o : Q) (cc5 : gmap string Q) (t t' : string) :
  t <> t' -> applyTeethOffset o cc5 t !! t' = cc5 !! t'.
Proof.
  intros Hne. unfold applyTeethOffset.
  destruct (cc5 !! t); apply lookup_insert_ne; exact Hne.
Qed.

Section TeethOffsetFacts.

Variable rules : list MappingRule.
Variable bs : gmap string Q.
Variable options : Options.

Lemma convertWith_lookup_teeth (t : string) :
  List.In t teethCorrectives ->
  convertWith rules bs options !! t =
    Some (match mappingPass rules bs !! t with
          | Some v => Qmin 1 (v + teethDownOffsetOf options)
          | None => teethDownOffsetOf options
          end).
Proof.
  intros Hin. unfold convertWith, teethCorrectives in *. cbn [fold_left].
  destruct Hin as [<- | [<- | []]].
  - rewrite applyTeethOffset_other by discriminate.
    apply applyTeethOffset_same.
  - rewrite applyTeethOffset_same.
    rewrite applyTeethOffset_other by discriminate. reflexivity.
Qed.

Lemma convertWith_lookup_other (t : string) :
  ~ List.In t teethCorrectives ->
  convertWith rules bs options !! t = mappingPass rules bs !! t.
Proof.
  intros Hnotin. unfold convertWith, teethCorrectives in *. cbn [fold_left].
  rewrite !applyTeethOffset_other; [reflexivity | |];
    intros <-; apply Hnotin; cbn; tauto.
Qed.

End TeethOffsetFacts.

Lemma convertMetaHumanToCC5_unfold (bs : gmap string Q) (options : Options) :
  convertMetaHumanToCC5 bs options = convertWith METAHUMAN_TO_CC5_MAPPING bs options.
Proof. reflexivity. Qed.

Section CombinationFacts.

(** A two-key curve over the unit interval is the straight line through
    its two values, taken at the clamped input. *)
Lemma evaluateCurve_two_keys (v0 v1 x : Q) :
  evaluateCurve (Some [mkKey 0 v0; mkKey 1 v1]) x == v0 + (v1 - v0) * clamp01 x.
Proof.
  pose proof (clamp01_range x) as [Hlo Hhi].
  destruct (evaluateCurve_cases (mkKey 0 v0) [mkKey 1 v1] x) as (Hlow & Hhigh & Hmid).
  cbn [List.last time value] in Hlow, Hhigh, Hmid.
  destruct (Qlt_le_dec 0 (clamp01 x)) as [Hpos | Hzero].
  - destruct (Qlt_le_dec (clamp01 x) 1) as [Hlt | Hone].
    + destruct (Hmid Hpos Hlt) as (i & a & b & (Ha & Hb & _ & _) & Heq).
      destruct i as [| i]; [| destruct i; discriminate Hb].
      cbn in Ha, Hb. injection Ha as <-. injection Hb as <-.
      rewrite Heq. unfold interpolate. cbn [time value].
      change (Qeq_bool (1 - 0) 0) with false. cbv iota. field.
    + rewrite (Hhigh Hpos Hone).
      assert (E : clamp01 x == 1) by lra. rewrite E. ring.
  - rewrite (Hlow Hzero).
    assert (E : clamp01 x == 0) by lra. rewrite E. ring.
Qed.

(** What convertMetaHumanToCC5 returns under the target of a rule of its
    table: the rule's own value, with the teeth post-processing on top for
    the two funnel targets. *)
Lemma table_rule_converted (bs : gmap string Q) (options : Options) (m : MappingRule) :
  List.In m METAHUMAN_TO_CC5_MAPPING ->
  convertMetaHumanToCC5 bs options !! target m =
    Some (if existsb (String.eqb (target m)) teethCorrectives
          then Qmin 1 (ruleValue bs m + teethDownOffsetOf options)
          else ruleValue bs m).
Proof.
  intros Hin. rewrite convertMetaHumanToCC5_unfold.
  pose proof (mappingPass_unique_target bs _ m table_targets_distinct Hin) as Hpass.
  destruct (existsb (String.eqb (target m)) teethCorrectives) eqn:E.
  - apply existsb_eqb_In in E.
    rewrite (convertWith_lookup_teeth METAHUMAN_TO_CC5_MAPPING bs options (target m) E).
    rewrite Hpass. reflexivity.
  - assert (Hnot : ~ List.In (target m) teethCorrectives).
    { intros H. apply existsb_eqb_In in H. congruence. }
    rewrite (convertWith_lookup_other METAHUMAN_TO_CC5_MAPPING bs options (target m) Hnot).
    exact Hpass.
Qed.

Lemma table_limit_rules_plain (m : MappingRule) :
  List.In m METAHUMAN_TO_CC5_MAPPING -> mode m = "Limit" ->
  existsb (String.eqb (target m)) teethCorrectives = false.
Proof.
  intros Hin Hm.
  assert (H : forallb (fun r => negb (String.eqb (mode r) "Limit")
                               || negb (existsb (String.eqb (target r)) teethCorrectives))
                      METAHUMAN_TO_CC5_MAPPING = true)
    by (vm_compute; reflexivity).
  rewrite List.forallb_forall in H. specialize (H m Hin).
  rewrite Hm in H. cbn [String.eqb] in H.
  change (String.eqb "Limit" "Limit") with true in H. cbn [negb orb] in H.
  apply negb_true_iff in H. exact H.
Qed.

(** The value the last rule of a table leaves in a target the teeth
    post-processing does not touch. *)
Lemma convertWith_snoc (rules : list MappingRule) (bs : gmap string Q)
    (options : Options) (m : MappingRule) :
  ~ List.In (target m) teethCorrectives ->
  convertWith (rules ++ [m]) bs options !! target m =
    Some (match convertWith rules bs options !! target m with
          | Some old => old * ruleValue bs m
          | None => ruleValue bs m
          end).
Proof.
  intros Hnot.
  rewrite (convertWith_lookup_other (rules ++ [m]) bs options (target m) Hnot).
  rewrite (convertWith_lookup_other rules bs options (target m) Hnot).
  apply mappingPass_snoc.
Qed.

End CombinationFacts.

Section CombinationClaims.

(** C1.  For every Add rule of METAHUMAN_TO_CC5_MAPPING and every frame,
    convertMetaHumanToCC5 leaves under the rule's target the rule's curve
    evaluated at the product of the listed source values, an absent
    source counting as 0 (for the two funnel targets the teeth
    post-processing comes on top); for the table's two-key curves the
    curve step is the line [v0 + (v1 - v0) * clamp(product)].  For any
    rule table a target holds the product of the curve-evaluated results
    of the rules writing it, so two Add rules with results [a] and [b] on
    one target give [a * b]: two results of 0.5 give 0.25, neither their
    sum nor their maximum.  A two-source Add rule with the identity curve
    and sources 0.7 and 0.7 gives 0.49, also on the table's own rule
    CornerPullL_CornerPullR. *)
Theorem add_rules_combine_by_product :
  (forall (bs : gmap string Q) (options : Options) (m : MappingRule),
      List.In m METAHUMAN_TO_CC5_MAPPING -> mode m = "Add" ->
      let product :=
        fold_left (fun product k => product * default 0 (bs !! k)) (source m) 1 in
      convertMetaHumanToCC5 bs options !! target m =
        Some (if existsb (String.eqb (target m)) teethCorrectives
              then Qmin 1 (evaluateCurve (curve m) product + teethDownOffsetOf options)
              else evaluateCurve (curve m) product)) /\
  (forall (bs : gmap string Q) (options : Options) (m : MappingRule) (v0 v1 : Q),
      List.In m METAHUMAN_TO_CC5_MAPPING -> mode m = "Add" ->
      curve m = Some [mkKey 0 v0; mkKey 1 v1] ->
      ~ List.In (target m) teethCorrectives ->
      exists v : Q,
        convertMetaHumanToCC5 bs options !! target m = Some v /\
        v == v0 + (v1 - v0)
                  * Qmax 0 (Qmin 1 (fold_left
                                      (fun product k => product * default 0 (bs !! k))
                                      (source m) 1))) /\
  (forall (rules : list MappingRule) (bs : gmap string Q) (options : Options)
          (t : string),
      convertWith rules bs options !! t =
        if existsb (String.eqb t) teethCorrectives
        then Some (match productOf (contributions rules bs t) with
                   | Some v => Qmin 1 (v + teethDownOffsetOf options)
                   | None => teethDownOffsetOf options
                   end)
        else productOf (contributions rules bs t)) /\
  (forall (bs : gmap string Q) (options : Options) (r1 r2 : MappingRule),
      target r1 = target r2 -> mode r1 = "Add" -> mode r2 = "Add" ->
      ~ List.In (target r1) teethCorrectives ->
      let result (r : MappingRule) :=
        let product :=
          fold_left (fun product k => product * default 0 (bs !! k)) (source r) 1 in
        if hasCurve (curve r) then evaluateCurve (curve r) product else product in
      convertWith [r1; r2] bs options !! target r1 = Some (result r1 * result r2)) /\
  (forall (bs : gmap string Q) (options : Options) (n1 n2 s1 s2 X : string),
      ~ List.In X teethCorrectives ->
      bs !! s1 = Some 0.5 -> bs !! s2 = Some 0.5 ->
      exists v : Q,
        convertWith [mkRule n1 [s1] X "Add" (Some identityCurve);
                     mkRule n2 [s2] X "Add" (Some identityCurve)] bs options !! X
          = Some v /\ v == 0.25) /\
  (forall (bs : gmap string Q) (options : Options) (nm s1 s2 X : string),
      ~ List.In X teethCorrectives ->
      bs !! s1 = Some 0.7 -> bs !! s2 = Some 0.7 ->
      exists v : Q,
        convertWith [mkRule nm [s1; s2] X "Add" (Some identityCurve)] bs options !! X
          = Some v /\ v == 0.49) /\
  (exists v : Q,
      convertMetaHumanToCC5
        (<["CTRL_expressions_mouthCornerPullL" := 0.7]>
           (<["CTRL_expressions_mouthCornerPullR" := 0.7]> ∅)) noOptions
        !! "C_CornerPullL_CornerPullR" = Some v /\ v == 0.49).
Proof.
  split; [| split; [| split; [| split; [| split; [| split]]]]].
  - intros bs options m Hin Hm. cbv zeta.
    rewrite (table_rule_converted bs options m Hin).
    unfold ruleValue. rewrite (table_rules_have_curves m Hin).
    unfold combinedValue. rewrite Hm. reflexivity.
  - intros bs options m v0 v1 Hin Hm Hc Hnot.
    rewrite (table_rule_converted bs options m Hin).
    assert (E : existsb (String.eqb (target m)) teethCorrectives = false).
    { destruct (existsb _ _) eqn:E; [| reflexivity].
      apply existsb_eqb_In in E. contradiction. }
    rewrite E. eexists. split; [reflexivity |].
    unfold ruleValue. rewrite (table_rules_have_curves m Hin).
    unfold combinedValue. rewrite Hm. cbn [String.eqb].
    change (String.eqb "Add" "Add") with true. cbv iota.
    rewrite Hc. rewrite evaluateCurve_two_keys. reflexivity.
  - intros rules bs options t.
    destruct (existsb (String.eqb t) teethCorrectives) eqn:E.
    + apply existsb_eqb_In in E.
      rewrite (convertWith_lookup_teeth rules bs options t E).
      rewrite mappingPass_lookup. reflexivity.
    + assert (Hnot : ~ List.In t teethCorrectives).
      { intros H. apply existsb_eqb_In in H. congruence. }
      rewrite (convertWith_lookup_other rules bs options t Hnot).
      apply mappingPass_lookup.
  - intros bs options r1 r2 Ht H1 H2 Hnot. cbv zeta.
    rewrite (convertWith_lookup_other [r1; r2] bs options (target r1) Hnot).
    rewrite mappingPass_lookup. unfold contributions.
    cbn [List.filter]. rewrite <- Ht, String.eqb_refl.
    cbn [List.map productOf fold_left].
    unfold ruleValue, combinedValue. rewrite H1, H2. reflexivity.
  - intros bs options n1 n2 s1 s2 X Hnot H1 H2.
    rewrite (convertWith_lookup_other _ bs options X Hnot).
    rewrite mappingPass_lookup. unfold contributions.
    cbn [List.filter target]. rewrite String.eqb_refl.
    cbn [List.map productOf fold_left]. eexists. split; [reflexivity |].
    unfold ruleValue. cbn [curve].
    change (hasCurve (Some identityCurve)) with true. cbv iota.
    rewrite !evaluateCurve_identity.
    unfold combinedValue, addValue, sourceValue. cbn [mode source fold_left].
    rewrite H1, H2. vm_compute. reflexivity.
  - intros bs options nm s1 s2 X Hnot H1 H2.
    rewrite (convertWith_lookup_other _ bs options X Hnot).
    rewrite mappingPass_lookup.
    unfold contributions. cbn [List.filter target]. rewrite String.eqb_refl.
    cbn [List.map productOf fold_left]. eexists. split; [reflexivity |].
    unfold ruleValue. cbn [curve].
    change (hasCurve (Some identityCurve)) with true. cbv iota.
    rewrite evaluateCurve_identity.
    unfold combinedValue, addValue, sourceValue. cbn [mode source fold_left].
    rewrite H1, H2. vm_compute. reflexivity.
  - eexists. split; [vm_compute; reflexivity | reflexivity].
Qed.

(** The table's own rule CornerPullL_SharpCornerPullL, whose curve rises
    from 0 to 0.5, on a frame with both sources at 0.7: the converter
    returns 0.5 * 0.49. *)
Lemma add_rules_combine_by_product_witness :
  exists v : Q,
    convertMetaHumanToCC5
      (<["CTRL_expressions_mouthCornerPullL" := 0.7]>
         (<["CTRL_expressions_mouthSharpCornerPullL" := 0.7]> ∅)) noOptions
      !! "C_CornerPullL_SharpCornerPullL" = Some v /\ v == 0.245.
Proof.
  destruct add_rules_combine_by_product as (_ & Hline & _).
  destruct (Hline
              (<["CTRL_expressions_mouthCornerPullL" := 0.7]>
                 (<["CTRL_expressions_mouthSharpCornerPullL" := 0.7]> ∅))
              noOptions
              (mkRule "CornerPullL_SharpCornerPullL"
                      ["CTRL_expressions_mouthCornerPullL";
                       "CTRL_expressions_mouthSharpCornerPullL"]
                      "C_CornerPullL_SharpCornerPullL" "Add"
                      (Some [mkKey 0 0; mkKey 1 0.5]))
              0 0.5) as (v & Hv & Heq).
  - unfold METAHUMAN_TO_CC5_MAPPING.
    repeat first [left; reflexivity | right].
  - reflexivity.
  - reflexivity.
  - intros [H | [H | []]]; discriminate H.
  - exists v. split; [exact Hv |]. rewrite Heq. vm_compute. reflexivity.
Defined.

(** C4.  A Limit rule takes the first listed source as the ceiling.  With
    a single source the value passes through directly: every Limit rule
    of METAHUMAN_TO_CC5_MAPPING leaves its curve evaluated at that source
    in its target.  With more sources each later source is capped to
    [min(ceiling, value)] and the capped values are multiplied; the result
    goes through the curve and is multiplied into a value already in the
    target.  Ceiling 0.3 with second source 0.8, and ceiling 0.8 with
    second source 0.3, both give 0.3 under the identity curve. *)
Theorem limit_rules_cap_by_first_source :
  (forall (bs : gmap string Q) (options : Options) (m : MappingRule) (s : string),
      List.In m METAHUMAN_TO_CC5_MAPPING -> mode m = "Limit" -> source m = [s] ->
      convertMetaHumanToCC5 bs options !! target m =
        Some (evaluateCurve (curve m) (default 0 (bs !! s)))) /\
  (forall (rules : list MappingRule) (bs : gmap string Q) (options : Options)
          (m : MappingRule) (s : string),
      mode m = "Limit" -> source m = [s] ->
      ~ List.In (target m) teethCorrectives ->
      let passed := default 0 (bs !! s) in
      let result :=
        if hasCurve (curve m) then evaluateCurve (curve m) passed else passed in
      convertWith (rules ++ [m]) bs options !! target m =
        Some (match convertWith rules bs options !! target m with
              | Some old => old * result
              | None => result
              end)) /\
  (forall (rules : list MappingRule) (bs : gmap string Q) (options : Options)
          (m : MappingRule) (s0 s1 : string) (rest : list string),
      mode m = "Limit" -> source m = s0 :: s1 :: rest ->
      ~ List.In (target m) teethCorrectives ->
      let ceiling := default 0 (bs !! s0) in
      let capped :=
        fold_left (fun product k => product * Qmin ceiling (default 0 (bs !! k)))
                  (s1 :: rest) 1 in
      let result :=
        if hasCurve (curve m) then evaluateCurve (curve m) capped else capped in
      convertWith (rules ++ [m]) bs options !! target m =
        Some (match convertWith rules bs options !! target m with
              | Some old => old * result
              | None => result
              end)) /\
  (forall (bs : gmap string Q) (options : Options) (nm s0 s1 X : string) (v0 v1 : Q),
      ~ List.In X teethCorrectives ->
      exists v : Q,
        convertWith [mkRule nm [s0; s1] X "Limit" (Some [mkKey 0 v0; mkKey 1 v1])]
                    bs options !! X = Some v /\
        v == v0 + (v1 - v0)
                  * Qmax 0 (Qmin 1 (Qmin (default 0 (bs !! s0))
                                         (default 0 (bs !! s1))))) /\
  (forall (bs : gmap string Q) (options : Options) (nm s0 s1 X : string),
      ~ List.In X teethCorrectives ->
      bs !! s0 = Some 0.3 -> bs !! s1 = Some 0.8 ->
      exists v : Q,
        convertWith [mkRule nm [s0; s1] X "Limit" (Some identityCurve)] bs options !! X
          = Some v /\ v == 0.3) /\
  (forall (bs : gmap string Q) (options : Options) (nm s0 s1 X : string),
      ~ List.In X teethCorrectives ->
      bs !! s0 = Some 0.8 -> bs !! s1 = Some 0.3 ->
      exists v : Q,
        convertWith [mkRule nm [s0; s1] X "Limit" (Some identityCurve)] bs options !! X
          = Some v /\ v == 0.3).
Proof.
  assert (Htwo :
    forall (bs : gmap string Q) (options : Options) (nm s0 s1 X : string) (v0 v1 : Q),
      ~ List.In X teethCorrectives ->
      exists v : Q,
        convertWith [mkRule nm [s0; s1] X "Limit" (Some [mkKey 0 v0; mkKey 1 v1])]
                    bs options !! X = Some v /\
        v == v0 + (v1 - v0)
                  * Qmax 0 (Qmin 1 (Qmin (default 0 (bs !! s0))
                                         (default 0 (bs !! s1))))).
  { intros bs options nm s0 s1 X v0 v1 Hnot.
    rewrite (convertWith_lookup_other _ bs options X Hnot).
    rewrite mappingPass_lookup. unfold contributions.
    cbn [List.filter target]. rewrite String.eqb_refl.
    cbn [List.map productOf fold_left]. eexists. split; [reflexivity |].
    unfold ruleValue. cbn [curve hasCurve]. rewrite evaluateCurve_two_keys.
    unfold combinedValue, limitValue, sourceValue, clamp01.
    cbn [mode source fold_left List.hd List.tl List.length].
    change (String.eqb "Limit" "Add") with false.
    change (String.eqb "Limit" "Limit") with true.
    change (2 =? 1)%nat with false. cbv iota.
    rewrite Qmult_1_l. reflexivity. }
  split; [| split; [| split; [| split; [| split]]]].
  - intros bs options m s Hin Hm Hs.
    rewrite (table_rule_converted bs options m Hin).
    rewrite (table_limit_rules_plain m Hin Hm).
    unfold ruleValue. rewrite (table_rules_have_curves m Hin).
    unfold combinedValue, limitValue. rewrite Hm, Hs. reflexivity.
  - intros rules bs options m s Hm Hs Hnot. cbv zeta.
    rewrite (convertWith_snoc rules bs options m Hnot).
    unfold ruleValue, combinedValue, limitValue. rewrite Hm, Hs. reflexivity.
  - intros rules bs options m s0 s1 rest Hm Hs Hnot. cbv zeta.
    rewrite (convertWith_snoc rules bs options m Hnot).
    unfold ruleValue, combinedValue, limitValue. rewrite Hm, Hs. reflexivity.
  - exact Htwo.
  - intros bs options nm s0 s1 X Hnot H0 H1.
    destruct (Htwo bs options nm s0 s1 X 0 1 Hnot) as (v & Hv & Heq).
    exists v. split; [exact Hv |]. rewrite Heq, H0, H1. vm_compute. reflexivity.
  - intros bs options nm s0 s1 X Hnot H0 H1.
    destruct (Htwo bs options nm s0 s1 X 0 1 Hnot) as (v & Hv & Heq).
    exists v. split; [exact Hv |]. rewrite Heq, H0, H1. vm_compute. reflexivity.
Qed.

(** The table's own rule EyeLidPress_Blink_L on a frame with the blink
    control at 0.3, and a two-source Limit rule with ceiling 0.3. *)
Lemma limit_rules_cap_by_first_source_witness :
  (exists v : Q,
      convertMetaHumanToCC5 (<["CTRL_expressions_eyeBlinkL" := 0.3]> ∅) noOptions
        !! "CTRL_expressions_eyeLidPressL" = Some v /\ v == 0.3) /\
  (exists v : Q,
      convertWith
        [mkRule "Cap" ["ceiling"; "second"] "X" "Limit" (Some identityCurve)]
        (<["ceiling" := 0.3]> (<["second" := 0.8]> ∅)) noOptions !! "X" = Some v /\
      v == 0.3).
Proof.
  destruct limit_rules_cap_by_first_source as (Hone & _ & _ & _ & Hcap & _).
  split.
  - eexists. split.
    + apply (Hone (<["CTRL_expressions_eyeBlinkL" := 0.3]> ∅) noOptions
               (mkRule "EyeLidPress_Blink_L" ["CTRL_expressions_eyeBlinkL"]
                       "CTRL_expressions_eyeLidPressL" "Limit"
                       (Some [mkKey 0 0; mkKey 1 1]))
               "CTRL_expressions_eyeBlinkL");
        [unfold METAHUMAN_TO_CC5_MAPPING; repeat first [left; reflexivity | right]
        | reflexivity | reflexivity].
    + vm_compute. reflexivity.
  - apply Hcap; [intros [H | [H | []]]; discriminate H
                | vm_compute; reflexivity | vm_compute; reflexivity].
Defined.

End CombinationClaims.

Section TeethOffsetClaims.

(** With an explicit offset [o] in [0,1] the two funnel targets get
    [min(1, v + o)] on top of the mapping result [v]: exactly [o] on a
    frame without inputs, and 1 for a result of 0.8 with offset 0.3. *)
Lemma teeth_offset_explicit (o : Q) :
  0 <= o -> o <= 1 ->
  (forall (rules : list MappingRule) (bs : gmap string Q) (t : string) (v : Q),
      List.In t teethCorrectives -> mappingPass rules bs !! t = Some v ->
      convertWith rules bs (mkOptions (Some o)) !! t = Some (Qmin 1 (v + o))) /\
  (forall t : string,
      List.In t teethCorrectives ->
      exists v : Q,
        convertMetaHumanToCC5 ∅ (mkOptions (Some o)) !! t = Some v /\ v == o) /\
  Qmin 1 (0.8 + 0.3) == 1.
Proof.
  intros H0 H1. split; [| split].
  - intros rules bs t v Hin Hv. rewrite convertWith_lookup_teeth by exact Hin.
    rewrite Hv. reflexivity.
  - intros t Hin. rewrite convertMetaHumanToCC5_unfold.
    rewrite convertWith_lookup_teeth by exact Hin.
    assert (Hpre : mappingPass METAHUMAN_TO_CC5_MAPPING ∅ !! t = Some 0).
    { destruct Hin as [<- | [<- | []]]; vm_compute; reflexivity. }
    rewrite Hpre. eexists. split; [reflexivity |].
    cbn [teethDownOffsetOf optTeethDownOffset default].
    destruct (Q.min_spec 1 (0 + o)) as [[Ha Hb] | [Ha Hb]];
      unfold default, id; rewrite Hb; lra.
  - vm_compute. reflexivity.
Qed.

(** C5 (the code at the failing input).  Called without options, as the
    playback path does, convertMetaHumanToCC5 uses the offset 0: on a frame
    without inputs both funnel targets are 0, not 0.3, and on every frame
    the post-processing leaves [min(1, v)] where the mapping pass left
    [v]. *)
Theorem teeth_offset_default_is_zero :
  teethDownOffsetOf noOptions = 0 /\
  convertMetaHumanToCC5 ∅ noOptions !! "C_FunnelDL_LowerLipDepressL" = Some 0 /\
  convertMetaHumanToCC5 ∅ noOptions !! "C_FunnelDR_LowerLipDepressR" = Some 0 /\
  ~ 0 == 0.3 /\
  (forall (bs : gmap string Q) (t : string) (v : Q),
      List.In t teethCorrectives ->
      mappingPass METAHUMAN_TO_CC5_MAPPING bs !! t = Some v ->
      exists v' : Q,
        convertMetaHumanToCC5 bs noOptions !! t = Some v' /\ v' == Qmin 1 v).
Proof.
  split; [reflexivity |]. split; [vm_compute; reflexivity |].
  split; [vm_compute; reflexivity |]. split; [intros H; discriminate H |].
  intros bs t v Hin Hv. rewrite convertMetaHumanToCC5_unfold.
  rewrite convertWith_lookup_teeth by exact Hin. rewrite Hv.
  eexists. split; [reflexivity |].
  change (teethDownOffsetOf noOptions) with 0.
  destruct (Q.min_spec 1 (v + 0)) as [[Ha Hb] | [Ha Hb]];
    destruct (Q.min_spec 1 v) as [[Hc Hd] | [Hc Hd]];
    rewrite Hb, Hd; lra.
Qed.

End TeethOffsetClaims.

Section RangeFacts.

Lemma last_In (first : Key) (rest : list Key) :
  List.In (List.last (first :: rest) first) (first :: rest).
Proof.
  revert first. induction rest as [| k rest IH]; intros first.
  - left. reflexivity.
  - right. change (List.last (first :: k :: rest) first)
      with (List.last (k :: rest) first).
    rewrite (last_cons_default k rest first k). apply IH.
Qed.

Lemma interpolate_within (lo hi : Q) (a b : Key) (x : Q) :
  brackets x a b ->
  lo <= value a -> value a <= hi -> lo <= value b -> value b <= hi ->
  lo <= interpolate a b x /\ interpolate a b x <= hi.
Proof.
  intros [Hax Hxb] Hla Hah Hlb Hbh. unfold interpolate.
  destruct (Qeq_bool (time b - time a) 0) eqn:E; [split; assumption |].
  assert (Hd : 0 < time b - time a).
  { destruct (Qlt_le_dec 0 (time b - time a)) as [Hpos | Hneg]; [exact Hpos |].
    exfalso. assert (Hz : time b - time a == 0) by lra.
    apply Qeq_bool_iff in Hz. congruence. }
  set (t := (x - time a) / (time b - time a)).
  assert (Ht0 : 0 <= t).
  { unfold t. apply Qle_shift_div_l; [exact Hd | lra]. }
  assert (Ht1 : t <= 1).
  { unfold t. apply Qle_shift_div_r; [exact Hd | lra]. }
  assert (H1 : 0 <= t * (value b - lo)) by (apply Qmult_le_0_compat; lra).
  assert (H2 : 0 <= (1 - t) * (value a - lo)) by (apply Qmult_le_0_compat; lra).
  assert (H3 : 0 <= t * (hi - value b)) by (apply Qmult_le_0_compat; lra).
  assert (H4 : 0 <= (1 - t) * (hi - value a)) by (apply Qmult_le_0_compat; lra).
  split; nra.
Qed.

(** A curve never leaves the range of its key values. *)
Lemma evaluateCurve_within (lo hi : Q) (first : Key) (rest : list Key) (x : Q) :
  (forall k, List.In k (first :: rest) -> lo <= value k /\ value k <= hi) ->
  lo <= evaluateCurve (Some (first :: rest)) x /\
  evaluateCurve (Some (first :: rest)) x <= hi.
Proof.
  intros Hall.
  destruct (evaluateCurve_cases first rest x) as (Hlow & Hhigh & Hmid).
  cbv zeta in Hlow, Hhigh, Hmid.
  destruct (Qlt_le_dec (time first) (clamp01 x)) as [Hpos | Hzero].
  - destruct (Qlt_le_dec (clamp01 x) (time (List.last (first :: rest) first)))
      as [Hlt | Hone].
    + destruct (Hmid Hpos Hlt) as (i & a & b & (Ha & Hb & Hbr & _) & Heq).
      rewrite Heq. apply list_elem_of_lookup_2, list_elem_of_In in Ha, Hb.
      destruct (Hall a Ha), (Hall b Hb).
      apply interpolate_within; assumption.
    + rewrite (Hhigh Hpos Hone). apply Hall, last_In.
  - rewrite (Hlow Hzero). apply Hall. left. reflexivity.
Qed.

Lemma ruleValue_within (lo hi : Q) (bs : gmap string Q) (m : MappingRule) :
  curveWithin lo hi m = true ->
  lo <= ruleValue bs m /\ ruleValue bs m <= hi.
Proof.
  unfold curveWithin, ruleValue. destruct (curve m) as [[| first rest] |];
    try discriminate.
  intros Hall. cbn [hasCurve]. apply evaluateCurve_within.
  intros k Hk. rewrite List.forallb_forall in Hall. specialize (Hall k Hk).
  apply andb_true_iff in Hall as [H1 H2].
  apply Qle_bool_iff in H1, H2. split; assumption.
Qed.

Lemma table_curves_bounded :
  forall m, List.In m METAHUMAN_TO_CC5_MAPPING ->
    curveWithin (-0.003497) 1 m = true.
Proof.
  apply List.forallb_forall. vm_compute. reflexivity.
Qed.

Lemma table_curves_nonnegative :
  forall m, List.In m METAHUMAN_TO_CC5_MAPPING ->
    existsb (String.eqb (target m)) offsetCurveTargets || curveWithin 0 1 m = true.
Proof.
  apply List.forallb_forall. vm_compute. reflexivity.
Qed.

Lemma table_teeth_curves_nonnegative :
  forall m, List.In m METAHUMAN_TO_CC5_MAPPING ->
    negb (existsb (String.eqb (target m)) teethCorrectives) || curveWithin 0 1 m = true.
Proof.
  apply List.forallb_forall. vm_compute. reflexivity.
Qed.

End RangeFacts.

Lemma table_has_teeth_targets (bs : gmap string Q) (t : string) :
  List.In t teethCorrectives ->
  exists m, List.In m METAHUMAN_TO_CC5_MAPPING /\ target m = t /\
            mappingPass METAHUMAN_TO_CC5_MAPPING bs !! t = Some (ruleValue bs m).
Proof.
  intros Hin.
  destruct (List.find (fun m => String.eqb (target m) t) METAHUMAN_TO_CC5_MAPPING)
    as [m |] eqn:E.
  - apply List.find_some in E as [Hm Ht]. apply String.eqb_eq in Ht.
    exists m. split; [exact Hm |]. split; [exact Ht |]. subst t.
    apply mappingPass_unique_target; [apply table_targets_distinct | exact Hm].
  - exfalso. destruct Hin as [<- | [<- | []]]; vm_compute in E; discriminate E.
Qed.

Section RangeClaims.

(** C9 (amended).  For every input frame and every non-negative teeth
    offset (the default 0 included), every value in the object returned by
    convertMetaHumanToCC5 lies in [-0.003497, 1], and it is non-negative
    for every channel other than the six whose curve starts at -0.003497
    (C_CornerPullL/R_UpperLipRaiseL/R, C_StretchL/R_LowerLipBite_L/R,
    C_DimpleL/R_UpperLipRaiseL/R). *)
Theorem converted_values_bounded
    (bs : gmap string Q) (options : Options) (t : string) (v : Q) :
  0 <= teethDownOffsetOf options ->
  convertMetaHumanToCC5 bs options !! t = Some v ->
  -0.003497 <= v /\ v <= 1 /\ (~ List.In t offsetCurveTargets -> 0 <= v).
Proof.
  intros Ho Hv. rewrite convertMetaHumanToCC5_unfold in Hv.
  destruct (List.in_dec string_dec t teethCorrectives) as [Hteeth | Hother].
  - rewrite convertWith_lookup_teeth in Hv by exact Hteeth.
    destruct (table_has_teeth_targets bs t Hteeth) as (m & Hm & Ht & Hpre).
    rewrite Hpre in Hv. injection Hv as <-.
    pose proof (table_teeth_curves_nonnegative m Hm) as Hcurve.
    apply orb_true_iff in Hcurve as [Hcurve | Hcurve].
    + exfalso. apply negb_true_iff in Hcurve.
      assert (Hex : existsb (String.eqb (target m)) teethCorrectives = true)
        by (apply existsb_eqb_In; rewrite Ht; exact Hteeth).
      congruence.
    + destruct (ruleValue_within 0 1 bs m Hcurve) as [Hlo Hhi].
      destruct (Q.min_spec 1 (ruleValue bs m + teethDownOffsetOf options))
        as [[Ha Hb] | [Ha Hb]]; rewrite Hb; repeat split; intros; lra.
  - rewrite convertWith_lookup_other in Hv by exact Hother.
    destruct (mappingPass_lookup_inv bs _ t v table_targets_distinct Hv)
      as (m & Hm & Ht & ->).
    destruct (ruleValue_within _ _ bs m (table_curves_bounded m Hm)) as [Hlo Hhi].
    split; [exact Hlo |]. split; [exact Hhi |]. intros Hnot.
    pose proof (table_curves_nonnegative m Hm) as Hcurve.
    apply orb_true_iff in Hcurve as [Hcurve | Hcurve].
    + exfalso. apply Hnot. rewrite <- Ht. apply existsb_eqb_In. exact Hcurve.
    + apply (ruleValue_within 0 1 bs m Hcurve).
Qed.

(** The blink channel of a half-closed eye, through the theorem. *)
Lemma converted_values_bounded_witness :
  0 <= teethDownOffsetOf noOptions /\
  convertMetaHumanToCC5 (<["CTRL_expressions_eyeBlinkL" := 0.5]> ∅) noOptions
    !! "C_BlinkL" = Some (50 # 50) /\
  -0.003497 <= 50 # 50 /\ 50 # 50 <= 1 /\
  (~ List.In "C_BlinkL" offsetCurveTargets -> 0 <= 50 # 50).
Proof.
  assert (Ho : 0 <= teethDownOffsetOf noOptions) by (vm_compute; discriminate).
  assert (Hv : convertMetaHumanToCC5 (<["CTRL_expressions_eyeBlinkL" := 0.5]> ∅)
                 noOptions !! "C_BlinkL" = Some (50 # 50))
    by (vm_compute; reflexivity).
  split; [exact Ho |]. split; [exact Hv |].
  exact (converted_values_bounded _ _ _ _ Ho Hv).
Defined.

(** C9 (as stated) fails: on the frame whose two listed channels are 0,
    all in [0,1], the returned object holds -0.003497 for
    C_CornerPullL_UpperLipRaiseL. *)
Lemma converted_value_negative_counterexample :
  let bs : gmap string Q :=
    <["CTRL_expressions_mouthCornerPullL" := 0]>
      (<["CTRL_expressions_mouthUpperLipRaiseL" := 0]> ∅) in
  (forall (k : string) (x : Q), bs !! k = Some x -> 0 <= x /\ x <= 1) /\
  convertMetaHumanToCC5 bs noOptions !! "C_CornerPullL_UpperLipRaiseL"
    = Some (-0.003497) /\
  ~ 0 <= -0.003497.
Proof.
  cbv zeta. split; [| split].
  - intros k x Hk.
    apply lookup_insert_Some in Hk as [[_ <-] | [_ Hk]]; [split; lra |].
    apply lookup_insert_Some in Hk as [[_ <-] | [_ Hk]]; [split; lra |].
    rewrite lookup_empty in Hk. discriminate Hk.
  - vm_compute. reflexivity.
  - intros H. vm_compute in H. apply H. reflexivity.
Qed.

End RangeClaims.

Section SchedulerFacts.

Lemma exactFramePos_monotone (start now1 now2 : Q) :
  now1 <= now2 ->
  elapsedTimeSec now1 start * TARGET_FPS + FRAME_OFFSET <=
  elapsedTimeSec now2 start * TARGET_FPS + FRAME_OFFSET.
Proof.
  intros H. unfold elapsedTimeSec, TARGET_FPS, FRAME_OFFSET, Qdiv.
  change (/ 1000) with (1 # 1000). lra.
Qed.

Lemma targetFrameIndex_monotone (start now1 now2 : Q) :
  now1 <= now2 ->
  (targetFrameIndex now1 start <= targetFrameIndex now2 start)%Z.
Proof.
  intros H. unfold targetFrameIndex. apply Qfloor_resp_le.
  apply exactFramePos_monotone. exact H.
Qed.

Lemma targetFrameIndex_lead_in (start now : Q) :
  start <= now -> (15 <= targetFrameIndex now start)%Z.
Proof.
  intros H. unfold targetFrameIndex.
  change 15%Z with (Qfloor FRAME_OFFSET). apply Qfloor_resp_le.
  unfold elapsedTimeSec, TARGET_FPS, FRAME_OFFSET, Qdiv.
  change (/ 1000) with (1 # 1000). lra.
Qed.

(** The ticks that go on to fetch a frame: playing, a non-empty queue,
    not stopping, index inside the buffer. *)
Lemma tick_fetches (now : Q) (frames : list Frame) (state state' : PlaybackState)
    (queue' : option (list Frame)) (action : TickAction) :
  tick now (Some frames) state = (state', queue', action) ->
  (exists i, action = SkipInvalidFrame i) \/ (exists i f w, action = ApplyFrame i f w) ->
  let w := Qmin 1 (elapsedTimeSec now (startTime state) / LIPSYNC_FADE_IN_DURATION) in
  let i := frameIndexAt now (startTime state) (List.length frames) in
  isPlaying state = true /\ frames <> [] /\ queue' = Some frames /\
  (0 <= i < Z.of_nat (List.length frames))%Z /\
  ((action = SkipInvalidFrame i /\ state' = setFadeInWeight state w /\
    forall f, nth_error frames (Z.to_nat i) = Some f -> isValidFrame f = false) \/
   (exists f, action = ApplyFrame i f w /\
              state' = setCurrentFrameIndex (setFadeInWeight state w) i /\
              nth_error frames (Z.to_nat i) = Some f /\ isValidFrame f = true)).
Proof.
  intros Htick Hact. cbv zeta. unfold tick in Htick.
  destruct (isPlaying state) eqn:Hplay; cbn [negb] in Htick;
    [| injection Htick as <- <- <-; destruct Hact as [[i Hi] | (i & f & w & Hi)];
       discriminate Hi].
  destruct (List.length frames =? 0)%nat eqn:Hlen.
  { destruct (isDraining state); injection Htick as <- <- <-;
      destruct Hact as [[i Hi] | (i & f & w & Hi)]; discriminate Hi. }
  apply Nat.eqb_neq in Hlen.
  set (w := Qmin 1 (elapsedTimeSec now (startTime state) / LIPSYNC_FADE_IN_DURATION)) in *.
  set (i := frameIndexAt now (startTime state) (List.length frames)) in *.
  destruct ((Z.of_nat (List.length frames) - 1 <=? i)%Z
            && isDraining (setFadeInWeight state w)).
  { injection Htick as <- <- <-.
    destruct Hact as [[j Hj] | (j & f & w' & Hj)]; discriminate Hj. }
  destruct ((i <? 0)%Z || (Z.of_nat (List.length frames) <=? i)%Z) eqn:Hrange.
  { injection Htick as <- <- <-.
    destruct Hact as [[j Hj] | (j & f & w' & Hj)]; discriminate Hj. }
  apply orb_false_iff in Hrange as [Hneg Hbig].
  apply Z.ltb_ge in Hneg. apply Z.leb_gt in Hbig.
  split; [reflexivity |]. split; [intros ->; apply Hlen; reflexivity |].
  destruct (nth_error frames (Z.to_nat i)) as [f |] eqn:Hnth.
  - destruct (isValidFrame f) eqn:Hvalid; injection Htick as <- <- <-.
    + split; [reflexivity |]. split; [lia |]. right. exists f.
      repeat split; assumption.
    + split; [reflexivity |]. split; [lia |]. left.
      repeat split. intros f' [= <-]. exact Hvalid.
  - injection Htick as <- <- <-.
    split; [reflexivity |]. split; [lia |]. left.
    repeat split. intros f' Hf'. discriminate Hf'.
Qed.

(** The tick of a playing state whose computed index points at a frame
    and which does not stop: the frame is applied when it is valid and
    skipped with a warning when it is not. *)
Lemma tick_playing_fetch (now : Q) (frames : list Frame) (state : PlaybackState)
    (f : Frame) :
  let w := Qmin 1 (elapsedTimeSec now (startTime state) / LIPSYNC_FADE_IN_DURATION) in
  let i := frameIndexAt now (startTime state) (List.length frames) in
  isPlaying state = true ->
  (0 <= i)%Z ->
  nth_error frames (Z.to_nat i) = Some f ->
  isDraining state = false \/ (i < Z.of_nat (List.length frames) - 1)%Z ->
  tick now (Some frames) state =
    if isValidFrame f
    then (setCurrentFrameIndex (setFadeInWeight state w) i, Some frames,
          ApplyFrame i f w)
    else (setFadeInWeight state w, Some frames, SkipInvalidFrame i).
Proof.
  cbv zeta. intros Hplay Hi Hnth Hgo. unfold tick. rewrite Hplay. cbn [negb].
  assert (Hlt : (Z.to_nat (frameIndexAt now (startTime state) (List.length frames))
                 < List.length frames)%nat).
  { apply nth_error_Some. rewrite Hnth. discriminate. }
  assert (Hlen : (List.length frames =? 0)%nat = false) by (apply Nat.eqb_neq; lia).
  rewrite Hlen. cbn [setFadeInWeight isDraining].
  assert (Hstop : (Z.of_nat (List.length frames) - 1
                   <=? frameIndexAt now (startTime state) (List.length frames))%Z
                  && isDraining state = false).
  { destruct Hgo as [Hd | Hlast].
    - rewrite Hd. apply andb_false_r.
    - apply andb_false_iff. left. apply Z.leb_gt. exact Hlast. }
  rewrite Hstop.
  assert (Hrange : (frameIndexAt now (startTime state) (List.length frames) <? 0)%Z
                   || (Z.of_nat (List.length frames)
                       <=? frameIndexAt now (startTime state) (List.length frames))%Z
                   = false).
  { apply orb_false_iff. split; [apply Z.ltb_ge; exact Hi | apply Z.leb_gt; lia]. }
  rewrite Hrange, Hnth. reflexivity.
Qed.

End SchedulerFacts.

Section SchedulerClaims.

(** C3.  A tick of a playing state applies the frame at index
    [min(floor(((now - startTime) / 1000) * 60 + 15), frames.length - 1)]
    and stores that index as currentFrameIndex, whenever that frame is
    valid and the tick does not stop (not draining, or the index is before
    the last frame); from startTime on, with a non-empty buffer of valid
    frames and no draining, every tick does so.  Conversely a tick that
    applies a frame applies the one at that index.  For a fixed startTime
    and buffer a later [now] never applies a smaller index, and the
    applied index never exceeds [frames.length - 1]; it is not negative
    for [now >= startTime].  Monotonicity holds for all [now], so in
    particular from startTime on. *)
Theorem frame_index_monotone_and_bounded :
  (forall (now : Q) (frames : list Frame) (state : PlaybackState) (f : Frame),
      let i := Z.min (Qfloor (((now - startTime state) / 1000) * 60 + 15))
                     (Z.of_nat (List.length frames) - 1) in
      isPlaying state = true ->
      (0 <= i)%Z ->
      nth_error frames (Z.to_nat i) = Some f ->
      isValidFrame f = true ->
      isDraining state = false \/ (i < Z.of_nat (List.length frames) - 1)%Z ->
      exists (state' : PlaybackState) (w : Q),
        tick now (Some frames) state = (state', Some frames, ApplyFrame i f w) /\
        currentFrameIndex state' = i) /\
  (forall (now : Q) (frames : list Frame) (state : PlaybackState),
      let i := Z.min (Qfloor (((now - startTime state) / 1000) * 60 + 15))
                     (Z.of_nat (List.length frames) - 1) in
      isPlaying state = true -> isDraining state = false ->
      frames <> [] -> startTime state <= now ->
      (forall f, List.In f frames -> isValidFrame f = true) ->
      exists (state' : PlaybackState) (f : Frame) (w : Q),
        tick now (Some frames) state = (state', Some frames, ApplyFrame i f w) /\
        nth_error frames (Z.to_nat i) = Some f /\
        currentFrameIndex state' = i /\
        (0 <= i <= Z.of_nat (List.length frames) - 1)%Z) /\
  (forall (now : Q) (frames : list Frame) (state state' : PlaybackState)
          (queue' : option (list Frame)) (i : Z) (f : Frame) (w : Q),
      tick now (Some frames) state = (state', queue', ApplyFrame i f w) ->
      i = Z.min (Qfloor (((now - startTime state) / 1000) * 60 + 15))
                (Z.of_nat (List.length frames) - 1) /\
      currentFrameIndex state' = i /\
      nth_error frames (Z.to_nat i) = Some f) /\
  (forall (now1 now2 : Q) (frames : list Frame) (state1 state2 state1' state2' : PlaybackState)
          (queue1' queue2' : option (list Frame)) (i1 i2 : Z) (f1 f2 : Frame)
          (w1 w2 : Q),
      startTime state1 = startTime state2 -> now1 <= now2 ->
      tick now1 (Some frames) state1 = (state1', queue1', ApplyFrame i1 f1 w1) ->
      tick now2 (Some frames) state2 = (state2', queue2', ApplyFrame i2 f2 w2) ->
      (i1 <= i2 <= Z.of_nat (List.length frames) - 1)%Z) /\
  (forall (start now1 now2 : Q) (n : nat),
      now1 <= now2 ->
      (frameIndexAt now1 start n <= frameIndexAt now2 start n)%Z) /\
  (forall (start now : Q) (n : nat),
      (frameIndexAt now start n <= Z.of_nat n - 1)%Z) /\
  (forall (start now : Q) (n : nat),
      start <= now -> (0 < n)%nat -> (0 <= frameIndexAt now start n)%Z).
Proof.
  assert (Hback :
    forall (now : Q) (frames : list Frame) (state state' : PlaybackState)
           (queue' : option (list Frame)) (i : Z) (f : Frame) (w : Q),
      tick now (Some frames) state = (state', queue', ApplyFrame i f w) ->
      i = frameIndexAt now (startTime state) (List.length frames) /\
      currentFrameIndex state' = i /\
      nth_error frames (Z.to_nat i) = Some f).
  { intros now frames state state' queue' i f w Htick.
    destruct (tick_fetches now frames state state' queue' _ Htick)
      as (_ & _ & _ & _ & [(Hbad & _) | (f' & Hact & Hst & Hnth & _)]).
    { right. eauto. }
    { discriminate Hbad. }
    injection Hact as -> <- _. split; [reflexivity |].
    split; [rewrite Hst; reflexivity | exact Hnth]. }
  split; [| split; [| split; [| split; [| split; [| split]]]]].
  - intros now frames state f i Hplay Hi Hnth Hvalid Hgo.
    pose proof (tick_playing_fetch now frames state f Hplay Hi Hnth Hgo) as Htick.
    rewrite Hvalid in Htick. eexists. eexists. split; [exact Htick | reflexivity].
  - intros now frames state i Hplay Hdrain Hne Hle Hall.
    assert (Hlen : (0 < List.length frames)%nat)
      by (destruct frames; [contradiction | cbn; lia]).
    assert (Hi : (0 <= i <= Z.of_nat (List.length frames) - 1)%Z).
    { subst i. pose proof (targetFrameIndex_lead_in (startTime state) now Hle) as H15.
      unfold targetFrameIndex, elapsedTimeSec, TARGET_FPS, FRAME_OFFSET in H15. lia. }
    destruct (nth_error frames (Z.to_nat i)) as [f |] eqn:Hnth.
    2: { apply nth_error_None in Hnth. lia. }
    pose proof (tick_playing_fetch now frames state f Hplay (proj1 Hi) Hnth
                  (or_introl Hdrain)) as Htick.
    rewrite (Hall f (nth_error_In _ _ Hnth)) in Htick.
    eexists. exists f. eexists.
    split; [exact Htick |]. split; [reflexivity |]. split; [reflexivity | exact Hi].
  - exact Hback.
  - intros now1 now2 frames state1 state2 state1' state2' queue1' queue2'
           i1 i2 f1 f2 w1 w2 Hstart Hle H1 H2.
    destruct (Hback _ _ _ _ _ _ _ _ H1) as (-> & _ & _).
    destruct (Hback _ _ _ _ _ _ _ _ H2) as (-> & _ & _).
    rewrite Hstart. unfold frameIndexAt.
    pose proof (targetFrameIndex_monotone (startTime state2) now1 now2 Hle). lia.
  - intros start now1 now2 n Hle. unfold frameIndexAt.
    pose proof (targetFrameIndex_monotone start now1 now2 Hle). lia.
  - intros start now n. unfold frameIndexAt. lia.
  - intros start now n Hle Hn. unfold frameIndexAt.
    pose proof (targetFrameIndex_lead_in start now Hle). lia.
Qed.

(** A hundred frames, half a second after the start: the tick applies
    frame 45, the one [floor(0.5 * 60 + 15)] points at. *)
Lemma frame_index_monotone_and_bounded_witness :
  exists (state' : PlaybackState) (f : Frame) (w : Q),
    tick 500 (Some (repeat (FrameArray [1]) 100)) (mkPlayback true 0 0 false 0)
      = (state', Some (repeat (FrameArray [1]) 100), ApplyFrame 45 f w) /\
    nth_error (repeat (FrameArray [1]) 100) 45 = Some f /\
    currentFrameIndex state' = 45%Z.
Proof.
  destruct frame_index_monotone_and_bounded as (_ & Hrun & _).
  destruct (Hrun 500 (repeat (FrameArray [1]) 100) (mkPlayback true 0 0 false 0))
    as (state' & f & w & Htick & Hnth & Hidx & _).
  - reflexivity.
  - reflexivity.
  - discriminate.
  - vm_compute. discriminate.
  - intros f Hf. apply repeat_spec in Hf. subst f. reflexivity.
  - exists state', f, w. split; [exact Htick |]. split; [exact Hnth | exact Hidx].
Defined.

(** C7 (amended).  When the frame fetched at the computed index is
    invalid (and the tick does not stop first: not draining, or the index
    is before the last frame), the tick only warns: isPlaying, startTime,
    currentFrameIndex and isDraining are left as they were and the queue
    is untouched, but fadeInWeight has already been set to
    [min(1, elapsedSec / LIPSYNC_FADE_IN_DURATION)] by this tick.  The next
    tick computes its index from the same startTime, exactly as from the
    state before the skipped tick.  Conversely a tick skips a frame as
    invalid only at its computed index and only when no valid frame is
    there. *)
Theorem invalid_frame_tick_keeps_playback :
  (forall (now : Q) (frames : list Frame) (state : PlaybackState) (f : Frame),
      let i := Z.min (Qfloor (((now - startTime state) / 1000) * 60 + 15))
                     (Z.of_nat (List.length frames) - 1) in
      isPlaying state = true ->
      (0 <= i)%Z ->
      nth_error frames (Z.to_nat i) = Some f ->
      isValidFrame f = false ->
      isDraining state = false \/ (i < Z.of_nat (List.length frames) - 1)%Z ->
      exists state' : PlaybackState,
        tick now (Some frames) state = (state', Some frames, SkipInvalidFrame i) /\
        isPlaying state' = isPlaying state /\
        startTime state' = startTime state /\
        currentFrameIndex state' = currentFrameIndex state /\
        isDraining state' = isDraining state /\
        fadeInWeight state' =
          Qmin 1 ((now - startTime state) / 1000 / LIPSYNC_FADE_IN_DURATION) /\
        (forall (now2 : Q) (frames2 : list Frame),
            frames2 <> [] ->
            tick now2 (Some frames2) state' = tick now2 (Some frames2) state)) /\
  (forall (now : Q) (frames : list Frame) (state state' : PlaybackState)
          (queue' : option (list Frame)) (i : Z),
      tick now (Some frames) state = (state', queue', SkipInvalidFrame i) ->
      i = frameIndexAt now (startTime state) (List.length frames) /\
      (forall f, nth_error frames (Z.to_nat i) = Some f -> isValidFrame f = false) /\
      isPlaying state' = isPlaying state /\
      startTime state' = startTime state /\
      currentFrameIndex state' = currentFrameIndex state /\
      isDraining state' = isDraining state /\
      fadeInWeight state' =
        Qmin 1 (elapsedTimeSec now (startTime state) / LIPSYNC_FADE_IN_DURATION) /\
      queue' = Some frames /\
      (forall (now2 : Q) (frames2 : list Frame),
          frames2 <> [] ->
          tick now2 (Some frames2) state' = tick now2 (Some frames2) state)).
Proof.
  assert (Hretry :
    forall (state : PlaybackState) (w now2 : Q) (frames2 : list Frame),
      isPlaying state = true -> frames2 <> [] ->
      tick now2 (Some frames2) (setFadeInWeight state w)
      = tick now2 (Some frames2) state).
  { intros state w now2 frames2 Hplay Hne. unfold tick.
    cbn [setFadeInWeight isPlaying startTime currentFrameIndex isDraining
         fadeInWeight].
    destruct frames2 as [| f2 rest2]; [contradiction |].
    destruct (isPlaying state); [| discriminate Hplay].
    reflexivity. }
  split.
  - intros now frames state f i Hplay Hi Hnth Hinvalid Hgo.
    pose proof (tick_playing_fetch now frames state f Hplay Hi Hnth Hgo) as Htick.
    rewrite Hinvalid in Htick. eexists. split; [exact Htick |].
    cbn [setFadeInWeight isPlaying startTime currentFrameIndex isDraining
         fadeInWeight].
    repeat (split; [reflexivity |]).
    intros now2 frames2 Hne. apply Hretry; assumption.
  - intros now frames state state' queue' i Htick.
    destruct (tick_fetches now frames state state' queue' _ Htick)
      as (Hplay & _ & Hq & _ & [(Hact & Hst & Hinv) | (f' & Hact & _)]).
    { left. eauto. }
    2: { discriminate Hact. }
    injection Hact as ->. split; [reflexivity |]. split; [exact Hinv |].
    subst state'. cbn [setFadeInWeight isPlaying startTime currentFrameIndex
                       isDraining fadeInWeight].
    repeat (split; [reflexivity |]). split; [exact Hq |].
    intros now2 frames2 Hne. apply Hretry; assumption.
Qed.

(** A playing state whose only buffered frame is an empty object. *)
Lemma invalid_frame_tick_keeps_playback_witness :
  exists state' : PlaybackState,
    tick 150 (Some [FrameObject ∅]) (mkPlayback true 0 0 false 0)
      = (state', Some [FrameObject ∅], SkipInvalidFrame 0) /\
    currentFrameIndex state' = 0%Z /\
    isDraining state' = false /\
    fadeInWeight state' == 1 # 2.
Proof.
  destruct invalid_frame_tick_keeps_playback as (Hskip & _).
  destruct (Hskip 150 [FrameObject ∅] (mkPlayback true 0 0 false 0) (FrameObject ∅))
    as (state' & Htick & _ & _ & Hidx & Hdrain & Hfade & _).
  - reflexivity.
  - vm_compute. discriminate.
  - reflexivity.
  - reflexivity.
  - left. reflexivity.
  - exists state'. split; [exact Htick |]. split; [exact Hidx |].
    split; [exact Hdrain |]. rewrite Hfade. vm_compute. reflexivity.
Defined.

(** C7 (as stated) fails on fadeInWeight: 150 ms into playback with an
    empty object as the only buffered frame, the tick skips the frame and
    leaves fadeInWeight at 1/2 where it was 0. *)
Lemma invalid_frame_tick_counterexample :
  let state := mkPlayback true 0 0 false 0 in
  let frames := [FrameObject ∅] in
  isValidFrame (FrameObject ∅) = false /\
  tick 150 (Some frames) state
    = (mkPlayback true 0 0 false (1500 # 3000), Some frames, SkipInvalidFrame 0) /\
  1500 # 3000 == 1 # 2 /\
  ~ fadeInWeight (mkPlayback true 0 0 false (1500 # 3000)) == fadeInWeight state.
Proof.
  cbv zeta. split; [reflexivity |]. split; [vm_compute; reflexivity |].
  split; [reflexivity |]. intros H. vm_compute in H. discriminate H.
Qed.

End SchedulerClaims.

Section SmootherFacts.

Variable morphCache : gmap string (list Slot).

Lemma writeSlots_lookup (newValue : Q) (targets : list Slot) (infl : gmap Slot Q)
    (slot : Slot) :
  writeSlots newValue targets infl !! slot =
    if bool_decide (slot ∈ targets) then Some newValue else infl !! slot.
Proof.
  unfold writeSlots. revert infl.
  induction targets as [| t targets IH]; intros infl; cbn [fold_left].
  - rewrite bool_decide_eq_false_2 by apply not_elem_of_nil. reflexivity.
  - rewrite IH. destruct (decide (slot ∈ targets)) as [Hin | Hnotin].
    + rewrite !bool_decide_eq_true_2; [reflexivity | | exact Hin].
      apply elem_of_cons. right. exact Hin.
    + rewrite (bool_decide_eq_false_2 _ Hnotin).
      destruct (decide (slot = t)) as [-> | Hne].
      * rewrite lookup_insert_eq.
        rewrite bool_decide_eq_true_2 by apply list_elem_of_here. reflexivity.
      * rewrite lookup_insert_ne by congruence.
        rewrite bool_decide_eq_false_2; [reflexivity |].
        intros Hin. apply elem_of_cons in Hin as [Heq | Hin]; contradiction.
Qed.

Lemma smooth_unknown (st : MorphState) (nm : string) (targetValue lerpSpeed : Q) :
  morphCache !! nm = None ->
  applyMorphValueSmooth morphCache st nm targetValue lerpSpeed = st.
Proof.
  intros H. unfold applyMorphValueSmooth. rewrite H. reflexivity.
Qed.

Lemma smooth_known (st : MorphState) (nm : string) (targets : list Slot)
    (targetValue lerpSpeed : Q) :
  morphCache !! nm = Some targets ->
  smoothedOf (applyMorphValueSmooth morphCache st nm targetValue lerpSpeed) nm =
    smoothedOf st nm + (targetValue - smoothedOf st nm) * lerpSpeed.
Proof.
  intros H. unfold applyMorphValueSmooth, smoothedOf. rewrite H.
  cbn [smoothedValues]. rewrite lookup_insert_eq. reflexivity.
Qed.

Lemma smooth_other (st : MorphState) (nm other : string) (targetValue lerpSpeed : Q) :
  nm <> other ->
  smoothedValues (applyMorphValueSmooth morphCache st nm targetValue lerpSpeed) !! other
    = smoothedValues st !! other.
Proof.
  intros Hne. unfold applyMorphValueSmooth.
  destruct (morphCache !! nm); [| reflexivity].
  cbn [smoothedValues]. apply lookup_insert_ne. exact Hne.
Qed.

Lemma smooth_slots (st : MorphState) (nm : string) (targetValue lerpSpeed : Q)
    (slot : Slot) :
  influences (applyMorphValueSmooth morphCache st nm targetValue lerpSpeed) !! slot =
    match morphCache !! nm with
    | Some targets =>
        if bool_decide (slot ∈ targets)
        then Some (smoothedOf st nm + (targetValue - smoothedOf st nm) * lerpSpeed)
        else influences st !! slot
    | None => influences st !! slot
    end.
Proof.
  unfold applyMorphValueSmooth. destruct (morphCache !! nm) as [targets |];
    [| reflexivity].
  cbn [influences]. apply writeSlots_lookup.
Qed.

End SmootherFacts.

Section SmootherConvergence.

Variables (T r : Q).
Hypothesis Hr0 : 0 < r.
Hypothesis Hr1 : r < 1.

(** A sequence that follows the smoother's recurrence. *)
Variable s : nat -> Q.
Hypothesis Hstep : forall n, s (S n) == s n + (T - s n) * r.

Lemma lerp_below (n : nat) : s n <= T -> s n <= s (S n) /\ s (S n) <= T.
Proof.
  intros H. rewrite (Hstep n).
  assert (H1 : 0 <= (T - s n) * r) by (apply Qmult_le_0_compat; lra).
  assert (H2 : 0 <= (T - s n) * (1 - r)) by (apply Qmult_le_0_compat; lra).
  split; lra.
Qed.

Lemma lerp_above (n : nat) : T <= s n -> T <= s (S n) /\ s (S n) <= s n.
Proof.
  intros H. rewrite (Hstep n).
  assert (H1 : 0 <= (s n - T) * r) by (apply Qmult_le_0_compat; lra).
  assert (H2 : 0 <= (s n - T) * (1 - r)) by (apply Qmult_le_0_compat; lra).
  split; lra.
Qed.

Lemma lerp_stays_below (n : nat) : s 0%nat <= T -> s n <= T.
Proof.
  intros H. induction n as [| n IH]; [exact H | apply lerp_below; exact IH].
Qed.

Lemma lerp_stays_above (n : nat) : T <= s 0%nat -> T <= s n.
Proof.
  intros H. induction n as [| n IH]; [exact H | apply lerp_above; exact IH].
Qed.

Lemma lerp_distance_step (n : nat) :
  Qabs (T - s (S n)) == (1 - r) * Qabs (T - s n).
Proof.
  rewrite (Hstep n).
  setoid_replace (T - (s n + (T - s n) * r)) with ((1 - r) * (T - s n))
    using relation Qeq by ring.
  rewrite Qabs_Qmult. rewrite (Qabs_pos (1 - r)) by lra. reflexivity.
Qed.

(** Bernoulli-style bound: the distance after [n] steps, times [1 + n r],
    is at most the initial distance. *)
Lemma lerp_distance_bound (n : nat) :
  Qabs (T - s n) * (1 + inject_Z (Z.of_nat n) * r) <= Qabs (T - s 0%nat).
Proof.
  induction n as [| n IH].
  - cbn. setoid_replace (1 + inject_Z 0 * r) with 1
    using relation Qeq by (unfold inject_Z; ring). lra.
  - rewrite lerp_distance_step.
    rewrite Nat2Z.inj_succ, <- Z.add_1_r, inject_Z_plus.
    change (inject_Z 1) with 1.
    pose proof (Qabs_nonneg (T - s n)) as HA.
    set (A := Qabs (T - s n)) in *.
    assert (Hk : 0 <= inject_Z (Z.of_nat n)).
    { change 0 with (inject_Z 0). rewrite <- Zle_Qle. lia. }
    set (k := inject_Z (Z.of_nat n)) in *.
    assert (Hrr : 0 <= r * r) by (apply Qmult_le_0_compat; lra).
    assert (Hloss : 0 <= A * ((k + 1) * (r * r))).
    { apply Qmult_le_0_compat; [exact HA |].
      apply Qmult_le_0_compat; lra. }
    setoid_replace ((1 - r) * A * (1 + (k + 1) * r))
      with (A * (1 + k * r) - A * ((k + 1) * (r * r)))
      using relation Qeq by ring.
    lra.
Qed.

Lemma lerp_converges (eps : Q) :
  0 < eps -> exists N : nat, forall n, (N <= n)%nat -> Qabs (T - s n) < eps.
Proof.
  intros Heps.
  set (D := Qabs (T - s 0%nat)).
  assert (HD : 0 <= D) by apply Qabs_nonneg.
  assert (Her : 0 < eps * r) by (apply Qmult_lt_0_compat; assumption).
  exists (Z.to_nat (Qceiling (D / (eps * r)))).
  intros n Hn.
  pose proof (lerp_distance_bound n) as Hbound. fold D in Hbound.
  pose proof (Qabs_nonneg (T - s n)) as HA.
  set (A := Qabs (T - s n)) in *.
  assert (Hk : D / (eps * r) <= inject_Z (Z.of_nat n)).
  { apply Qle_trans with (inject_Z (Qceiling (D / (eps * r))));
      [apply Qle_ceiling |].
    rewrite <- Zle_Qle. lia. }
  set (k := inject_Z (Z.of_nat n)) in *.
  assert (HkD : D <= k * (eps * r)).
  { apply Qle_trans with (D / (eps * r) * (eps * r)).
    - apply Qle_lteq. right. field. split; lra.
    - apply Qmult_le_compat_r; lra. }
  assert (Hk0 : 0 <= k).
  { apply Qle_trans with (D / (eps * r)); [| exact Hk].
    apply Qle_shift_div_l; [exact Her | lra]. }
  assert (Hkr : 0 <= k * r) by (apply Qmult_le_0_compat; lra).
  destruct (Qlt_le_dec A eps) as [Hlt | Hge]; [exact Hlt | exfalso].
  assert (Hprod : 0 <= (A - eps) * (1 + k * r))
    by (apply Qmult_le_0_compat; lra).
  assert (Hexp : (A - eps) * (1 + k * r) == A * (1 + k * r) - eps - k * (eps * r))
    by ring.
  lra.
Qed.

End SmootherConvergence.

Section SmootherClaims.

(** C6 (amended).  For every channel name that has morph-target slots in
    the morph cache, every constant target and every rate with
    [0 < rate < 1], repeated calls of the smoother emit
    [previous + (target - previous) * rate] (previous is 0 for a channel
    not smoothed before), store it and write it to every slot of the
    channel; the emitted values move monotonically toward the target,
    never pass it, and come within any positive distance of it.  For a
    name the morph cache does not hold, the call does nothing. *)
Theorem smoother_converges_for_known_channel
    (morphCache : gmap string (list Slot)) (st : MorphState) (nm : string)
    (T r : Q) :
  0 < r -> r < 1 ->
  let s := fun n : nat => smoothedOf (smoothRepeat morphCache st nm T r n) nm in
  (morphCache !! nm = None ->
   forall n, smoothRepeat morphCache st nm T r n = st) /\
  (forall targets : list Slot,
      morphCache !! nm = Some targets ->
      s 0%nat = smoothedOf st nm /\
      (smoothedValues st !! nm = None -> s 0%nat = 0) /\
      (forall n, s (S n) = s n + (T - s n) * r) /\
      (forall (n : nat) (slot : Slot),
          slot ∈ targets ->
          influences (smoothRepeat morphCache st nm T r (S n)) !! slot
            = Some (s (S n))) /\
      (s 0%nat <= T -> forall n, s n <= s (S n) /\ s (S n) <= T) /\
      (T <= s 0%nat -> forall n, T <= s (S n) /\ s (S n) <= s n) /\
      (forall eps : Q,
          0 < eps ->
          exists N : nat, forall n, (N <= n)%nat -> Qabs (T - s n) < eps)).
Proof.
  intros Hr0 Hr1 s. split.
  { intros Hnone n. induction n as [| n IH]; [reflexivity |].
    cbn [smoothRepeat]. rewrite IH. apply smooth_unknown. exact Hnone. }
  intros targets Hknown.
  assert (Hrec : forall n, s (S n) = s n + (T - s n) * r).
  { intros n. unfold s. cbn [smoothRepeat].
    apply (smooth_known morphCache _ nm targets). exact Hknown. }
  assert (Hstep : forall n, s (S n) == s n + (T - s n) * r).
  { intros n. rewrite (Hrec n). reflexivity. }
  split; [reflexivity |].
  split; [intros Hnone; unfold s, smoothedOf; cbn [smoothRepeat];
          rewrite Hnone; reflexivity |].
  split; [exact Hrec |].
  split; [| split; [| split]].
  - intros n slot Hslot. rewrite (Hrec n). unfold s.
    cbn [smoothRepeat]. rewrite smooth_slots, Hknown.
    rewrite bool_decide_eq_true_2 by exact Hslot. reflexivity.
  - intros Hbelow n. apply (lerp_below T r Hr0 Hr1 s Hstep).
    apply (lerp_stays_below T r Hr0 Hr1 s Hstep). exact Hbelow.
  - intros Habove n. apply (lerp_above T r Hr0 Hr1 s Hstep).
    apply (lerp_stays_above T r Hr0 Hr1 s Hstep). exact Habove.
  - intros eps Heps. apply (lerp_converges T r Hr0 Hr1 s Hstep eps Heps).
Qed.

(** One mesh with a slot for browDownL, target 1 at the lipsync rate. *)
Lemma smoother_converges_for_known_channel_witness :
  0 < LIPSYNC_LERP_SPEED /\ LIPSYNC_LERP_SPEED < 1 /\
  exists N : nat,
    forall n, (N <= n)%nat ->
      Qabs (1 - smoothedOf
                  (smoothRepeat {[ "browDownL" := [(0%nat, 3%nat)] ]}
                     (mkMorphState ∅ ∅) "browDownL" 1 LIPSYNC_LERP_SPEED n)
                  "browDownL") < 1 # 100.
Proof.
  assert (Hknown : ({[ "browDownL" := [(0%nat, 3%nat)] ]} : gmap string (list Slot))
                     !! "browDownL" = Some [(0%nat, 3%nat)])
    by apply lookup_singleton_eq.
  assert (Hr0 : 0 < LIPSYNC_LERP_SPEED) by (vm_compute; reflexivity).
  assert (Hr1 : LIPSYNC_LERP_SPEED < 1) by (vm_compute; reflexivity).
  split; [exact Hr0 |]. split; [exact Hr1 |].
  destruct (smoother_converges_for_known_channel
              {[ "browDownL" := [(0%nat, 3%nat)] ]} (mkMorphState ∅ ∅)
              "browDownL" 1 LIPSYNC_LERP_SPEED Hr0 Hr1) as [_ Hall].
  destruct (Hall _ Hknown) as (_ & _ & _ & _ & _ & _ & Hconv).
  apply Hconv. vm_compute. reflexivity.
Defined.

(** C6 (as stated) fails for a channel name the morph cache does not
    hold: with an empty cache every call returns at once, the smoothed
    value of browDownL stays 0 and never comes within 1/2 of the target
    1. *)
Lemma smoother_unknown_channel_counterexample :
  let st := mkMorphState ∅ ∅ in
  let s := fun n : nat => smoothedOf (smoothRepeat ∅ st "browDownL" 1 (1 # 2) n)
                                     "browDownL" in
  (forall n, smoothRepeat ∅ st "browDownL" 1 (1 # 2) n = st) /\
  (forall n, s n = 0) /\
  ~ (exists N : nat, forall n, (N <= n)%nat -> Qabs (1 - s n) < 1 # 2).
Proof.
  cbv zeta.
  assert (Hfix : forall n,
             smoothRepeat ∅ (mkMorphState ∅ ∅) "browDownL" 1 (1 # 2) n
             = mkMorphState ∅ ∅).
  { induction n as [| n IH]; [reflexivity |]. cbn [smoothRepeat]. rewrite IH.
    apply smooth_unknown. apply lookup_empty. }
  split; [exact Hfix |]. split.
  - intros n. rewrite Hfix. reflexivity.
  - intros [N HN]. specialize (HN N (Nat.le_refl N)). rewrite Hfix in HN.
    vm_compute in HN. discriminate HN.
Qed.

End SmootherClaims.

Section JawClaims.

(** C8 (amended).  For every jaw-open value the target rotation is
    [CLOSED_ROTATION + clamp(value, 0, 1) * ROTATION_RANGE]; easing through
    the jaw curve of the sibling hook, the identity, gives the same angle.
    With the configured defaults the angle runs from 1.5708 rad (90
    degrees) at 0 to 2.0071 rad (115 degrees, MAX_OPEN_ROTATION) at 1, not
    to 1.7384 rad (99.6 degrees). *)
Theorem jaw_rotation_range (jawBaseRotationZ : option Q) (jawValue : Q) :
  jawValueToRotation jawBaseRotationZ jawValue =
    CLOSED_ROTATION + clamp01 jawValue * ROTATION_RANGE /\
  jawValueToRotationEased jawBaseRotationZ jawValue ==
    jawValueToRotation jawBaseRotationZ jawValue /\
  CLOSED_ROTATION <= jawValueToRotation jawBaseRotationZ jawValue /\
  jawValueToRotation jawBaseRotationZ jawValue <= CLOSED_ROTATION + ROTATION_RANGE /\
  jawValueToRotation jawBaseRotationZ 0 == 1.5708 /\
  jawValueToRotation jawBaseRotationZ 1 == 2.0071 /\
  CLOSED_ROTATION + ROTATION_RANGE == MAX_OPEN_ROTATION /\
  MAX_OPEN_ROTATION_DEG - CLOSED_ROTATION_DEG == 25 /\
  (0 <= jawValue -> jawValue <= 1 ->
   jawValueToRotation jawBaseRotationZ jawValue == 1.5708 + jawValue * 0.4363).
Proof.
  pose proof (clamp01_range jawValue) as [Hlo Hhi].
  split; [reflexivity |]. split; [| split; [| split; [| split; [| split;
    [| split; [| split]]]]]].
  - unfold jawValueToRotationEased, jawValueToRotation, evaluateJawCurve.
    change (Some JAW_OPEN_CURVE) with (Some identityCurve).
    rewrite evaluateCurve_identity.
    rewrite (clamp01_id (clamp01 jawValue) Hlo Hhi). reflexivity.
  - unfold jawValueToRotation, CLOSED_ROTATION, ROTATION_RANGE.
    assert (H : 0 <= clamp01 jawValue * 0.4363) by (apply Qmult_le_0_compat; lra).
    lra.
  - unfold jawValueToRotation, CLOSED_ROTATION, ROTATION_RANGE.
    assert (H : 0 <= (1 - clamp01 jawValue) * 0.4363)
      by (apply Qmult_le_0_compat; lra).
    lra.
  - vm_compute. reflexivity.
  - vm_compute. reflexivity.
  - vm_compute. reflexivity.
  - vm_compute. reflexivity.
  - intros H0 H1. unfold jawValueToRotation, CLOSED_ROTATION, ROTATION_RANGE.
    rewrite (clamp01_id jawValue H0 H1). reflexivity.
Qed.

(** The half-open jaw. *)
Lemma jaw_rotation_range_witness :
  jawValueToRotation None (1 # 2) == 1.5708 + (1 # 2) * 0.4363.
Proof.
  apply (jaw_rotation_range None (1 # 2)); vm_compute; discriminate.
Defined.

(** C8 (as stated) fails at the fully open jaw: the rotation for 1 is
    2.0071 rad, more than a quarter of a radian away from 1.7384. *)
Lemma jaw_rotation_fully_open_counterexample :
  jawValueToRotation None 1 == 2.0071 /\
  ~ Qabs (jawValueToRotation None 1 - 1.7384) <= 1 # 4.
Proof.
  split; [vm_compute; reflexivity |].
  intros H. vm_compute in H. apply H. reflexivity.
Qed.

End JawClaims.

Section JawFilterFacts.

Variable morphCache : gmap string (list Slot).
Variable lipsyncLerpSpeed : Q.

Lemma applyEntry_smoothed_jaw (st : MorphState) (entry : string * Q) (nm : string) :
  isJawMorph nm = true ->
  smoothedValues (applyEntry morphCache lipsyncLerpSpeed st entry) !! nm
    = smoothedValues st !! nm.
Proof.
  intros Hjaw. destruct entry as [morphName v]. unfold applyEntry.
  destruct (isJawMorph morphName) eqn:E; [reflexivity |].
  destruct (Qltb v 0.001 && negb (bool_decide (is_Some (smoothedValues st !! morphName))));
    [reflexivity |].
  apply smooth_other. intros ->. congruence.
Qed.

Lemma applyEntry_slot_jaw (st : MorphState) (entry : string * Q) (slot : Slot) :
  jawOnlySlot morphCache slot ->
  influences (applyEntry morphCache lipsyncLerpSpeed st entry) !! slot
    = influences st !! slot.
Proof.
  intros Hjaw. destruct entry as [morphName v]. unfold applyEntry.
  destruct (isJawMorph morphName) eqn:E; [reflexivity |].
  destruct (Qltb v 0.001 && negb (bool_decide (is_Some (smoothedValues st !! morphName))));
    [reflexivity |].
  rewrite smooth_slots. destruct (morphCache !! morphName) as [targets |] eqn:Hc;
    [| reflexivity].
  destruct (decide (slot ∈ targets)) as [Hin | Hnotin].
  - specialize (Hjaw morphName targets Hc Hin). congruence.
  - rewrite bool_decide_eq_false_2 by exact Hnotin. reflexivity.
Qed.

Lemma applyEntries_jaw_untouched (entries : list (string * Q)) (st : MorphState) :
  (forall nm, isJawMorph nm = true ->
     smoothedValues (applyEntries morphCache lipsyncLerpSpeed entries st) !! nm
       = smoothedValues st !! nm) /\
  (forall slot, jawOnlySlot morphCache slot ->
     influences (applyEntries morphCache lipsyncLerpSpeed entries st) !! slot
       = influences st !! slot).
Proof.
  unfold applyEntries. revert st.
  induction entries as [| entry entries IH]; intros st; [split; reflexivity |].
  cbn [fold_left]. destruct (IH (applyEntry morphCache lipsyncLerpSpeed st entry))
    as [IHs IHi].
  split.
  - intros nm Hjaw. rewrite (IHs nm Hjaw). apply applyEntry_smoothed_jaw. exact Hjaw.
  - intros slot Hjaw. rewrite (IHi slot Hjaw). apply applyEntry_slot_jaw. exact Hjaw.
Qed.

(** The loop with the filter is the loop without it on the entries that
    pass the filter. *)
Lemma applyEntries_filter (entries : list (string * Q)) (st : MorphState) :
  applyEntries morphCache lipsyncLerpSpeed entries st =
    fold_left (applyEntryUnfiltered morphCache lipsyncLerpSpeed)
              (List.filter (fun entry => negb (isJawMorph (fst entry))) entries) st.
Proof.
  unfold applyEntries. revert st.
  induction entries as [| [morphName v] entries IH]; intros st; [reflexivity |].
  cbn [fold_left List.filter fst]. rewrite IH.
  unfold applyEntry at 1. destruct (isJawMorph morphName); reflexivity.
Qed.

End JawFilterFacts.

Section JawFilterClaims.

(** C10.  In applyMetaHumanToCC5 every converted channel whose name
    contains "JawOpen" or "Jaw_Open" is skipped: its smoothed value is not
    touched and no slot owned only by such channels is written, whether or
    not the rig has a jaw bone (the morph result does not depend on the
    bone).  The filter changes nothing else: the loop is the unfiltered
    loop run on the remaining entries.  The table does produce such
    channels, for example C_CornerPullL_JawOpen. *)
Theorem jaw_morphs_are_never_written
    (order : list string) (morphCache : gmap string (list Slot)) (st : MorphState)
    (currentFrame : list Q) (weight : Q) (jawBone : option JawState)
    (jawBaseRotationZ : option Q) (lipsyncLerpSpeed jawLerpSpeed : Q) :
  let result :=
    applyMetaHumanToCC5 order morphCache st currentFrame weight jawBone
      jawBaseRotationZ lipsyncLerpSpeed jawLerpSpeed in
  let cc5Values :=
    convertMetaHumanToCC5 (buildBlendshapes order 0 currentFrame weight ∅) noOptions in
  (forall nm, isJawMorph nm = true ->
     smoothedValues (fst result) !! nm = smoothedValues st !! nm) /\
  (forall slot, jawOnlySlot morphCache slot ->
     influences (fst result) !! slot = influences st !! slot) /\
  fst result =
    fst (applyMetaHumanToCC5 order morphCache st currentFrame weight None
           jawBaseRotationZ lipsyncLerpSpeed jawLerpSpeed) /\
  fst result =
    fold_left (applyEntryUnfiltered morphCache lipsyncLerpSpeed)
      (List.filter (fun entry => negb (isJawMorph (fst entry)))
                   (map_to_list cc5Values)) st /\
  isJawMorph "C_CornerPullL_JawOpen" = true /\
  List.In "C_CornerPullL_JawOpen" (List.map target METAHUMAN_TO_CC5_MAPPING).
Proof.
  cbv zeta. unfold applyMetaHumanToCC5. cbn [fst].
  split; [| split; [| split; [| split; [| split]]]].
  - apply applyEntries_jaw_untouched.
  - apply applyEntries_jaw_untouched.
  - reflexivity.
  - apply applyEntries_filter.
  - vm_compute. reflexivity.
  - apply existsb_eqb_In. vm_compute. reflexivity.
Qed.

(** A rig whose only slot belongs to C_CornerPullL_JawOpen, and a frame
    that drives that channel to 1: the slot is still not written. *)
Lemma jaw_morphs_are_never_written_witness :
  convertMetaHumanToCC5
    (buildBlendshapes ["CTRL_expressions_jawOpen"; "CTRL_expressions_mouthCornerPullL"]
                      0 [1; 1] 1 ∅) noOptions
    !! "C_CornerPullL_JawOpen" = Some 1 /\
  jawOnlySlot {[ "C_CornerPullL_JawOpen" := [(0%nat, 1%nat)] ]} (0%nat, 1%nat) /\
  influences
    (fst (applyMetaHumanToCC5
            ["CTRL_expressions_jawOpen"; "CTRL_expressions_mouthCornerPullL"]
            {[ "C_CornerPullL_JawOpen" := [(0%nat, 1%nat)] ]}
            (mkMorphState ∅ ∅) [1; 1] 1 None None LIPSYNC_LERP_SPEED JAW_LERP_SPEED))
    !! (0%nat, 1%nat) = influences (mkMorphState ∅ ∅) !! (0%nat, 1%nat).
Proof.
  assert (Hjaw : jawOnlySlot {[ "C_CornerPullL_JawOpen" := [(0%nat, 1%nat)] ]}
                             (0%nat, 1%nat)).
  { intros nm targets Hnm Hslot.
    apply lookup_singleton_Some in Hnm as [<- _]. vm_compute. reflexivity. }
  split; [vm_compute; reflexivity |]. split; [exact Hjaw |].
  destruct (jaw_morphs_are_never_written
              ["CTRL_expressions_jawOpen"; "CTRL_expressions_mouthCornerPullL"]
              {[ "C_CornerPullL_JawOpen" := [(0%nat, 1%nat)] ]} (mkMorphState ∅ ∅)
              [1; 1] 1 None None LIPSYNC_LERP_SPEED JAW_LERP_SPEED)
    as (_ & Hslots & _).
  exact (Hslots (0%nat, 1%nat) Hjaw).
Defined.

End JawFilterClaims.

(* ================================================================== *)
(** * Further properties of the scheduler                              *)
(* ================================================================== *)

(** Case analysis on every branch one tick can take. *)
Ltac tick_cases H :=
  unfold tick in H;
  repeat match type of H with
         | context [match ?x with _ => _ end] => destruct x eqn:?
         end;
  injection H as <- <- <-.

Section SchedulerLifecycle.

(** X1.  A tick never starts playback and never moves startTime; without
    a queue, or while not playing, it leaves the playback state and the
    queue exactly as they were. *)
Theorem tick_never_starts_playback
    (now : Q) (queue queue' : option (list Frame)) (state state' : PlaybackState)
    (action : TickAction) :
  tick now queue state = (state', queue', action) ->
  startTime state' = startTime state /\
  (isPlaying state' = true -> isPlaying state = true) /\
  (isPlaying state = false \/ queue = None ->
   state' = state /\ queue' = queue /\ (action = NoQueue \/ action = FadeToNeutral)).
Proof.
  intros Htick. tick_cases Htick; cbn;
    (split; [reflexivity |]); (split; [congruence |]);
    intros [Hidle | Hnone]; try discriminate;
    try (split; [reflexivity |]; split; [reflexivity |]; tauto);
    try (destruct (isPlaying state); discriminate).
Qed.

(** A non-playing state from which the start handler begins playback. *)
Lemma tick_never_starts_playback_witness :
  let idle := mkPlayback false 7 3 true (1 # 2) in
  tick 100 (Some [FrameArray [1]]) idle = (idle, Some [FrameArray [1]], FadeToNeutral) /\
  startTime idle = 7.
Proof.
  cbv zeta.
  assert (Htick : tick 100 (Some [FrameArray [1]]) (mkPlayback false 7 3 true (1 # 2))
                  = (mkPlayback false 7 3 true (1 # 2), Some [FrameArray [1]],
                     FadeToNeutral)) by (vm_compute; reflexivity).
  split; [exact Htick |].
  exact (proj1 (tick_never_starts_playback _ _ _ _ _ _ Htick)).
Defined.

(** X2.  A tick of a playing state stops playback only when draining was
    signalled: it then empties the queue, clears isDraining and sets
    currentFrameIndex to 0.  Without the draining flag playback goes on
    whatever the queue holds (frame starvation is a hold, not a stop), the
    queue is not reset and the flag stays clear. *)
Theorem playback_stops_only_when_draining
    (now : Q) (queue queue' : option (list Frame)) (state state' : PlaybackState)
    (action : TickAction) :
  tick now queue state = (state', queue', action) ->
  isPlaying state = true ->
  (isPlaying state' = false <-> isStopAction action = true) /\
  (isStopAction action = true ->
   isDraining state = true /\ queue' = Some [] /\
   currentFrameIndex state' = 0%Z /\ isDraining state' = false) /\
  (isDraining state = false ->
   isPlaying state' = true /\ queue' = queue /\ isDraining state' = false).
Proof.
  intros Htick Hplay. tick_cases Htick; cbn in *;
    try congruence;
    repeat match goal with
           | H : _ && _ = true |- _ => apply andb_true_iff in H as [? ?]
           end; cbn in *;
    (split; [split; congruence |]);
    (split; [intros; try discriminate; repeat split; congruence |]);
    intros; repeat split; congruence.
Qed.

(** Draining with a single buffered frame: the tick stops playback. *)
Lemma playback_stops_only_when_draining_witness :
  tick 100 (Some [FrameArray [1]]) (mkPlayback true 0 0 true 0)
    = (mkPlayback false 0 0 false (1000 # 3000), Some [], StopAtLastFrame) /\
  (isPlaying (mkPlayback false 0 0 false (1000 # 3000)) = false
   <-> isStopAction StopAtLastFrame = true).
Proof.
  assert (Htick : tick 100 (Some [FrameArray [1]]) (mkPlayback true 0 0 true 0)
                  = (mkPlayback false 0 0 false (1000 # 3000), Some [],
                     StopAtLastFrame)) by (vm_compute; reflexivity).
  split; [exact Htick |].
  exact (proj1 (playback_stops_only_when_draining _ _ _ _ _ _ Htick eq_refl)).
Defined.

Lemma fade_in_value (now start : Q) :
  elapsedTimeSec now start / LIPSYNC_FADE_IN_DURATION == (now - start) * (1 # 300).
Proof.
  unfold elapsedTimeSec, LIPSYNC_FADE_IN_DURATION, Qdiv.
  change (/ 1000) with (1 # 1000). change (/ 0.3) with (10 # 3). ring.
Qed.

Lemma frameIndexAt_short_buffer (now start : Q) (n : nat) :
  start <= now -> (n <= 16)%nat ->
  frameIndexAt now start n = (Z.of_nat n - 1)%Z.
Proof.
  intros Hle Hn. unfold frameIndexAt.
  pose proof (targetFrameIndex_lead_in start now Hle). lia.
Qed.

(** X3.  While draining, the last buffered frame is never applied: the
    tick whose index reaches it stops playback instead, whatever the
    buffer's length and whatever the frame there holds; it empties the
    queue, clears the draining flag and resets currentFrameIndex.  In
    particular, once draining is signalled, a tick at or after the start
    time over a buffer of at most 16 frames stops without applying any
    frame, because the 15-frame lead-in already points at or beyond the
    last index. *)
Theorem draining_never_applies_last_frame :
  (forall (now : Q) (frames : list Frame) (state state' : PlaybackState)
          (queue' : option (list Frame)) (i : Z) (f : Frame) (w : Q),
      tick now (Some frames) state = (state', queue', ApplyFrame i f w) ->
      isDraining state = true ->
      (i < Z.of_nat (List.length frames) - 1)%Z) /\
  (forall (now : Q) (frames : list Frame) (state : PlaybackState),
      isPlaying state = true -> isDraining state = true ->
      frames <> [] ->
      (Z.of_nat (List.length frames) - 1
       <= Qfloor (((now - startTime state) / 1000) * 60 + 15))%Z ->
      tick now (Some frames) state
      = (mkPlayback false (startTime state) 0 false
           (Qmin 1 ((now - startTime state) / 1000 / LIPSYNC_FADE_IN_DURATION)),
         Some [], StopAtLastFrame)) /\
  (forall (now : Q) (frames : list Frame) (state : PlaybackState),
      isPlaying state = true -> isDraining state = true ->
      frames <> [] -> startTime state <= now ->
      (List.length frames <= 16)%nat ->
      exists state' : PlaybackState,
        tick now (Some frames) state = (state', Some [], StopAtLastFrame) /\
        isPlaying state' = false).
Proof.
  assert (Hstop :
    forall (now : Q) (frames : list Frame) (state : PlaybackState),
      isPlaying state = true -> isDraining state = true ->
      frames <> [] ->
      (Z.of_nat (List.length frames) - 1
       <= targetFrameIndex now (startTime state))%Z ->
      tick now (Some frames) state
      = (mkPlayback false (startTime state) 0 false
           (Qmin 1 (elapsedTimeSec now (startTime state) / LIPSYNC_FADE_IN_DURATION)),
         Some [], StopAtLastFrame)).
  { intros now frames state Hplay Hdrain Hne Hreach. unfold tick.
    rewrite Hplay. cbn [negb].
    assert (Hlen : (List.length frames =? 0)%nat = false)
      by (destruct frames; [contradiction | reflexivity]).
    rewrite Hlen. cbn [setFadeInWeight isDraining].
    rewrite Hdrain, andb_true_r.
    assert (Hlast : (Z.of_nat (List.length frames) - 1
                     <=? frameIndexAt now (startTime state) (List.length frames))%Z
                    = true).
    { apply Z.leb_le. unfold frameIndexAt. lia. }
    rewrite Hlast. reflexivity. }
  split; [| split].
  - intros now frames state state' queue' i f w Htick Hdrain.
    unfold tick in Htick.
    destruct (negb (isPlaying state)); [discriminate |].
    destruct (List.length frames =? 0)%nat;
      [destruct (isDraining state); discriminate |].
    cbn [setFadeInWeight isDraining] in Htick. rewrite Hdrain, andb_true_r in Htick.
    destruct (Z.of_nat (List.length frames) - 1
              <=? frameIndexAt now (startTime state) (List.length frames))%Z eqn:Hlast;
      [discriminate |].
    apply Z.leb_gt in Hlast.
    destruct (_ || _); [discriminate |].
    destruct (nth_error frames _) as [g |]; [| discriminate].
    destruct (isValidFrame g); [| discriminate].
    injection Htick as _ _ <- _ _. exact Hlast.
  - exact Hstop.
  - intros now frames state Hplay Hdrain Hne Hle Hshort.
    rewrite (Hstop now frames state Hplay Hdrain Hne).
    + eexists. split; reflexivity.
    + pose proof (targetFrameIndex_lead_in (startTime state) now Hle). lia.
Qed.

(** Forty buffered frames, draining, half a second after the start: the
    index 45 is past the last frame and the tick stops. *)
Lemma draining_never_applies_last_frame_witness :
  tick 500 (Some (repeat (FrameArray [1]) 40)) (mkPlayback true 0 0 true 0)
  = (mkPlayback false 0 0 false (Qmin 1 ((500 - 0) / 1000 / LIPSYNC_FADE_IN_DURATION)),
     Some [], StopAtLastFrame).
Proof.
  destruct draining_never_applies_last_frame as (_ & Hstop & _).
  apply (Hstop 500 (repeat (FrameArray [1]) 40) (mkPlayback true 0 0 true 0));
    [reflexivity | reflexivity | discriminate | vm_compute; discriminate].
Defined.

(** X4.  The weight handed to the mapping engine with an applied frame is
    the fadeInWeight the tick stored; it is never above 1, is
    [(now - startTime) / 300] during the first 300 ms, exactly saturates
    at 1 from 300 ms on, and is not negative for [now >= startTime]. *)
Theorem fade_in_ramp
    (now : Q) (frames : list Frame) (state state' : PlaybackState)
    (queue' : option (list Frame)) (i : Z) (f : Frame) (w : Q) :
  tick now (Some frames) state = (state', queue', ApplyFrame i f w) ->
  w = fadeInWeight state' /\
  w <= 1 /\
  (startTime state <= now -> 0 <= w) /\
  (now - startTime state <= 300 -> w == (now - startTime state) / 300) /\
  (300 <= now - startTime state -> w == 1).
Proof.
  intros Htick.
  destruct (tick_fetches now frames state state' queue' _ Htick)
    as (_ & _ & _ & _ & [(Hbad & _) | (f' & Hact & Hst & _)]).
  { right. eauto. }
  { discriminate Hbad. }
  injection Hact as _ _ ->. subst state'.
  cbn [setCurrentFrameIndex setFadeInWeight fadeInWeight].
  split; [reflexivity |].
  pose proof (fade_in_value now (startTime state)) as Hv.
  set (e := elapsedTimeSec now (startTime state) / LIPSYNC_FADE_IN_DURATION) in *.
  assert (Hdiv : (now - startTime state) / 300 == (now - startTime state) * (1 # 300)).
  { unfold Qdiv. change (/ 300) with (1 # 300). reflexivity. }
  destruct (Q.min_spec 1 e) as [[Ha Hb] | [Ha Hb]]; rewrite Hb;
    repeat split; intros; try rewrite Hdiv; lra.
Qed.

(** 150 ms into a two-frame buffer the weight is one half. *)
Lemma fade_in_ramp_witness :
  tick 150 (Some [FrameArray [1]; FrameArray [1]]) (mkPlayback true 0 0 false 0)
    = (mkPlayback true 0 1 false (1500 # 3000),
       Some [FrameArray [1]; FrameArray [1]],
       ApplyFrame 1 (FrameArray [1]) (1500 # 3000)) /\
  1500 # 3000 <= 1.
Proof.
  assert (Htick : tick 150 (Some [FrameArray [1]; FrameArray [1]])
                    (mkPlayback true 0 0 false 0)
                  = (mkPlayback true 0 1 false (1500 # 3000),
                     Some [FrameArray [1]; FrameArray [1]],
                     ApplyFrame 1 (FrameArray [1]) (1500 # 3000)))
    by (vm_compute; reflexivity).
  split; [exact Htick |].
  exact (proj1 (proj2 (fade_in_ramp _ _ _ _ _ _ _ _ Htick))).
Defined.

(** X5.  Frames before the lead-in are never applied: on a tick at or
    after the start time the applied index is at least [min(15, last
    index)], so with 16 or more buffered frames the frames 0 to 14 are
    skipped; and the tick taken at the very clock time at which a start
    handler began playback applies exactly that frame with weight 0. *)
Theorem lead_in_frames_are_skipped :
  (forall (now : Q) (frames : list Frame) (state state' : PlaybackState)
          (queue' : option (list Frame)) (i : Z) (f : Frame) (w : Q),
      tick now (Some frames) state = (state', queue', ApplyFrame i f w) ->
      startTime state <= now ->
      (Z.min 15 (Z.of_nat (List.length frames) - 1) <= i)%Z) /\
  (forall (t : Q) (frames : list Frame) (f : Frame),
      nth_error frames (Z.to_nat (Z.min 15 (Z.of_nat (List.length frames) - 1)))
        = Some f ->
      isValidFrame f = true ->
      exists (state' : PlaybackState) (w : Q),
        tick t (Some frames) (beginPlayback t)
          = (state', Some frames,
             ApplyFrame (Z.min 15 (Z.of_nat (List.length frames) - 1)) f w) /\
        w == 0 /\
        currentFrameIndex state' = Z.min 15 (Z.of_nat (List.length frames) - 1)).
Proof.
  split.
  - intros now frames state state' queue' i f w Htick Hle.
    destruct (tick_fetches now frames state state' queue' _ Htick)
      as (_ & _ & _ & _ & [(Hbad & _) | (f' & Hact & _)]).
    { right. eauto. }
    { discriminate Hbad. }
    injection Hact as -> _ _. unfold frameIndexAt.
    pose proof (targetFrameIndex_lead_in (startTime state) now Hle). lia.
  - intros t frames f Hnth Hvalid.
    assert (Hidx : frameIndexAt t t (List.length frames)
                   = Z.min 15 (Z.of_nat (List.length frames) - 1)).
    { unfold frameIndexAt, targetFrameIndex. f_equal.
      change 15%Z with (Qfloor 15). apply Qfloor_comp.
      unfold elapsedTimeSec, TARGET_FPS, FRAME_OFFSET, Qdiv.
      change (/ 1000) with (1 # 1000). ring. }
    assert (Hne : frames <> []).
    { intros ->. destruct (Z.to_nat _); discriminate Hnth. }
    unfold tick. cbn [beginPlayback isPlaying negb startTime].
    assert (Hlen : (List.length frames =? 0)%nat = false)
      by (destruct frames; [contradiction | reflexivity]).
    rewrite Hlen. cbn [setFadeInWeight isDraining].
    rewrite andb_false_r, Hidx.
    set (i := Z.min 15 (Z.of_nat (List.length frames) - 1)) in *.
    assert (Hrange : (0 <= i < Z.of_nat (List.length frames))%Z).
    { apply Nat.eqb_neq in Hlen. unfold i. lia. }
    destruct ((i <? 0)%Z || (Z.of_nat (List.length frames) <=? i)%Z) eqn:E.
    { apply orb_true_iff in E as [E | E];
        [apply Z.ltb_lt in E | apply Z.leb_le in E]; lia. }
    rewrite Hnth, Hvalid. eexists. eexists. split; [reflexivity |].
    split; [| reflexivity].
    cbn [fadeInWeight setFadeInWeight].
    pose proof (fade_in_value t t) as Hv.
    destruct (Q.min_spec 1 (elapsedTimeSec t t / LIPSYNC_FADE_IN_DURATION))
      as [[Ha Hb] | [Ha Hb]]; rewrite Hb; lra.
Qed.

(** Twenty buffered frames: the tick at the start time applies frame 15. *)
Lemma lead_in_frames_are_skipped_witness :
  exists (state' : PlaybackState) (w : Q),
    tick 40 (Some (List.repeat (FrameArray [1]) 20)) (beginPlayback 40)
      = (state', Some (List.repeat (FrameArray [1]) 20),
         ApplyFrame 15 (FrameArray [1]) w) /\
    w == 0 /\ currentFrameIndex state' = 15%Z.
Proof.
  destruct lead_in_frames_are_skipped as [_ Hstart].
  apply (Hstart 40 (List.repeat (FrameArray [1]) 20) (FrameArray [1]));
    vm_compute; reflexivity.
Defined.

Lemma tick_idle (now : Q) (queue : option (list Frame)) (state : PlaybackState) :
  isPlaying state = false ->
  exists action, tick now queue state = (state, queue, action) /\ isIdleAction action.
Proof.
  intros Hidle. unfold tick, isIdleAction. destruct queue as [frames |].
  - rewrite Hidle. cbn [negb]. eauto.
  - eauto.
Qed.

Lemma runTicks_idle (inputs : list (Q * option (list Frame))) (state : PlaybackState) :
  isPlaying state = false ->
  exists actions,
    runTicks inputs state = (state, actions) /\ List.Forall isIdleAction actions.
Proof.
  intros Hidle. induction inputs as [| [now queue] rest IH].
  - exists []. split; [reflexivity | constructor].
  - destruct (tick_idle now queue state Hidle) as (action & Htick & Hact).
    destruct IH as (actions & Hrun & Hall).
    exists (action :: actions). cbn [runTicks]. rewrite Htick, Hrun.
    split; [reflexivity | constructor; assumption].
Qed.

Lemma tick_stop_not_playing (now : Q) (queue queue' : option (list Frame))
    (state state' : PlaybackState) (action : TickAction) :
  tick now queue state = (state', queue', action) ->
  isStopAction action = true -> isPlaying state' = false.
Proof.
  intros Htick Hstop. tick_cases Htick; cbn in *; congruence.
Qed.

Lemma idle_actions_have_no_stop (actions : list TickAction) :
  List.Forall isIdleAction actions -> List.filter isStopAction actions = [].
Proof.
  induction 1 as [| a l [-> | ->] _ IH]; [reflexivity | exact IH | exact IH].
Qed.

(** X6.  In any run of ticks without a start event in between, whatever
    the clock times and whatever the queue holds at each tick, playback is
    stopped at most once; after the stopping tick playback is off and
    every later tick only fades to neutral (or returns for a missing
    queue). *)
Theorem playback_stops_at_most_once
    (inputs : list (Q * option (list Frame))) (state state' : PlaybackState)
    (actions : list TickAction) :
  runTicks inputs state = (state', actions) ->
  (List.length (List.filter isStopAction actions) <= 1)%nat /\
  (forall (before : list TickAction) (action : TickAction) (after : list TickAction),
      actions = (before ++ action :: after)%list -> isStopAction action = true ->
      isPlaying state' = false /\ List.Forall isIdleAction after).
Proof.
  revert state state' actions.
  induction inputs as [| [now queue] rest IH]; intros state state' actions Hrun.
  - injection Hrun as <- <-. split; [cbn; lia |].
    intros [| b before] action after Heq; discriminate Heq.
  - cbn [runTicks] in Hrun.
    destruct (tick now queue state) as [[state1 queue1] action1] eqn:Htick.
    destruct (runTicks rest state1) as [state2 actions2] eqn:Hrest.
    injection Hrun as <- <-.
    destruct (isStopAction action1) eqn:Hstop.
    + pose proof (tick_stop_not_playing _ _ _ _ _ _ Htick Hstop) as Hoff.
      destruct (runTicks_idle rest state1 Hoff) as (acts & Hacts & Hall).
      rewrite Hacts in Hrest. injection Hrest as <- <-.
      split.
      * cbn [List.filter]. rewrite Hstop, (idle_actions_have_no_stop _ Hall).
        cbn. lia.
      * intros [| b before] action after Heq Hact.
        -- injection Heq as <- <-. split; assumption.
        -- injection Heq as <- ->. exfalso.
           apply List.Forall_app in Hall as [_ Hall].
           apply List.Forall_cons_iff in Hall as [[-> | ->] _]; discriminate Hact.
    + destruct (IH _ _ _ Hrest) as [Hcount Hafter]. split.
      * cbn [List.filter]. rewrite Hstop. exact Hcount.
      * intros [| b before] action after Heq Hact.
        -- injection Heq as <- <-. congruence.
        -- injection Heq as <- ->. apply (Hafter before action after eq_refl Hact).
Qed.

(** Twenty frames, draining: a tick inside the buffer, the stopping tick,
    and two more ticks, the last after new frames arrived. *)
Lemma playback_stops_at_most_once_witness :
  let frames := List.repeat (FrameArray [1]) 20 in
  exists state' : PlaybackState,
    runTicks [(0, Some frames); (100, Some frames); (200, Some []); (300, Some frames)]
             (mkPlayback true 0 0 true 0)
      = (state', [ApplyFrame 15 (FrameArray [1]) (0 # 3000); StopAtLastFrame;
                  FadeToNeutral; FadeToNeutral]) /\
    isPlaying state' = false.
Proof.
  cbv zeta. eexists.
  assert (Hrun : runTicks
            [(0, Some (List.repeat (FrameArray [1]) 20));
             (100, Some (List.repeat (FrameArray [1]) 20));
             (200, Some []); (300, Some (List.repeat (FrameArray [1]) 20))]
            (mkPlayback true 0 0 true 0)
          = (mkPlayback false 0 0 false (1000 # 3000),
             [ApplyFrame 15 (FrameArray [1]) (0 # 3000); StopAtLastFrame;
              FadeToNeutral; FadeToNeutral])).
  { vm_compute. reflexivity. }
  split; [exact Hrun |].
  destruct (playback_stops_at_most_once _ _ _ _ Hrun) as [_ Hafter].
  apply (Hafter [ApplyFrame 15 (FrameArray [1]) (0 # 3000)] StopAtLastFrame
                [FadeToNeutral; FadeToNeutral] eq_refl eq_refl).
Defined.

(** X7.  The start handlers act only on a state that is not playing: a
    blendshapes event (with an active conversation) or a speaking change
    to true then begins playback at the current clock time with the
    draining flag cleared; while playing they change nothing, so a second
    event does not re-capture startTime and later ticks apply the same
    frames; without an active conversation the blendshapes event is
    ignored.  The stats handler only sets isDraining and is idempotent. *)
Theorem start_handlers_never_restart :
  (forall (t : Q) (state : PlaybackState),
      isPlaying state = false ->
      handleBlendshapesAdded (Some true) t state = beginPlayback t /\
      onSpeakingChanged true t state = beginPlayback t /\
      isDraining (handleBlendshapesAdded (Some true) t (handleStatsReceived state))
        = false) /\
  (forall (c : option bool) (b : bool) (t : Q) (state : PlaybackState),
      isPlaying state = true ->
      handleBlendshapesAdded c t state = state /\
      onSpeakingChanged b t state = state) /\
  (forall (c1 c2 : option bool) (t1 t2 now : Q) (queue : option (list Frame))
          (state : PlaybackState),
      isPlaying (handleBlendshapesAdded c1 t1 state) = true ->
      handleBlendshapesAdded c2 t2 (handleBlendshapesAdded c1 t1 state)
        = handleBlendshapesAdded c1 t1 state /\
      tick now queue (handleBlendshapesAdded c2 t2 (handleBlendshapesAdded c1 t1 state))
        = tick now queue (handleBlendshapesAdded c1 t1 state)) /\
  (forall (t : Q) (state : PlaybackState),
      handleBlendshapesAdded None t state = state /\
      handleBlendshapesAdded (Some false) t state = state /\
      onSpeakingChanged false t state = state) /\
  (forall state : PlaybackState,
      handleStatsReceived (handleStatsReceived state) = handleStatsReceived state /\
      isPlaying (handleStatsReceived state) = isPlaying state /\
      startTime (handleStatsReceived state) = startTime state /\
      isDraining (handleStatsReceived state) = true).
Proof.
  split; [| split; [| split; [| split]]].
  - intros t state Hidle. unfold handleBlendshapesAdded, onSpeakingChanged.
    cbn [handleStatsReceived isPlaying]. rewrite Hidle. cbn. repeat split.
  - intros c b t state Hplay. unfold handleBlendshapesAdded, onSpeakingChanged.
    rewrite Hplay, !andb_false_r. split; reflexivity.
  - intros c1 c2 t1 t2 now queue state Hplay.
    assert (Hsame : handleBlendshapesAdded c2 t2 (handleBlendshapesAdded c1 t1 state)
                    = handleBlendshapesAdded c1 t1 state).
    { unfold handleBlendshapesAdded at 1. rewrite Hplay, andb_false_r. reflexivity. }
    rewrite Hsame. split; reflexivity.
  - intros t state. repeat split.
  - intros state. repeat split.
Qed.

(** A second blendshapes event 50 ms after the first. *)
Lemma start_handlers_never_restart_witness :
  handleBlendshapesAdded (Some true) 1050
    (handleBlendshapesAdded (Some true) 1000 (mkPlayback false 0 0 true 0))
  = beginPlayback 1000.
Proof.
  destruct start_handlers_never_restart as (Hstart & _ & Honce & _).
  destruct (Honce (Some true) (Some true) 1000 1050 0 None
                  (mkPlayback false 0 0 true 0) eq_refl) as [Hsame _].
  rewrite Hsame. apply (Hstart 1000 (mkPlayback false 0 0 true 0) eq_refl).
Defined.

End SchedulerLifecycle.

(* ================================================================== *)
(** * Further properties of the mapping engine                         *)
(* ================================================================== *)

#[global] Instance stringLe_total : Total stringLe.
Proof. intros s1 s2. apply String.leb_total. Qed.

Section ChannelNames.

Lemma setAdd_In (channels : list string) (channel k : string) :
  List.In k (setAdd channels channel) <-> List.In k channels \/ k = channel.
Proof.
  unfold setAdd. destruct (existsb (String.eqb channel) channels) eqn:E.
  - apply existsb_eqb_In in E. split; [tauto | intros [H | ->]; assumption].
  - rewrite List.in_app_iff. cbn. intuition (subst; auto).
Qed.

Lemma setAdd_NoDup (channels : list string) (channel : string) :
  List.NoDup channels -> List.NoDup (setAdd channels channel).
Proof.
  intros Hnd. unfold setAdd.
  destruct (existsb (String.eqb channel) channels) eqn:E; [exact Hnd |].
  apply NoDup_ListNoDup. apply NoDup_ListNoDup in Hnd.
  apply NoDup_app. split; [exact Hnd |]. split; [| apply NoDup_singleton].
  intros x Hx Hx'. apply list_elem_of_singleton in Hx'. subst x.
  apply list_elem_of_In, existsb_eqb_In in Hx. congruence.
Qed.

Lemma fold_setAdd (src channels : list string) :
  (forall k, List.In k (fold_left setAdd src channels)
             <-> List.In k channels \/ List.In k src) /\
  (List.NoDup channels -> List.NoDup (fold_left setAdd src channels)).
Proof.
  revert channels. induction src as [| c src IH]; intros channels.
  - cbn. split; [tauto | auto].
  - cbn [fold_left]. destruct (IH (setAdd channels c)) as [IHin IHnd]. split.
    + intros k. rewrite IHin, setAdd_In. cbn. intuition auto.
    + intros Hnd. apply IHnd, setAdd_NoDup, Hnd.
Qed.

Lemma fold_rules_setAdd (rules : list MappingRule) (channels : list string) :
  let result :=
    fold_left (fun channels m => fold_left setAdd (source m) channels) rules channels in
  (forall k, List.In k result
             <-> List.In k channels \/ exists m, List.In m rules /\ List.In k (source m)) /\
  (List.NoDup channels -> List.NoDup result).
Proof.
  cbv zeta. revert channels. induction rules as [| m rules IH]; intros channels.
  - cbn. split; [| auto]. intros k. split; [tauto |].
    intros [H | (m & [] & _)]. exact H.
  - cbn [fold_left].
    destruct (IH (fold_left setAdd (source m) channels)) as [IHin IHnd].
    destruct (fold_setAdd (source m) channels) as [Hin Hnd]. split.
    + intros k. rewrite IHin, Hin. split.
      * intros [[H | H] | (m' & Hm' & Hk)]; [tauto | | ].
        -- right. exists m. split; [left; reflexivity | exact H].
        -- right. exists m'. split; [right; exact Hm' | exact Hk].
      * intros [H | (m' & [<- | Hm'] & Hk)]; [tauto | tauto |].
        right. exists m'. tauto.
    + intros H. apply IHnd, Hnd, H.
Qed.

Lemma sortStrings_In (names : list string) (k : string) :
  List.In k (sortStrings names) <-> List.In k names.
Proof.
  unfold sortStrings. rewrite <- !list_elem_of_In.
  rewrite (merge_sort_Permutation stringLe names). reflexivity.
Qed.

Lemma sortStrings_NoDup (names : list string) :
  List.NoDup names -> List.NoDup (sortStrings names).
Proof.
  intros H. apply NoDup_ListNoDup. apply NoDup_ListNoDup in H.
  unfold sortStrings. rewrite (merge_sort_Permutation stringLe names). exact H.
Qed.

Lemma fold_left_ext_In {A B : Type} (f g : A -> B -> A) (l : list B) (a : A) :
  (forall acc x, List.In x l -> f acc x = g acc x) ->
  fold_left f l a = fold_left g l a.
Proof.
  revert a. induction l as [| x l IH]; intros a H; [reflexivity |].
  cbn [fold_left]. rewrite (H a x) by (left; reflexivity).
  apply IH. intros acc y Hy. apply H. right. exact Hy.
Qed.

Lemma ruleValue_ext (bs1 bs2 : gmap string Q) (m : MappingRule) :
  (forall k, List.In k (source m) -> sourceValue bs1 k = sourceValue bs2 k) ->
  ruleValue bs1 m = ruleValue bs2 m.
Proof.
  intros H. unfold ruleValue.
  assert (Hc : combinedValue bs1 m = combinedValue bs2 m).
  { unfold combinedValue, addValue, limitValue.
    destruct (String.eqb (mode m) "Add").
    - apply fold_left_ext_In. intros acc k Hk. rewrite (H k Hk). reflexivity.
    - destruct (String.eqb (mode m) "Limit"); [| reflexivity].
      destruct (source m) as [| s0 [| s1 rest]].
      + reflexivity.
      + cbn. apply H. left. reflexivity.
      + cbn [List.length Nat.eqb List.hd List.tl].
        rewrite (H s0) by (left; reflexivity).
        apply fold_left_ext_In. intros acc k Hk.
        rewrite (H k) by (right; exact Hk). reflexivity. }
  rewrite Hc. reflexivity.
Qed.

Lemma metaHumanChannelNames_spec (rules : list MappingRule) :
  List.NoDup (metaHumanChannelNamesOf rules) /\
  (forall k, List.In k (metaHumanChannelNamesOf rules)
             <-> exists m, List.In m rules /\ List.In k (source m)).
Proof.
  destruct (fold_rules_setAdd rules []) as [Hin Hnd]. cbv zeta in Hin, Hnd.
  split; [apply sortStrings_NoDup, Hnd; constructor |].
  intros k. unfold metaHumanChannelNamesOf. rewrite sortStrings_In, Hin.
  cbn. tauto.
Qed.

(** X8.  getMetaHumanChannelNames lists, sorted and without duplicates,
    exactly the channels that occur as a source of some rule, and the
    converter reads no other channel: two frames that agree (after
    [|| 0]) on the listed channels are converted to the same object. *)
Theorem converter_reads_only_listed_channels (rules : list MappingRule) :
  Sorted stringLe (metaHumanChannelNamesOf rules) /\
  List.NoDup (metaHumanChannelNamesOf rules) /\
  (forall k, List.In k (metaHumanChannelNamesOf rules)
             <-> exists m, List.In m rules /\ List.In k (source m)) /\
  (forall (bs1 bs2 : gmap string Q) (options : Options),
      (forall k, List.In k (metaHumanChannelNamesOf rules) ->
                 sourceValue bs1 k = sourceValue bs2 k) ->
      convertWith rules bs1 options = convertWith rules bs2 options).
Proof.
  destruct (fold_rules_setAdd rules []) as [Hin Hnd]. cbv zeta in Hin, Hnd.
  assert (Hmem : forall k, List.In k (metaHumanChannelNamesOf rules)
                           <-> exists m, List.In m rules /\ List.In k (source m)).
  { intros k. unfold metaHumanChannelNamesOf. rewrite sortStrings_In, Hin.
    cbn. tauto. }
  split; [apply (Sorted_merge_sort stringLe) |].
  split; [apply sortStrings_NoDup, Hnd; constructor |].
  split; [exact Hmem |].
  intros bs1 bs2 options Hagree. unfold convertWith, mappingPass. f_equal.
  apply fold_left_ext_In. intros acc m Hm. unfold applyRule.
  rewrite (ruleValue_ext bs1 bs2 m); [reflexivity |].
  intros k Hk. apply Hagree, Hmem. exists m. split; assumption.
Qed.

(** A frame with an extra, unlisted channel converts like the empty one. *)
Lemma converter_reads_only_listed_channels_witness :
  convertWith METAHUMAN_TO_CC5_MAPPING (<["CTRL_expressions_unlisted" := 1]> ∅) noOptions
  = convertWith METAHUMAN_TO_CC5_MAPPING ∅ noOptions.
Proof.
  apply (converter_reads_only_listed_channels METAHUMAN_TO_CC5_MAPPING).
  intros k Hk. unfold sourceValue.
  rewrite lookup_insert_ne; [reflexivity |].
  intros <-. apply existsb_eqb_In in Hk. vm_compute in Hk. discriminate Hk.
Defined.

End ChannelNames.

Section ConvertedKeys.

Lemma productOf_is_Some (results : list Q) :
  is_Some (productOf results) <-> results <> [].
Proof.
  destruct results as [| r rest]; cbn.
  - split; [intros [x Hx]; discriminate Hx | congruence].
  - split; [discriminate | eauto].
Qed.

Lemma mappingPass_is_Some (rules : list MappingRule) (bs : gmap string Q) (t : string) :
  is_Some (mappingPass rules bs !! t) <-> List.In t (List.map target rules).
Proof.
  rewrite mappingPass_lookup, productOf_is_Some. unfold contributions.
  rewrite List.in_map_iff. split.
  - intros Hne.
    destruct (List.filter (fun m => String.eqb (target m) t) rules) as [| m l] eqn:E;
      [contradiction Hne; reflexivity |].
    assert (Hin : List.In m (List.filter (fun m => String.eqb (target m) t) rules))
      by (rewrite E; left; reflexivity).
    apply List.filter_In in Hin as [Hin Ht]. apply String.eqb_eq in Ht. eauto.
  - intros (m & Ht & Hin) Hnil.
    assert (Hm : List.In m (List.filter (fun m => String.eqb (target m) t) rules)).
    { apply List.filter_In. split; [exact Hin | apply String.eqb_eq, Ht]. }
    apply List.map_eq_nil in Hnil. rewrite Hnil in Hm. destruct Hm.
Qed.

(** X9.  The keys of the converted object do not depend on the frame or
    on the offset: they are the targets of the rule table together with
    the two teeth correctives.  getCC5ChannelNames is the sorted list of
    the targets (duplicates kept), and for METAHUMAN_TO_CC5_MAPPING, which
    already targets both teeth correctives, the converted object has
    exactly the keys that getCC5ChannelNames lists. *)
Theorem converted_keys_are_the_targets :
  (forall (rules : list MappingRule) (bs : gmap string Q) (options : Options)
          (t : string),
      is_Some (convertWith rules bs options !! t)
      <-> List.In t (List.map target rules) \/ List.In t teethCorrectives) /\
  (forall rules : list MappingRule,
      Sorted stringLe (cc5ChannelNamesOf rules) /\
      cc5ChannelNamesOf rules ≡ₚ List.map target rules) /\
  (forall (bs : gmap string Q) (options : Options) (t : string),
      is_Some (convertMetaHumanToCC5 bs options !! t)
      <-> List.In t getCC5ChannelNames).
Proof.
  assert (Hkeys : forall (rules : list MappingRule) (bs : gmap string Q)
                         (options : Options) (t : string),
             is_Some (convertWith rules bs options !! t)
             <-> List.In t (List.map target rules) \/ List.In t teethCorrectives).
  { intros rules bs options t.
    destruct (List.in_dec string_dec t teethCorrectives) as [Hteeth | Hother].
    - rewrite convertWith_lookup_teeth by exact Hteeth. split; [tauto | eauto].
    - rewrite convertWith_lookup_other by exact Hother.
      rewrite mappingPass_is_Some. tauto. }
  split; [exact Hkeys |]. split.
  - intros rules. split; [apply (Sorted_merge_sort stringLe) |].
    apply merge_sort_Permutation.
  - intros bs options t. rewrite convertMetaHumanToCC5_unfold, Hkeys.
    unfold getCC5ChannelNames, cc5ChannelNamesOf. rewrite sortStrings_In.
    split; [| tauto]. intros [H | H]; [exact H |].
    destruct H as [<- | [<- | []]]; apply existsb_eqb_In; vm_compute; reflexivity.
Qed.

(** The key C_BlinkL on a frame that has nothing to do with blinking. *)
Lemma converted_keys_are_the_targets_witness :
  is_Some (convertMetaHumanToCC5 (<["CTRL_expressions_jawOpen" := 1]> ∅) noOptions
             !! "C_BlinkL").
Proof.
  apply converted_keys_are_the_targets.
  apply existsb_eqb_In. vm_compute. reflexivity.
Defined.

(** X10.  getMappingStats: [total] and [targetChannels] are both the
    number of rules, [add + limit] never exceeds [total] and equals it
    exactly when every rule's mode is "Add" or "Limit", and
    [sourceChannels] counts distinct channels, so it is at most the number
    of listed sources. *)
Theorem mapping_stats_are_consistent (rules : list MappingRule) :
  let stats := mappingStatsOf rules in
  statsTargetChannels stats = statsTotal stats /\
  statsTotal stats = List.length rules /\
  (statsAdd stats + statsLimit stats <= statsTotal stats)%nat /\
  ((statsAdd stats + statsLimit stats = statsTotal stats)%nat <->
   forall m, List.In m rules -> mode m = "Add" \/ mode m = "Limit") /\
  (statsSourceChannels stats
   <= List.length (List.concat (List.map source rules)))%nat.
Proof.
  cbv zeta. unfold mappingStatsOf.
  cbn [statsTotal statsAdd statsLimit statsSourceChannels statsTargetChannels].
  split; [| split; [reflexivity |]].
  { unfold cc5ChannelNamesOf, sortStrings.
    rewrite (merge_sort_Permutation stringLe (List.map target rules)).
    apply List.length_map. }
  assert (Hcount : forall l : list MappingRule,
             (List.length (List.filter (fun m => String.eqb (mode m) "Add") l)
              + List.length (List.filter (fun m => String.eqb (mode m) "Limit") l)
              <= List.length l)%nat /\
             ((List.length (List.filter (fun m => String.eqb (mode m) "Add") l)
               + List.length (List.filter (fun m => String.eqb (mode m) "Limit") l)
               = List.length l)%nat <->
              forall m, List.In m l -> mode m = "Add" \/ mode m = "Limit")).
  { induction l as [| m l [IHle IHeq]]; [cbn; split; [lia | split; [intros _ m [] | reflexivity]] |].
    cbn [List.filter List.length].
    destruct (String.eqb (mode m) "Add") eqn:Ea;
      destruct (String.eqb (mode m) "Limit") eqn:El; cbn [List.length].
    - apply String.eqb_eq in Ea, El. congruence.
    - apply String.eqb_eq in Ea. split; [lia |]. split.
      + intros H m' [<- | Hm']; [left; exact Ea | apply IHeq; [lia | exact Hm']].
      + intros H. assert (Hl : forall m', List.In m' l -> mode m' = "Add" \/ mode m' = "Limit")
          by (intros m' Hm'; apply H; right; exact Hm').
        apply IHeq in Hl. lia.
    - apply String.eqb_eq in El. split; [lia |]. split.
      + intros H m' [<- | Hm']; [right; exact El | apply IHeq; [lia | exact Hm']].
      + intros H. assert (Hl : forall m', List.In m' l -> mode m' = "Add" \/ mode m' = "Limit")
          by (intros m' Hm'; apply H; right; exact Hm').
        apply IHeq in Hl. lia.
    - apply String.eqb_neq in Ea, El. split; [lia |]. split; [lia |].
      intros H. destruct (H m (or_introl eq_refl)); contradiction. }
  destruct (Hcount rules) as [Hle Heq]. split; [exact Hle |]. split; [exact Heq |].
  destruct (metaHumanChannelNames_spec rules) as [Hnd Hin].
  apply NoDup_ListNoDup in Hnd.
  apply (submseteq_length (metaHumanChannelNamesOf rules)).
  apply NoDup_submseteq; [exact Hnd |].
  intros k Hk. apply list_elem_of_In, Hin in Hk as (m & Hm & Hk).
  apply list_elem_of_In, List.in_concat. exists (source m). split; [| exact Hk].
  apply List.in_map. exact Hm.
Qed.

End ConvertedKeys.

Section ProductBounds.

Variable f : string -> Q.

Let productFrom (acc : Q) (l : list string) : Q :=
  fold_left (fun product k => product * f k) l acc.

Lemma product_zero (l : list string) (acc : Q) :
  acc == 0 \/ (exists k, List.In k l /\ f k == 0) -> productFrom acc l == 0.
Proof.
  unfold productFrom. revert acc. induction l as [| x l IH]; intros acc H.
  - cbn. destruct H as [H | (k & [] & _)]. exact H.
  - cbn [fold_left]. apply IH. destruct H as [H | (k & [<- | Hk] & Hz)].
    + left. rewrite H. ring.
    + left. rewrite Hz. ring.
    + right. eauto.
Qed.

Lemma product_bounds (l : list string) (acc : Q) :
  0 <= acc -> acc <= 1 ->
  (forall k, List.In k l -> 0 <= f k /\ f k <= 1) ->
  0 <= productFrom acc l /\ productFrom acc l <= acc /\
  (forall k, List.In k l -> productFrom acc l <= f k).
Proof.
  unfold productFrom. revert acc. induction l as [| x l IH]; intros acc H0 H1 Hall.
  - cbn. split; [exact H0 |]. split; [lra | intros k []].
  - cbn [fold_left]. destruct (Hall x (or_introl eq_refl)) as [Hx0 Hx1].
    assert (Hp0 : 0 <= acc * f x) by (apply Qmult_le_0_compat; assumption).
    assert (Hpa : 0 <= acc * (1 - f x)) by (apply Qmult_le_0_compat; lra).
    assert (Hpx : 0 <= (1 - acc) * f x) by (apply Qmult_le_0_compat; lra).
    destruct (IH (acc * f x)) as (IH0 & IH1 & IHk); [exact Hp0 | lra | |].
    { intros k Hk. apply Hall. right. exact Hk. }
    split; [exact IH0 |]. split; [lra |].
    intros k [<- | Hk]; [lra | apply IHk, Hk].
Qed.

End ProductBounds.

Section AndLike.

(** X11.  The corrective combination is AND-like.  An Add value is 0 as
    soon as one listed source is absent or 0; when the listed sources lie
    in [0,1] it lies in [0,1] and is no larger than any of them.  A Limit
    value over two or more sources, with all of them in [0,1], is at most
    the ceiling (the first source) and at most every later source. *)
Theorem combination_is_and_like (bs : gmap string Q) (src : list string) :
  ((exists k, List.In k src /\ sourceValue bs k == 0) -> addValue bs src == 0) /\
  ((forall k, List.In k src -> 0 <= sourceValue bs k /\ sourceValue bs k <= 1) ->
   0 <= addValue bs src /\ addValue bs src <= 1 /\
   (forall k, List.In k src -> addValue bs src <= sourceValue bs k) /\
   (forall (s0 s1 : string) (rest : list string),
       src = s0 :: s1 :: rest ->
       0 <= limitValue bs src /\
       (forall k, List.In k src -> limitValue bs src <= sourceValue bs k))).
Proof.
  split.
  - intros Hz. unfold addValue. apply (product_zero (sourceValue bs)). right. exact Hz.
  - intros Hall. unfold addValue.
    destruct (product_bounds (sourceValue bs) src 1) as (H0 & H1 & Hsrc);
      [lra | lra | exact Hall |].
    split; [exact H0 |]. split; [exact H1 |]. split; [exact Hsrc |].
    intros s0 s1 rest ->. unfold limitValue.
    cbn [List.length Nat.eqb List.hd List.tl].
    destruct (Hall s0 (or_introl eq_refl)) as [Hs0 Hs1].
    set (limit := sourceValue bs s0) in *.
    assert (Hcap : forall k, List.In k (s1 :: rest) ->
                     0 <= Qmin limit (sourceValue bs k) /\
                     Qmin limit (sourceValue bs k) <= 1).
    { intros k Hk. destruct (Hall k (or_intror Hk)) as [Hk0 Hk1].
      destruct (Q.min_spec limit (sourceValue bs k)) as [[Ha Hb] | [Ha Hb]];
        rewrite Hb; split; lra. }
    destruct (product_bounds (fun k => Qmin limit (sourceValue bs k)) (s1 :: rest) 1)
      as (L0 & _ & Lk); [lra | lra | exact Hcap |].
    split; [exact L0 |].
    assert (Hmin : forall k, List.In k (s1 :: rest) ->
              fold_left (fun product key => product * Qmin limit (sourceValue bs key))
                        (s1 :: rest) 1
              <= limit /\
              fold_left (fun product key => product * Qmin limit (sourceValue bs key))
                        (s1 :: rest) 1
              <= sourceValue bs k).
    { intros k Hk. specialize (Lk k Hk). cbv beta in Lk.
      destruct (Q.min_spec limit (sourceValue bs k)) as [[Ha Hb] | [Ha Hb]];
        rewrite Hb in Lk; split; lra. }
    intros k [<- | Hk].
    + apply (Hmin s1). left. reflexivity.
    + apply (Hmin k Hk).
Qed.

(** Two sources at 0.7 and 0.4. *)
Lemma combination_is_and_like_witness :
  addValue (<["a" := 0.7]> (<["b" := 0.4]> ∅)) ["a"; "b"]
  <= sourceValue (<["a" := 0.7]> (<["b" := 0.4]> ∅)) "b".
Proof.
  destruct (combination_is_and_like (<["a" := 0.7]> (<["b" := 0.4]> ∅)) ["a"; "b"])
    as [_ Hbound].
  destruct Hbound as (_ & _ & Hk & _).
  - intros k [<- | [<- | []]]; vm_compute; split; discriminate.
  - apply Hk. right. left. reflexivity.
Defined.

End AndLike.

Section PlaybackEyeControls.

Lemma buildBlendshapes_eye (order : list string) (index : nat) (frame : list Q)
    (w : Q) (bs0 : gmap string Q) (k : string) :
  isEyeControl k = true ->
  buildBlendshapes order index frame w bs0 !! k = bs0 !! k.
Proof.
  intros Heye. revert index bs0.
  induction order as [| ctrlName rest IH]; intros index bs0; [reflexivity |].
  cbn [buildBlendshapes]. rewrite IH.
  destruct (nth_error frame index) as [v |]; [| reflexivity].
  destruct (Qeq_bool v 0); [reflexivity |].
  destruct (isEyeControl ctrlName) eqn:E; [reflexivity |].
  apply lookup_insert_ne. intros ->. congruence.
Qed.

Lemma buildBlendshapes_entries (order : list string) (index : nat) (frame : list Q)
    (w : Q) (bs0 : gmap string Q) (k : string) (v : Q) :
  buildBlendshapes order index frame w bs0 !! k = Some v ->
  bs0 !! k = Some v \/
  exists (i : nat) (x : Q),
    nth_error order i = Some k /\ nth_error frame (index + i) = Some x /\
    ~ x == 0 /\ isEyeControl k = false /\ v = x * w.
Proof.
  revert index bs0. induction order as [| ctrlName rest IH]; intros index bs0 H.
  - left. exact H.
  - cbn [buildBlendshapes] in H. apply IH in H as [H | (i & x & Hi & Hx & Hrest)].
    + destruct (nth_error frame index) as [x |] eqn:Hx; [| left; exact H].
      destruct (Qeq_bool x 0) eqn:Hz; [left; exact H |].
      destruct (isEyeControl ctrlName) eqn:E; [left; exact H |].
      apply lookup_insert_Some in H as [[<- <-] | [_ H]]; [| left; exact H].
      right. exists 0%nat, x. rewrite Nat.add_0_r.
      repeat split; try assumption.
      intros Hq. apply Qeq_bool_iff in Hq. congruence.
    + right. exists (S i), x. rewrite Nat.add_succ_r. cbn [nth_error].
      split; [exact Hi |]. split; [exact Hx | exact Hrest].
Qed.

Lemma table_rule_value (bs : gmap string Q) (t : string) (m : MappingRule) :
  List.find (fun r => String.eqb (target r) t) METAHUMAN_TO_CC5_MAPPING = Some m ->
  mappingPass METAHUMAN_TO_CC5_MAPPING bs !! t = Some (ruleValue bs m).
Proof.
  intros E. apply List.find_some in E as [Hm Ht]. apply String.eqb_eq in Ht.
  subst t. apply mappingPass_unique_target; [apply table_targets_distinct | exact Hm].
Qed.

(** X12.  On the playback path the frame is turned into a named object
    that never holds a blink or eye-look control and holds, for any other
    control, only non-zero frame entries multiplied by the fade-in
    weight; zero entries and entries beyond the frame's length are left
    out.  Hence the converted C_BlinkL and C_BlinkR are 0 on every tick,
    whatever the frame says about blinking. *)
Theorem playback_drops_eye_controls
    (order : list string) (currentFrame : list Q) (weight : Q) :
  let bs := buildBlendshapes order 0 currentFrame weight ∅ in
  (forall k, isEyeControl k = true -> bs !! k = None) /\
  (forall (k : string) (v : Q),
      bs !! k = Some v ->
      exists (i : nat) (x : Q),
        nth_error order i = Some k /\ nth_error currentFrame i = Some x /\
        ~ x == 0 /\ v = x * weight) /\
  convertMetaHumanToCC5 bs noOptions !! "C_BlinkL" = Some 0 /\
  convertMetaHumanToCC5 bs noOptions !! "C_BlinkR" = Some 0.
Proof.
  cbv zeta.
  assert (Heye : forall k, isEyeControl k = true ->
                   buildBlendshapes order 0 currentFrame weight ∅ !! k = None).
  { intros k Hk. rewrite buildBlendshapes_eye by exact Hk. apply lookup_empty. }
  split; [exact Heye |]. split.
  - intros k v H. apply buildBlendshapes_entries in H as [H | (i & x & Hi & Hx & Hz & _ & Hv)].
    + rewrite lookup_empty in H. discriminate H.
    + exists i, x. repeat split; assumption.
  - set (bs := buildBlendshapes order 0 currentFrame weight ∅) in *.
    rewrite convertMetaHumanToCC5_unfold.
    rewrite (convertWith_lookup_other _ bs noOptions "C_BlinkL")
      by (intros [H | [H | []]]; discriminate H).
    rewrite (convertWith_lookup_other _ bs noOptions "C_BlinkR")
      by (intros [H | [H | []]]; discriminate H).
    split.
    + erewrite table_rule_value by (vm_compute; reflexivity).
      unfold ruleValue, combinedValue, addValue, sourceValue.
      cbn [mode source curve hasCurve String.eqb Ascii.eqb Bool.eqb fold_left].
      rewrite (Heye "CTRL_expressions_eyeBlinkL" eq_refl). vm_compute. reflexivity.
    + erewrite table_rule_value by (vm_compute; reflexivity).
      unfold ruleValue, combinedValue, addValue, sourceValue.
      cbn [mode source curve hasCurve String.eqb Ascii.eqb Bool.eqb fold_left].
      rewrite (Heye "CTRL_expressions_eyeBlinkR" eq_refl). vm_compute. reflexivity.
Qed.

End PlaybackEyeControls.

(* ================================================================== *)
(** * Further properties of the smoother, jaw, blink and reset helpers *)
(* ================================================================== *)

Section NeutralReset.

Variable morphCache : gmap string (list Slot).
Variable speed : Q.

Lemma smoothedOf_other (st : MorphState) (nm other : string) (targetValue : Q) :
  nm <> other ->
  smoothedOf (applyMorphValueSmooth morphCache st nm targetValue speed) other
    = smoothedOf st other.
Proof.
  intros Hne. unfold smoothedOf. rewrite smooth_other by exact Hne. reflexivity.
Qed.

Lemma resetMorph_other (st : MorphState) (entry : string * list Slot) (nm : string) :
  fst entry <> nm ->
  smoothedValues (resetMorph morphCache speed st entry) !! nm = smoothedValues st !! nm.
Proof.
  intros Hne. unfold resetMorph.
  destruct (_ || _); [reflexivity |]. apply smooth_other. exact Hne.
Qed.

Lemma fold_resetMorph_untouched (entries : list (string * list Slot))
    (st : MorphState) (nm : string) :
  (isBlinkMorph nm = true \/ ~ List.In nm (List.map fst entries)) ->
  smoothedValues (fold_left (resetMorph morphCache speed) entries st) !! nm
    = smoothedValues st !! nm.
Proof.
  revert st. induction entries as [| entry entries IH]; intros st H; [reflexivity |].
  cbn [fold_left]. rewrite IH.
  - destruct (string_dec (fst entry) nm) as [Heq | Hne].
    + destruct H as [Hblink | Hnotin].
      * unfold resetMorph. rewrite Heq. unfold isBlinkMorph in Hblink.
        rewrite Hblink. reflexivity.
      * exfalso. apply Hnotin. left. exact Heq.
    + apply resetMorph_other. exact Hne.
  - destruct H as [H | H]; [left; exact H | right].
    intros Hin. apply H. right. exact Hin.
Qed.

Lemma fold_resetMorph_decays (entries : list (string * list Slot))
    (st : MorphState) (nm : string) :
  List.NoDup (List.map fst entries) ->
  (forall entry, List.In entry entries -> morphCache !! fst entry = Some (snd entry)) ->
  List.In nm (List.map fst entries) -> isBlinkMorph nm = false ->
  smoothedValues (fold_left (resetMorph morphCache speed) entries st) !! nm
    = Some (smoothedOf st nm + (0 - smoothedOf st nm) * speed).
Proof.
  revert st. induction entries as [| entry entries IH];
    intros st Hnd Hcache Hin Hblink; [destruct Hin |].
  cbn [List.map] in Hnd. apply List.NoDup_cons_iff in Hnd as [Hfresh Hnd].
  cbn [fold_left]. destruct (string_dec (fst entry) nm) as [Heq | Hne].
  - rewrite fold_resetMorph_untouched by (right; rewrite <- Heq; exact Hfresh).
    unfold resetMorph. rewrite Heq. unfold isBlinkMorph in Hblink. rewrite Hblink.
    unfold applyMorphValueSmooth.
    rewrite <- Heq, (Hcache entry (or_introl eq_refl)). cbn [smoothedValues].
    rewrite lookup_insert_eq. reflexivity.
  - destruct Hin as [Hin | Hin]; [contradiction |].
    rewrite IH; try assumption.
    + unfold smoothedOf. rewrite resetMorph_other by exact Hne. reflexivity.
    + intros e He. apply Hcache. right. exact He.
Qed.

Lemma cache_entries_spec :
  List.NoDup (List.map fst (map_to_list morphCache)) /\
  (forall entry, List.In entry (map_to_list morphCache) ->
                 morphCache !! fst entry = Some (snd entry)) /\
  (forall nm, List.In nm (List.map fst (map_to_list morphCache))
              <-> is_Some (morphCache !! nm)).
Proof.
  split; [apply NoDup_ListNoDup, NoDup_fst_map_to_list |]. split.
  - intros [nm targets] Hin. apply list_elem_of_In, elem_of_map_to_list in Hin.
    exact Hin.
  - intros nm. rewrite List.in_map_iff. split.
    + intros ([n targets] & <- & Hin).
      apply list_elem_of_In, elem_of_map_to_list in Hin. cbn. eauto.
    + intros [targets Ht]. exists (nm, targets). split; [reflexivity |].
      apply list_elem_of_In, elem_of_map_to_list. exact Ht.
Qed.

Lemma reset_step (st : MorphState) (nm : string) :
  smoothedOf (fold_left (resetMorph morphCache speed) (map_to_list morphCache) st) nm
  = if bool_decide (is_Some (morphCache !! nm)) && negb (isBlinkMorph nm)
    then smoothedOf st nm + (0 - smoothedOf st nm) * speed
    else smoothedOf st nm.
Proof.
  destruct cache_entries_spec as (Hnd & Hcache & Hnames).
  unfold smoothedOf at 1.
  destruct (isBlinkMorph nm) eqn:Hblink.
  - rewrite andb_false_r. rewrite fold_resetMorph_untouched by (left; exact Hblink).
    reflexivity.
  - rewrite andb_true_r. destruct (decide (is_Some (morphCache !! nm))) as [Hin | Hout].
    + rewrite bool_decide_eq_true_2 by exact Hin.
      rewrite fold_resetMorph_decays; try assumption; [reflexivity |].
      apply Hnames. exact Hin.
    + rewrite bool_decide_eq_false_2 by exact Hout.
      rewrite fold_resetMorph_untouched; [reflexivity |].
      right. intros Hin. apply Hout, Hnames, Hin.
Qed.

End NeutralReset.

Lemma jaw_closed_rotation (jawBaseRotationZ : option Q) :
  jawValueToRotation jawBaseRotationZ 0 == CLOSED_ROTATION.
Proof. vm_compute. reflexivity. Qed.

Section NeutralResetClaims.

Lemma fold_resetMorph_blink_slots (morphCache : gmap string (list Slot)) (speed : Q)
    (entries : list (string * list Slot)) (st : MorphState) (slot : Slot) :
  (forall nm targets,
      morphCache !! nm = Some targets -> slot ∈ targets -> isBlinkMorph nm = true) ->
  influences (fold_left (resetMorph morphCache speed) entries st) !! slot
    = influences st !! slot.
Proof.
  intros Hblink. revert st. induction entries as [| entry entries IH]; intros st;
    [reflexivity |].
  cbn [fold_left]. rewrite IH. unfold resetMorph.
  destruct (String.eqb (fst entry) BLINK_MORPH_LEFT
            || String.eqb (fst entry) BLINK_MORPH_RIGHT) eqn:E; [reflexivity |].
  rewrite smooth_slots. destruct (morphCache !! fst entry) as [targets |] eqn:Hc;
    [| reflexivity].
  destruct (decide (slot ∈ targets)) as [Hin | Hout].
  - specialize (Hblink _ _ Hc Hin). unfold isBlinkMorph in Hblink. congruence.
  - rewrite bool_decide_eq_false_2 by exact Hout. reflexivity.
Qed.

(** X13.  resetToNeutral moves the smoothed value [v] of every channel of
    the morph cache except Eye_Blink_L and Eye_Blink_R to
    [v + (0 - v) * speed]; the two blink channels, channels outside the
    cache, and every slot owned only by blink channels are left alone.  A
    present jaw bone moves toward the closed rotation by the jaw speed,
    and present tongue bones are put back to rest at once. *)
Theorem reset_to_neutral_spares_blink
    (morphCache : gmap string (list Slot)) (st : MorphState)
    (jawBone : option JawState) (jawBaseRotationZ : option Q)
    (tongue : TongueBones) (tongueDefaultPosX speed jawSpeed : Q) :
  let result :=
    resetToNeutral morphCache st jawBone jawBaseRotationZ tongue tongueDefaultPosX
                   speed jawSpeed in
  let st' := fst (fst result) in
  (forall nm,
      smoothedOf st' nm =
        if bool_decide (is_Some (morphCache !! nm)) && negb (isBlinkMorph nm)
        then smoothedOf st nm + (0 - smoothedOf st nm) * speed
        else smoothedOf st nm) /\
  (forall nm, isBlinkMorph nm = true ->
              smoothedValues st' !! nm = smoothedValues st !! nm) /\
  (forall slot,
      (forall nm targets,
          morphCache !! nm = Some targets -> slot ∈ targets -> isBlinkMorph nm = true) ->
      influences st' !! slot = influences st !! slot) /\
  (forall jaw, jawBone = Some jaw ->
     exists jaw', snd (fst result) = Some jaw' /\
       jawRotationZ jaw' ==
         default (jawRotationZ jaw) (currentRotationRef jaw)
         + (CLOSED_ROTATION - default (jawRotationZ jaw) (currentRotationRef jaw))
           * jawSpeed) /\
  (jawBone = None -> snd (fst result) = None) /\
  tongue01RotationZ (snd result) = option_map (fun _ => 0) (tongue01RotationZ tongue) /\
  tongue02PositionX (snd result)
    = option_map (fun _ => tongueDefaultPosX) (tongue02PositionX tongue).
Proof.
  cbv zeta. unfold resetToNeutral. cbn [fst snd].
  split; [intros nm; apply reset_step |].
  split; [intros nm Hblink; apply fold_resetMorph_untouched; left; exact Hblink |].
  split; [intros slot Hslot; apply fold_resetMorph_blink_slots; exact Hslot |].
  split; [| split; [intros ->; reflexivity | split; reflexivity]].
  intros jaw ->. cbn [option_map]. eexists. split; [reflexivity |].
  unfold applyJawBoneSmooth. cbn [jawRotationZ].
  rewrite (jaw_closed_rotation jawBaseRotationZ). reflexivity.
Qed.

(** X14.  Repeated resets with a speed strictly between 0 and 1 fade
    every cached non-blink channel out: its smoothed value keeps its sign,
    never grows in size, and comes within any positive distance of 0. *)
Theorem fade_out_converges_to_neutral
    (morphCache : gmap string (list Slot)) (st : MorphState) (speed : Q)
    (nm : string) :
  0 < speed -> speed < 1 ->
  is_Some (morphCache !! nm) -> isBlinkMorph nm = false ->
  let s := fun n : nat => smoothedOf (resetRepeat morphCache st speed n) nm in
  (forall n, s (S n) == (1 - speed) * s n) /\
  (0 <= s 0%nat -> forall n, 0 <= s (S n) /\ s (S n) <= s n) /\
  (s 0%nat <= 0 -> forall n, s n <= s (S n) /\ s (S n) <= 0) /\
  (forall eps : Q,
      0 < eps -> exists N : nat, forall n, (N <= n)%nat -> Qabs (s n) < eps).
Proof.
  intros H0 H1 Hcached Hblink s.
  assert (Hstep : forall n, s (S n) == s n + (0 - s n) * speed).
  { intros n. unfold s. cbn [resetRepeat]. rewrite reset_step.
    rewrite bool_decide_eq_true_2 by exact Hcached. rewrite Hblink. reflexivity. }
  split; [intros n; rewrite (Hstep n); ring |].
  split; [| split].
  - intros Hpos n. apply (lerp_above 0 speed H0 H1 s Hstep).
    apply (lerp_stays_above 0 speed H0 H1 s Hstep). exact Hpos.
  - intros Hneg n. apply (lerp_below 0 speed H0 H1 s Hstep).
    apply (lerp_stays_below 0 speed H0 H1 s Hstep). exact Hneg.
  - intros eps Heps.
    destruct (lerp_converges 0 speed H0 H1 s Hstep eps Heps) as [N HN].
    exists N. intros n Hn. specialize (HN n Hn).
    assert (Habs : Qabs (s n) == Qabs (0 - s n)).
    { rewrite <- (Qabs_opp (s n)). apply Qabs_wd. ring. }
    rewrite Habs. exact HN.
Qed.

(** A brow channel at 0.8 fading out at the fade-out speed. *)
Lemma fade_out_converges_to_neutral_witness :
  exists N : nat,
    forall n, (N <= n)%nat ->
      Qabs (smoothedOf
              (resetRepeat {[ "Brow_Drop_L" := [(0%nat, 2%nat)] ]}
                 (mkMorphState {[ "Brow_Drop_L" := 0.8 ]} ∅)
                 FADE_OUT_LERP_SPEED n)
              "Brow_Drop_L") < 1 # 1000.
Proof.
  assert (Hcached : is_Some (({[ "Brow_Drop_L" := [(0%nat, 2%nat)] ]}
                               : gmap string (list Slot)) !! "Brow_Drop_L")).
  { rewrite lookup_singleton_eq. eauto. }
  destruct (fade_out_converges_to_neutral
              {[ "Brow_Drop_L" := [(0%nat, 2%nat)] ]}
              (mkMorphState {[ "Brow_Drop_L" := 0.8 ]} ∅) FADE_OUT_LERP_SPEED
              "Brow_Drop_L") as (_ & _ & _ & Hconv);
    [vm_compute; reflexivity | vm_compute; reflexivity | exact Hcached
     | vm_compute; reflexivity |].
  apply Hconv. vm_compute. reflexivity.
Defined.

End NeutralResetClaims.

Lemma jawValueToRotation_bounds (jawBaseRotationZ : option Q) (jawValue : Q) :
  CLOSED_ROTATION <= jawValueToRotation jawBaseRotationZ jawValue /\
  jawValueToRotation jawBaseRotationZ jawValue <= CLOSED_ROTATION + ROTATION_RANGE.
Proof.
  pose proof (clamp01_range jawValue) as [Hlo Hhi].
  unfold jawValueToRotation, CLOSED_ROTATION, ROTATION_RANGE.
  assert (H1 : 0 <= clamp01 jawValue * 0.4363) by (apply Qmult_le_0_compat; lra).
  assert (H2 : 0 <= (1 - clamp01 jawValue) * 0.4363)
    by (apply Qmult_le_0_compat; lra).
  split; lra.
Qed.

Section JawBone.

(** X15.  applyJawBoneSmooth with a speed in [0,1]: the new rotation
    lies between the remembered rotation and the target rotation, never
    beyond either, and therefore stays inside
    [CLOSED_ROTATION, CLOSED_ROTATION + ROTATION_RANGE] once it is inside;
    it is written to the bone and remembered; and once a rotation is
    remembered, the bone's own rotation.z no longer matters. *)
Theorem jaw_rotation_stays_in_range
    (jaw : JawState) (jawBaseRotationZ : option Q) (jawValue speed : Q) :
  0 <= speed -> speed <= 1 ->
  let current := default (jawRotationZ jaw) (currentRotationRef jaw) in
  let target := jawValueToRotation jawBaseRotationZ jawValue in
  let jaw' := applyJawBoneSmooth jaw jawBaseRotationZ jawValue speed in
  currentRotationRef jaw' = Some (jawRotationZ jaw') /\
  (current <= target -> current <= jawRotationZ jaw' /\ jawRotationZ jaw' <= target) /\
  (target <= current -> target <= jawRotationZ jaw' /\ jawRotationZ jaw' <= current) /\
  (CLOSED_ROTATION <= current -> current <= CLOSED_ROTATION + ROTATION_RANGE ->
   CLOSED_ROTATION <= jawRotationZ jaw' /\
   jawRotationZ jaw' <= CLOSED_ROTATION + ROTATION_RANGE) /\
  (forall (z remembered : Q),
      currentRotationRef jaw = Some remembered ->
      applyJawBoneSmooth (mkJawState z (Some remembered)) jawBaseRotationZ jawValue speed
      = jaw').
Proof.
  intros H0 H1. cbv zeta.
  destruct (jawValueToRotation_bounds jawBaseRotationZ jawValue) as [Hlo Hhi].
  unfold applyJawBoneSmooth. cbn [jawRotationZ currentRotationRef].
  set (current := default (jawRotationZ jaw) (currentRotationRef jaw)).
  set (target := jawValueToRotation jawBaseRotationZ jawValue) in *.
  assert (Hup : current <= target ->
                0 <= (target - current) * speed /\
                0 <= (target - current) * (1 - speed)).
  { intros H. split; apply Qmult_le_0_compat; lra. }
  assert (Hdown : target <= current ->
                  0 <= (current - target) * speed /\
                  0 <= (current - target) * (1 - speed)).
  { intros H. split; apply Qmult_le_0_compat; lra. }
  split; [reflexivity |].
  split; [intros H; destruct (Hup H); split; lra |].
  split; [intros H; destruct (Hdown H); split; lra |].
  split.
  - intros Hc0 Hc1. destruct (Qlt_le_dec current target) as [Hlt | Hge].
    + destruct (Hup (Qlt_le_weak _ _ Hlt)). split; lra.
    + destruct (Hdown Hge). split; lra.
  - intros z remembered Href. subst current. rewrite Href. reflexivity.
Qed.

(** A half-open target approached from the closed jaw at the jaw speed. *)
Lemma jaw_rotation_stays_in_range_witness :
  CLOSED_ROTATION
  <= jawRotationZ (applyJawBoneSmooth (mkJawState CLOSED_ROTATION None) None
                     (1 # 2) JAW_LERP_SPEED) /\
  jawRotationZ (applyJawBoneSmooth (mkJawState CLOSED_ROTATION None) None
                  (1 # 2) JAW_LERP_SPEED)
  <= CLOSED_ROTATION + ROTATION_RANGE.
Proof.
  apply (jaw_rotation_stays_in_range (mkJawState CLOSED_ROTATION None) None
           (1 # 2) JAW_LERP_SPEED); vm_compute; discriminate.
Defined.

End JawBone.

Section MetaHumanJaw.

Lemma Qltb_lt (x y : Q) : Qltb x y = true <-> x < y.
Proof.
  unfold Qltb. rewrite Qlt_alt. destruct (x ?= y)%Q; split; congruence.
Qed.

Lemma Qltb_ge (x y : Q) : Qltb x y = false <-> y <= x.
Proof.
  split; intros H.
  - apply Qnot_lt_le. intros Hlt. apply Qltb_lt in Hlt. congruence.
  - destruct (Qltb x y) eqn:E; [| reflexivity]. apply Qltb_lt in E. lra.
Qed.

(** X16.  The jaw value the MetaHuman path feeds to the bone: the
    jawOpen control (0 when absent) passes unchanged below 0.3, loses 0.1
    from 0.3 on, and is capped so that the result never exceeds 0.6; it is
    not negative for a non-negative control.  The correction is a step
    down, not a ramp: a control between 0.3 and 0.4 gives a smaller jaw
    value than any control between its own result and 0.3. *)
Theorem metahuman_jaw_dead_zone (bs : gmap string Q) :
  let v := sourceValue bs "CTRL_expressions_jawOpen" in
  metahumanJawValue bs <= 0.6 /\
  (0 <= v -> 0 <= metahumanJawValue bs) /\
  (v < 0.3 -> metahumanJawValue bs == v) /\
  (0.3 <= v -> v <= 0.7 -> metahumanJawValue bs == v - 0.1) /\
  (0.7 <= v -> metahumanJawValue bs == 0.6) /\
  (forall bs2 : gmap string Q,
      let u := sourceValue bs2 "CTRL_expressions_jawOpen" in
      0.3 <= v -> v < 0.4 -> v - 0.1 < u -> u < 0.3 ->
      u < v /\ metahumanJawValue bs < metahumanJawValue bs2).
Proof.
  cbv zeta.
  assert (Hcases : forall b : gmap string Q,
             let x := sourceValue b "CTRL_expressions_jawOpen" in
             (x < 0.3 -> metahumanJawValue b == x) /\
             (0.3 <= x -> x <= 0.7 -> metahumanJawValue b == x - 0.1) /\
             (0.7 <= x -> metahumanJawValue b == 0.6)).
  { intros b. cbv zeta. unfold metahumanJawValue.
    set (x := sourceValue b "CTRL_expressions_jawOpen").
    destruct (Q.min_spec x 0.7) as [[Ha Hb] | [Ha Hb]];
      destruct (Qltb (Qmin x 0.7) 0.3) eqn:E;
      [apply Qltb_lt in E | apply Qltb_ge in E
       | apply Qltb_lt in E | apply Qltb_ge in E];
      rewrite Hb in *; repeat split; intros; lra. }
  destruct (Hcases bs) as (Hlow & Hmid & Hhigh). cbv zeta in Hlow, Hmid, Hhigh.
  set (v := sourceValue bs "CTRL_expressions_jawOpen") in *.
  split; [| split; [| split; [exact Hlow | split; [exact Hmid | split; [exact Hhigh |]]]]].
  - destruct (Qlt_le_dec v 0.3) as [H | H]; [rewrite (Hlow H); lra |].
    destruct (Qlt_le_dec v 0.7) as [H' | H'];
      [rewrite (Hmid H); lra | rewrite (Hhigh H'); lra].
  - intros Hpos. destruct (Qlt_le_dec v 0.3) as [H | H]; [rewrite (Hlow H); lra |].
    destruct (Qlt_le_dec v 0.7) as [H' | H'];
      [rewrite (Hmid H); lra | rewrite (Hhigh H'); lra].
  - intros bs2 H1 H2 H3 H4. destruct (Hcases bs2) as (Hlow2 & _ & _).
    cbv zeta in Hlow2. rewrite (Hlow2 H4), (Hmid H1) by lra. split; lra.
Qed.

(** A fully open control. *)
Lemma metahuman_jaw_dead_zone_witness :
  metahumanJawValue (<["CTRL_expressions_jawOpen" := 1]> ∅) == 0.6.
Proof.
  apply (metahuman_jaw_dead_zone (<["CTRL_expressions_jawOpen" := 1]> ∅)).
  vm_compute. discriminate.
Defined.

End MetaHumanJaw.

Section Blinking.

Variable morphCache : gmap string (list Slot).

Lemma applyMorphValue_lookup (infl : gmap Slot Q) (nm : string) (v : Q) (slot : Slot) :
  applyMorphValue morphCache infl nm v !! slot =
    match morphCache !! nm with
    | Some targets => if bool_decide (slot ∈ targets) then Some v else infl !! slot
    | None => infl !! slot
    end.
Proof.
  unfold applyMorphValue. destruct (morphCache !! nm); [| reflexivity].
  apply writeSlots_lookup.
Qed.

(** X17.  applyBlinking with a non-negative frame delta keeps the blink
    value in [0,1] once it is there and moves it toward the phase's target
    (1 while blinking, 0 otherwise) without passing it; the new value is
    written to every slot of Eye_Blink_L and Eye_Blink_R and to no other
    slot.  A blink that is due (not blinking, nextBlinkTime reached)
    starts on this tick and is still on after it, with its end set
    BLINK_DURATION later, so it never starts and ends in the same tick;
    before nextBlinkTime no blink starts.  A running blink goes on until
    its end time is reached and then ends, with the next blink scheduled
    [randInt] after the current time. *)
Theorem blink_value_stays_in_unit_interval
    (blinkState : BlinkState) (infl : gmap Slot Q) (currentTime delta randInt : Q) :
  0 <= delta ->
  0 <= blinkValue blinkState -> blinkValue blinkState <= 1 ->
  let result := applyBlinking morphCache blinkState infl currentTime delta randInt in
  let blink' := fst result in
  0 <= blinkValue blink' /\ blinkValue blink' <= 1 /\
  (blinkIsBlinking blink' = true ->
   blinkValue blinkState <= blinkValue blink') /\
  (blinkIsBlinking blink' = false ->
   blinkValue blink' <= blinkValue blinkState) /\
  (forall slot targets,
      (morphCache !! BLINK_MORPH_LEFT = Some targets \/
       morphCache !! BLINK_MORPH_RIGHT = Some targets) ->
      slot ∈ targets -> snd result !! slot = Some (blinkValue blink')) /\
  (forall slot,
      (forall targets,
          (morphCache !! BLINK_MORPH_LEFT = Some targets \/
           morphCache !! BLINK_MORPH_RIGHT = Some targets) -> slot ∉ targets) ->
      snd result !! slot = infl !! slot) /\
  (blinkIsBlinking blinkState = false -> nextBlinkTime blinkState <= currentTime ->
   blinkIsBlinking blink' = true /\
   nextBlinkTime blink' = currentTime + BLINK_DURATION) /\
  (blinkIsBlinking blinkState = false -> currentTime < nextBlinkTime blinkState ->
   blinkIsBlinking blink' = false /\
   nextBlinkTime blink' = nextBlinkTime blinkState) /\
  (blinkIsBlinking blinkState = true -> currentTime < nextBlinkTime blinkState ->
   blinkIsBlinking blink' = true /\ nextBlinkTime blink' = nextBlinkTime blinkState) /\
  (blinkIsBlinking blinkState = true -> nextBlinkTime blinkState <= currentTime ->
   blinkIsBlinking blink' = false /\ nextBlinkTime blink' = currentTime + randInt).
Proof.
  intros Hd Hv0 Hv1. cbv zeta. unfold applyBlinking. cbn [fst snd].
  destruct blinkState as [blinking v next].
  cbn [blinkIsBlinking blinkValue nextBlinkTime] in *.
  set (k := Qmin 1 (delta * 15)).
  assert (Hk : 0 <= k /\ k <= 1).
  { unfold k. destruct (Q.min_spec 1 (delta * 15)) as [[Ha Hb] | [Ha Hb]];
      rewrite Hb; split; lra. }
  destruct Hk as [Hk0 Hk1].
  assert (Hp1 : 0 <= (1 - v) * k) by (apply Qmult_le_0_compat; lra).
  assert (Hp2 : 0 <= (1 - v) * (1 - k)) by (apply Qmult_le_0_compat; lra).
  assert (Hp3 : 0 <= v * k) by (apply Qmult_le_0_compat; lra).
  assert (Hp4 : 0 <= v * (1 - k)) by (apply Qmult_le_0_compat; lra).
  assert (Hslots :
    forall (x : Q),
      (forall slot targets,
          (morphCache !! BLINK_MORPH_LEFT = Some targets \/
           morphCache !! BLINK_MORPH_RIGHT = Some targets) ->
          slot ∈ targets ->
          applyMorphValue morphCache
            (applyMorphValue morphCache infl BLINK_MORPH_LEFT x) BLINK_MORPH_RIGHT x
            !! slot = Some x) /\
      (forall slot,
          (forall targets,
              (morphCache !! BLINK_MORPH_LEFT = Some targets \/
               morphCache !! BLINK_MORPH_RIGHT = Some targets) -> slot ∉ targets) ->
          applyMorphValue morphCache
            (applyMorphValue morphCache infl BLINK_MORPH_LEFT x) BLINK_MORPH_RIGHT x
            !! slot = infl !! slot)).
  { intros x. split.
    - intros slot targets Hc Hin. rewrite !applyMorphValue_lookup.
      destruct (morphCache !! BLINK_MORPH_RIGHT) as [tr |] eqn:Hr.
      + destruct (decide (slot ∈ tr)) as [Hinr | Houtr].
        * rewrite bool_decide_eq_true_2 by exact Hinr. reflexivity.
        * rewrite bool_decide_eq_false_2 by exact Houtr.
          destruct Hc as [Hc | Hc]; [| congruence].
          rewrite Hc, bool_decide_eq_true_2 by exact Hin. reflexivity.
      + destruct Hc as [Hc | Hc]; [| discriminate Hc].
        rewrite Hc, bool_decide_eq_true_2 by exact Hin. reflexivity.
    - intros slot Hout. rewrite !applyMorphValue_lookup.
      destruct (morphCache !! BLINK_MORPH_RIGHT) as [tr |] eqn:Hr.
      + rewrite bool_decide_eq_false_2 by (apply Hout; right; reflexivity).
        destruct (morphCache !! BLINK_MORPH_LEFT) as [tl |] eqn:Hl; [| reflexivity].
        rewrite bool_decide_eq_false_2 by (apply Hout; left; reflexivity).
        reflexivity.
      + destruct (morphCache !! BLINK_MORPH_LEFT) as [tl |] eqn:Hl; [| reflexivity].
        rewrite bool_decide_eq_false_2 by (apply Hout; left; reflexivity).
        reflexivity. }
  destruct (Qle_bool next currentTime) eqn:Hdue;
    destruct blinking; cbn [negb andb blinkIsBlinking blinkValue nextBlinkTime];
    try rewrite Hdue; cbn [negb andb blinkIsBlinking blinkValue nextBlinkTime].
  - (* blinking, due: the blink ends *)
    apply Qle_bool_iff in Hdue.
    destruct (Hslots (v + (0 - v) * k)) as [Hin Hout].
    repeat split; intros; try discriminate; try assumption; try lra;
      try (exfalso; lra); try (eapply Hin; eassumption);
      try (apply Hout; assumption); auto.
  - (* not blinking, due: the blink starts *)
    apply Qle_bool_iff in Hdue.
    assert (Hnot : Qle_bool (currentTime + BLINK_DURATION) currentTime = false).
    { apply Qle_bool_false. unfold BLINK_DURATION. lra. }
    rewrite Hnot. cbn [blinkIsBlinking blinkValue nextBlinkTime].
    destruct (Hslots (v + (1 - v) * k)) as [Hin Hout].
    repeat split; intros; try discriminate; try assumption; try lra;
      try (exfalso; lra); try (eapply Hin; eassumption);
      try (apply Hout; assumption); auto.
  - (* blinking, not due: the blink goes on *)
    apply Qle_bool_false in Hdue.
    destruct (Hslots (v + (1 - v) * k)) as [Hin Hout].
    repeat split; intros; try discriminate; try assumption; try lra;
      try (exfalso; lra); try (eapply Hin; eassumption);
      try (apply Hout; assumption); auto.
  - (* not blinking, not due *)
    apply Qle_bool_false in Hdue.
    destruct (Hslots (v + (0 - v) * k)) as [Hin Hout].
    repeat split; intros; try discriminate; try assumption; try lra;
      try (exfalso; lra); try (eapply Hin; eassumption);
      try (apply Hout; assumption); auto.
Qed.

End Blinking.

(** A rig with one slot for the left blink morph, one sixtieth of a
    second after a blink became due: the blink starts and the value
    stays in range. *)
Lemma blink_value_stays_in_unit_interval_witness :
  0 <= blinkValue
         (fst (applyBlinking {[ BLINK_MORPH_LEFT := [(0%nat, 0%nat)] ]}
                 (mkBlink false 0 0) ∅ 10 (1 # 60) 3000)) /\
  blinkValue
    (fst (applyBlinking {[ BLINK_MORPH_LEFT := [(0%nat, 0%nat)] ]}
            (mkBlink false 0 0) ∅ 10 (1 # 60) 3000)) <= 1 /\
  blinkIsBlinking
    (fst (applyBlinking {[ BLINK_MORPH_LEFT := [(0%nat, 0%nat)] ]}
            (mkBlink false 0 0) ∅ 10 (1 # 60) 3000)) = true.
Proof.
  destruct (blink_value_stays_in_unit_interval
              {[ BLINK_MORPH_LEFT := [(0%nat, 0%nat)] ]} (mkBlink false 0 0) ∅
              10 (1 # 60) 3000)
    as (Hlo & Hhi & _ & _ & _ & _ & Hstart & _);
    [vm_compute; discriminate | vm_compute; discriminate
     | vm_compute; discriminate |].
  split; [exact Hlo |]. split; [exact Hhi |].
  apply Hstart; [reflexivity | vm_compute; discriminate].
Defined.

Section BlendedSmoother.

(** X18.  The smoother of useArkitLipsync is the plain smoother whenever
    the animation blend weight is omitted or below 0.01.  From 0.01 on it
    is the plain smoother aimed at the blended target
    [animation * weight + lipsync * (1 - weight)], where the animation
    value is read back from the channel's first slot (0 for a channel
    without slots or with an unset slot): the channel's smoothed value
    and all its slots move toward that target, which for a weight up to 1
    lies between the lipsync value and the read-back value and is the
    read-back value at weight 1.  For a channel the morph cache does not
    hold it does nothing. *)
Theorem blend_smoother_agrees_with_plain :
  (forall (morphCache : gmap string (list Slot)) (st : MorphState) (nm : string)
          (targetValue lerpSpeed : Q) (weight : option Q),
      default 0 weight < 0.01 ->
      applyMorphValueSmoothBlend morphCache st nm targetValue lerpSpeed weight
      = applyMorphValueSmooth morphCache st nm targetValue lerpSpeed) /\
  (forall (morphCache : gmap string (list Slot)) (st : MorphState) (nm : string)
          (targets : list Slot) (targetValue lerpSpeed weight : Q),
      let animationValue :=
        match targets with
        | t0 :: _ => default 0 (influences st !! t0)
        | [] => 0
        end in
      let blended := animationValue * weight + targetValue * (1 - weight) in
      let current := default 0 (smoothedValues st !! nm) in
      let result :=
        applyMorphValueSmoothBlend morphCache st nm targetValue lerpSpeed (Some weight) in
      morphCache !! nm = Some targets ->
      0.01 <= weight ->
      result = applyMorphValueSmooth morphCache st nm blended lerpSpeed /\
      smoothedValues result !! nm = Some (current + (blended - current) * lerpSpeed) /\
      (forall slot, slot ∈ targets ->
         influences result !! slot = Some (current + (blended - current) * lerpSpeed)) /\
      (weight <= 1 ->
       Qmin animationValue targetValue <= blended /\
       blended <= Qmax animationValue targetValue) /\
      (weight == 1 -> blended == animationValue)) /\
  (forall (morphCache : gmap string (list Slot)) (st : MorphState) (nm : string)
          (targetValue lerpSpeed : Q) (weight : option Q),
      morphCache !! nm = None ->
      applyMorphValueSmoothBlend morphCache st nm targetValue lerpSpeed weight = st).
Proof.
  split; [| split].
  - intros morphCache st nm targetValue lerpSpeed weight Hw.
    unfold applyMorphValueSmoothBlend, applyMorphValueSmooth, blendedTargetOf.
    apply Qltb_lt in Hw. rewrite Hw. reflexivity.
  - intros morphCache st nm targets targetValue lerpSpeed weight. cbv zeta.
    intros Hcache Hw0.
    set (a := match targets with
              | t0 :: _ => default 0 (influences st !! t0)
              | [] => 0
              end).
    assert (Heq : applyMorphValueSmoothBlend morphCache st nm targetValue lerpSpeed
                    (Some weight)
                  = applyMorphValueSmooth morphCache st nm
                      (a * weight + targetValue * (1 - weight)) lerpSpeed).
    { unfold applyMorphValueSmoothBlend, applyMorphValueSmooth, blendedTargetOf.
      rewrite Hcache. change (default 0 (Some weight)) with weight.
      apply Qltb_ge in Hw0. rewrite Hw0.
      reflexivity. }
    rewrite Heq. split; [reflexivity |]. split; [| split; [| split]].
    + unfold applyMorphValueSmooth. rewrite Hcache. cbn [smoothedValues].
      apply lookup_insert_eq.
    + intros slot Hin. rewrite smooth_slots, Hcache.
      rewrite bool_decide_eq_true_2 by exact Hin. reflexivity.
    + intros Hw1. set (T := targetValue).
      assert (H1 : a <= T -> 0 <= (T - a) * weight /\ 0 <= (T - a) * (1 - weight)).
      { intros H. split; apply Qmult_le_0_compat; lra. }
      assert (H2 : T <= a -> 0 <= (a - T) * weight /\ 0 <= (a - T) * (1 - weight)).
      { intros H. split; apply Qmult_le_0_compat; lra. }
      destruct (Q.min_spec a T) as [[Ha Hb] | [Ha Hb]];
        destruct (Q.max_spec a T) as [[Hc Hd] | [Hc Hd]];
        rewrite Hb, Hd; split;
        try (destruct H1; [lra |]); try (destruct H2; [lra |]); lra.
    + intros Hw1. rewrite Hw1. ring.
  - intros morphCache st nm targetValue lerpSpeed weight Hnone.
    unfold applyMorphValueSmoothBlend. rewrite Hnone. reflexivity.
Qed.

(** A channel whose slot the animation holds at 1, lipsync value 0 and a
    blend weight of one half: the target is one half, and the first call
    moves the smoothed value from 0 to half of LIPSYNC_LERP_SPEED. *)
Lemma blend_smoother_agrees_with_plain_witness :
  smoothedValues
    (applyMorphValueSmoothBlend {[ "Mouth_Smile_L" := [(0%nat, 5%nat)] ]}
       (mkMorphState ∅ {[ (0%nat, 5%nat) := 1 ]}) "Mouth_Smile_L" 0
       LIPSYNC_LERP_SPEED (Some 0.5)) !! "Mouth_Smile_L"
  = Some (0 + ((1 * 0.5 + 0 * (1 - 0.5)) - 0) * LIPSYNC_LERP_SPEED).
Proof.
  destruct blend_smoother_agrees_with_plain as (_ & Hblend & _).
  destruct (Hblend {[ "Mouth_Smile_L" := [(0%nat, 5%nat)] ]}
              (mkMorphState ∅ {[ (0%nat, 5%nat) := 1 ]}) "Mouth_Smile_L"
              [(0%nat, 5%nat)] 0 LIPSYNC_LERP_SPEED 0.5)
    as (_ & Hval & _).
  - vm_compute. reflexivity.
  - vm_compute. discriminate.
  - exact Hval.
Defined.

End BlendedSmoother.

Section ArkitPlayback.

Variable morphCache : gmap string (list Slot).

Lemma arkitStep_falsy_entry (mapping : gmap string MorphMapping) (k : string)
    (frame : list Q) (fade speed : Q) (st : MorphState) (i : nat) :
  truthy (mapping !! k) = false ->
  arkitStep morphCache mapping frame fade speed st i
  = arkitStep morphCache (delete k mapping) frame fade speed st i.
Proof.
  intros Hfalsy. unfold arkitStep. cbv zeta.
  destruct (isControlledSeparately (nth i ARKIT_ORDER_61 EmptyString)); [reflexivity |].
  destruct (decide (k = nth i ARKIT_ORDER_61 EmptyString)) as [<- | Hne].
  - rewrite Hfalsy, lookup_delete_eq. reflexivity.
  - rewrite (lookup_delete_ne mapping k _ Hne). reflexivity.
Qed.

Lemma arkit_names_distinct (i j : nat) :
  (i < 52)%nat -> (j < 52)%nat -> i <> j ->
  nth i ARKIT_ORDER_61 EmptyString <> nth j ARKIT_ORDER_61 EmptyString.
Proof.
  intros Hi Hj Hne Heq. apply Hne.
  assert (Hnd : List.NoDup ARKIT_ORDER_61).
  { apply NoDup_ListNoDup. apply (bool_decide_unpack _). vm_compute. reflexivity. }
  apply (proj1 (List.NoDup_nth ARKIT_ORDER_61 EmptyString) Hnd i j); assumption.
Qed.

Lemma fold_smooth_other (names : list string) (other : string) (v speed : Q)
    (st : MorphState) :
  ~ List.In other names ->
  smoothedValues
    (fold_left (fun acc morphName => applyMorphValueSmooth morphCache acc morphName v speed)
               names st) !! other
  = smoothedValues st !! other.
Proof.
  revert st. induction names as [| n names IH]; intros st Hnot; [reflexivity |].
  cbn [fold_left]. rewrite IH by (intros H; apply Hnot; right; exact H).
  apply smooth_other. intros ->. apply Hnot. left. reflexivity.
Qed.

(** A loop iteration for another channel whose mapping entry does not
    name [nth i ARKIT_ORDER_61] leaves that name's smoothed value alone. *)
Lemma arkitStep_other (mapping : gmap string MorphMapping) (frame : list Q)
    (fade speed : Q) (st : MorphState) (i j : nat) :
  (i < 52)%nat -> (j < 52)%nat -> j <> i ->
  match mapping !! nth j ARKIT_ORDER_61 EmptyString with
  | Some (MapString morphName) => morphName <> nth i ARKIT_ORDER_61 EmptyString
  | Some (MapArray morphNames) =>
      ~ List.In (nth i ARKIT_ORDER_61 EmptyString) morphNames
  | _ => True
  end ->
  smoothedValues (arkitStep morphCache mapping frame fade speed st j)
    !! nth i ARKIT_ORDER_61 EmptyString
  = smoothedValues st !! nth i ARKIT_ORDER_61 EmptyString.
Proof.
  intros Hi Hj Hne Hentry.
  pose proof (arkit_names_distinct j i Hj Hi Hne) as Hnames.
  unfold arkitStep. cbv zeta.
  destruct (isControlledSeparately (nth j ARKIT_ORDER_61 EmptyString)); [reflexivity |].
  destruct (mapping !! nth j ARKIT_ORDER_61 EmptyString) as [[n | names |] |].
  - destruct n as [| c n]; cbn [truthy default].
    + apply smooth_other. exact Hnames.
    + apply smooth_other. exact Hentry.
  - cbn [truthy default]. apply fold_smooth_other. exact Hentry.
  - cbn [truthy]. apply smooth_other. exact Hnames.
  - cbn [truthy]. apply smooth_other. exact Hnames.
Qed.

Lemma fold_arkitStep_other (mapping : gmap string MorphMapping) (frame : list Q)
    (fade speed : Q) (i : nat) (steps : list nat) (st : MorphState) :
  (i < 52)%nat ->
  (forall j, List.In j steps ->
     (j < 52)%nat /\ j <> i /\
     match mapping !! nth j ARKIT_ORDER_61 EmptyString with
     | Some (MapString morphName) => morphName <> nth i ARKIT_ORDER_61 EmptyString
     | Some (MapArray morphNames) =>
         ~ List.In (nth i ARKIT_ORDER_61 EmptyString) morphNames
     | _ => True
     end) ->
  smoothedValues (fold_left (arkitStep morphCache mapping frame fade speed) steps st)
    !! nth i ARKIT_ORDER_61 EmptyString
  = smoothedValues st !! nth i ARKIT_ORDER_61 EmptyString.
Proof.
  intros Hi. revert st. induction steps as [| j steps IH]; intros st Hall;
    [reflexivity |].
  cbn [fold_left]. rewrite IH by (intros k Hk; apply Hall; right; exact Hk).
  destruct (Hall j (or_introl eq_refl)) as (Hj & Hne & Hentry).
  apply arkitStep_other; assumption.
Qed.

(** X19.  A mapping entry that is null (or the empty string) has the same
    effect as no entry at all.  applyArkitMapping falls back to the ARKit
    name for it, so the channel is not skipped: when the rig has a morph
    of that name and no other entry names it, one call moves that morph's
    smoothed value from [current] to [current + (value - current) * speed],
    [value] being the frame entry times 0.6 for a brow channel and times
    the fade-in weight.  A null or missing tongueOut entry selects the
    tongue bones, while a morph name there leaves them alone. *)
Theorem null_mapping_entry_is_like_no_entry :
  (forall (st : MorphState) (mapping : gmap string MorphMapping) (k : string)
          (currentFrame : list Q) (fadeInWeight : Q)
          (jawBone : option JawState) (jawBaseRotationZ : option Q)
          (tongue : TongueBones) (tongueDefaultPosX lipsyncLerpSpeed jawLerpSpeed : Q),
      mapping !! k = Some MapNull \/ mapping !! k = Some (MapString EmptyString) ->
      applyArkitMapping morphCache st mapping currentFrame fadeInWeight
        jawBone jawBaseRotationZ tongue tongueDefaultPosX lipsyncLerpSpeed jawLerpSpeed
      = applyArkitMapping morphCache st (delete k mapping) currentFrame fadeInWeight
          jawBone jawBaseRotationZ tongue tongueDefaultPosX lipsyncLerpSpeed
          jawLerpSpeed) /\
  (forall (st : MorphState) (mapping : gmap string MorphMapping)
          (currentFrame : list Q) (fadeInWeight : Q)
          (jawBone : option JawState) (jawBaseRotationZ : option Q)
          (tongue : TongueBones) (tongueDefaultPosX lipsyncLerpSpeed jawLerpSpeed : Q)
          (i : nat) (targets : list Slot),
      let arkitName := nth i ARKIT_ORDER_61 EmptyString in
      let value :=
        (if includes "brow" (toLowerCase arkitName)
         then nth i currentFrame 0 * 0.6 else nth i currentFrame 0) * fadeInWeight in
      let current := default 0 (smoothedValues st !! arkitName) in
      (i < Nat.min 52 (List.length currentFrame))%nat ->
      isControlledSeparately arkitName = false ->
      mapping !! arkitName = Some MapNull \/
      mapping !! arkitName = Some (MapString EmptyString) \/
      mapping !! arkitName = None ->
      morphCache !! arkitName = Some targets ->
      (forall j, (j < 52)%nat -> j <> i ->
         match mapping !! nth j ARKIT_ORDER_61 EmptyString with
         | Some (MapString morphName) => morphName <> arkitName
         | Some (MapArray morphNames) => ~ List.In arkitName morphNames
         | _ => True
         end) ->
      mapping !! "tongueOut" <> Some (MapString arkitName) ->
      smoothedValues
        (fst (fst (applyArkitMapping morphCache st mapping currentFrame fadeInWeight
                     jawBone jawBaseRotationZ tongue tongueDefaultPosX
                     lipsyncLerpSpeed jawLerpSpeed))) !! arkitName
      = Some (current + (value - current) * lipsyncLerpSpeed)) /\
  (forall (st : MorphState) (mapping : gmap string MorphMapping)
          (currentFrame : list Q) (fadeInWeight : Q)
          (jawBone : option JawState) (jawBaseRotationZ : option Q)
          (tongue : TongueBones) (tongueDefaultPosX lipsyncLerpSpeed jawLerpSpeed : Q),
      let bones :=
        snd (applyArkitMapping morphCache st mapping currentFrame fadeInWeight
               jawBone jawBaseRotationZ tongue tongueDefaultPosX
               lipsyncLerpSpeed jawLerpSpeed) in
      (mapping !! "tongueOut" = Some MapNull \/ mapping !! "tongueOut" = None ->
       bones = applyTongueBone tongue tongueDefaultPosX
                 (nth TONGUE_OUT_INDEX currentFrame 0 * fadeInWeight)) /\
      (forall (c : ascii) (rest : string),
          mapping !! "tongueOut" = Some (MapString (String c rest)) ->
          bones = tongue)).
Proof.
  split; [| split].
  - intros st mapping k currentFrame fadeInWeight jawBone jawBaseRotationZ
           tongue tongueDefaultPosX lipsyncLerpSpeed jawLerpSpeed Hk.
    assert (Hfalsy : truthy (mapping !! k) = false)
      by (destruct Hk as [-> | ->]; reflexivity).
    unfold applyArkitMapping. cbv zeta.
    rewrite (fold_left_ext_In
               (arkitStep morphCache mapping currentFrame fadeInWeight lipsyncLerpSpeed)
               (arkitStep morphCache (delete k mapping) currentFrame fadeInWeight
                  lipsyncLerpSpeed))
      by (intros acc i _; apply arkitStep_falsy_entry; exact Hfalsy).
    destruct (decide (k = "tongueOut")) as [-> | Hne].
    + rewrite Hfalsy, lookup_delete_eq. reflexivity.
    + rewrite (lookup_delete_ne mapping k _ Hne). reflexivity.
  - intros st mapping currentFrame fadeInWeight jawBone jawBaseRotationZ
           tongue tongueDefaultPosX lipsyncLerpSpeed jawLerpSpeed i targets.
    cbv zeta. intros Hi Hfree Hentry Hcache Hothers Htongue.
    assert (Hi52 : (i < 52)%nat) by lia.
    assert (Hfalsy : truthy (mapping !! nth i ARKIT_ORDER_61 EmptyString) = false)
      by (destruct Hentry as [-> | [-> | ->]]; reflexivity).
    set (arkitName := nth i ARKIT_ORDER_61 EmptyString) in *.
    set (maxIndex := Nat.min 52 (List.length currentFrame)) in *.
    set (step := arkitStep morphCache mapping currentFrame fadeInWeight lipsyncLerpSpeed).
    assert (Hloop :
      smoothedValues (fold_left step (seq 0 maxIndex) st) !! arkitName
      = Some (default 0 (smoothedValues st !! arkitName)
              + ((if includes "brow" (toLowerCase arkitName)
                  then nth i currentFrame 0 * 0.6 else nth i currentFrame 0)
                 * fadeInWeight
                 - default 0 (smoothedValues st !! arkitName)) * lipsyncLerpSpeed)).
    { replace maxIndex with (i + S (maxIndex - S i))%nat by lia.
      rewrite seq_app, fold_left_app. cbn [seq fold_left Nat.add].
      unfold step at 1, arkitName.
      rewrite fold_arkitStep_other; [| exact Hi52 |].
      2: { intros j Hj. apply in_seq in Hj.
           split; [lia |]. split; [lia |]. apply Hothers; lia. }
      fold arkitName. unfold step at 1, arkitStep. cbv zeta. fold arkitName.
      rewrite Hfree, Hfalsy. unfold applyMorphValueSmooth. rewrite Hcache.
      cbn [smoothedValues]. rewrite lookup_insert_eq.
      unfold step, arkitName.
      rewrite fold_arkitStep_other; [reflexivity | exact Hi52 |].
      intros j Hj. apply in_seq in Hj.
      split; [lia |]. split; [lia |]. apply Hothers; lia. }
    unfold applyArkitMapping. cbv zeta. fold maxIndex. fold step.
    destruct (truthy (mapping !! "tongueOut")) eqn:Ht.
    + destruct (mapping !! "tongueOut") as [[n | names |] |] eqn:Hm;
        cbn [fst]; try exact Hloop.
      rewrite smooth_other; [exact Hloop |].
      intros ->. apply Htongue. reflexivity.
    + cbn [fst]. exact Hloop.
  - intros st mapping currentFrame fadeInWeight jawBone jawBaseRotationZ
           tongue tongueDefaultPosX lipsyncLerpSpeed jawLerpSpeed.
    cbv zeta. unfold applyArkitMapping. cbv zeta. split.
    + intros [-> | ->]; reflexivity.
    + intros c rest ->. reflexivity.
Qed.

(** X20.  Of a frame, applyArkitMapping reads the first 52 entries whose
    channel is not controlled separately, the jaw entry (17 for frames of
    60 entries or more, 24 for shorter ones) and entry 51: two frames of
    the same length that agree there give the same morphs, jaw and
    tongue. *)
Theorem arkit_reserved_entries_are_ignored
    (st : MorphState) (mapping : gmap string MorphMapping)
    (frame1 frame2 : list Q) (fadeInWeight : Q)
    (jawBone : option JawState) (jawBaseRotationZ : option Q)
    (tongue : TongueBones) (tongueDefaultPosX lipsyncLerpSpeed jawLerpSpeed : Q) :
  List.length frame1 = List.length frame2 ->
  (forall i : nat,
      ((i < 52)%nat /\ isControlledSeparately (nth i ARKIT_ORDER_61 EmptyString) = false)
      \/ i = (if (60 <=? List.length frame1)%nat
              then JAW_OPEN_INDEX_61 else JAW_OPEN_INDEX_52)
      \/ i = TONGUE_OUT_INDEX ->
      nth i frame1 0 = nth i frame2 0) ->
  applyArkitMapping morphCache st mapping frame1 fadeInWeight
    jawBone jawBaseRotationZ tongue tongueDefaultPosX lipsyncLerpSpeed jawLerpSpeed
  = applyArkitMapping morphCache st mapping frame2 fadeInWeight
      jawBone jawBaseRotationZ tongue tongueDefaultPosX lipsyncLerpSpeed jawLerpSpeed.
Proof.
  intros Hlen Hagree.
  unfold applyArkitMapping. cbv zeta. rewrite <- Hlen.
  rewrite (fold_left_ext_In
             (arkitStep morphCache mapping frame1 fadeInWeight lipsyncLerpSpeed)
             (arkitStep morphCache mapping frame2 fadeInWeight lipsyncLerpSpeed)).
  - rewrite <- (Hagree TONGUE_OUT_INDEX) by (right; right; reflexivity).
    rewrite <- (Hagree (if (60 <=? List.length frame1)%nat
                        then JAW_OPEN_INDEX_61 else JAW_OPEN_INDEX_52))
      by (right; left; reflexivity).
    reflexivity.
  - intros acc i Hi. apply in_seq in Hi. unfold arkitStep. cbv zeta.
    destruct (isControlledSeparately (nth i ARKIT_ORDER_61 EmptyString)) eqn:Hc;
      [reflexivity |].
    rewrite (Hagree i) by (left; split; [lia | exact Hc]). reflexivity.
Qed.

End ArkitPlayback.

(** A rig with a morph named mouthFunnel and a mapping that nulls
    mouthFunnel, entry 19 of the frame: the morph is driven all the
    same. *)
Lemma null_mapping_entry_is_like_no_entry_witness :
  smoothedValues
    (fst (fst (applyArkitMapping {[ "mouthFunnel" := [(0%nat, 3%nat)] ]}
                 (mkMorphState ∅ ∅) {[ "mouthFunnel" := MapNull ]} (repeat 1 52) 1
                 None None (mkTongue None None) 0
                 LIPSYNC_LERP_SPEED JAW_LERP_SPEED))) !! "mouthFunnel"
  = Some (0 + (1 * 1 - 0) * LIPSYNC_LERP_SPEED).
Proof.
  destruct (null_mapping_entry_is_like_no_entry {[ "mouthFunnel" := [(0%nat, 3%nat)] ]})
    as (_ & Hdriven & _).
  etransitivity;
    [apply (Hdriven (mkMorphState ∅ ∅) {[ "mouthFunnel" := MapNull ]} (repeat 1 52) 1
              None None (mkTongue None None) 0 LIPSYNC_LERP_SPEED JAW_LERP_SPEED
              19%nat [(0%nat, 3%nat)])
    | vm_compute; reflexivity].
  - vm_compute. lia.
  - reflexivity.
  - left. vm_compute. reflexivity.
  - vm_compute. reflexivity.
  - intros j Hj Hne.
    destruct (decide (nth j ARKIT_ORDER_61 EmptyString = "mouthFunnel")) as [E | E].
    + exfalso. apply Hne.
      assert (Hnd : List.NoDup ARKIT_ORDER_61).
      { apply NoDup_ListNoDup. apply (bool_decide_unpack _). vm_compute. reflexivity. }
      apply (proj1 (List.NoDup_nth ARKIT_ORDER_61 EmptyString) Hnd j 19%nat);
        [exact Hj | vm_compute; lia | exact E].
    + rewrite lookup_singleton_ne by (intros H; apply E; symmetry; exact H).
      exact I.
  - vm_compute. discriminate.
Defined.

(** Two 52-entry frames that differ only in entry 0, eyeBlinkLeft. *)
Lemma arkit_reserved_entries_are_ignored_witness :
  applyArkitMapping ∅ (mkMorphState ∅ ∅) ∅ (repeat 0 52) 1 None None
    (mkTongue None None) 0 LIPSYNC_LERP_SPEED JAW_LERP_SPEED
  = applyArkitMapping ∅ (mkMorphState ∅ ∅) ∅ (1 :: repeat 0 51) 1 None None
      (mkTongue None None) 0 LIPSYNC_LERP_SPEED JAW_LERP_SPEED.
Proof.
  apply arkit_reserved_entries_are_ignored; [reflexivity |].
  intros [| i] H; [| reflexivity].
  exfalso. destruct H as [[_ H] | [H | H]]; vm_compute in H; discriminate.
Defined.
